(** * yt_scraper: the extraction and aggregation core of [yt_scraper.py]

    A shallow embedding of the pure part of the scraper
    ([age_to_seconds], [gen_dict_extract], [trim_results],
    [analyze_sources] and the candidate loop of [YTScraper.search]) and the
    properties its specification states about it; then the rest of the
    program around it: the extraction of the embedded data in [search], the
    loop of [search_topics], [save_valid_cookie], the three files of
    [create_csv], [write_results_to_csv] and [write_analysis_to_csv] as their
    rows, and the three trims of the main program.  The site, [json.loads],
    the clock and [strftime] are parameters; the browser session and the
    text of a file (delimiters, quoting) are not modelled.

    Conventions of the embedding.
    - A Python [str] is a list of Unicode code points ([pystr]).
    - A Python [int] is a [Z].
    - A Python [dict] is an association list in insertion order; assignment
      [d[k] = v] replaces the value in place when the key is present and
      appends the pair otherwise ([dict_set]).
    - A call that may raise returns a [result]; the exception classes the
      code can raise are the constructors of [exn].
    - A generator is the list of the values it yields, in order; where
      the exception that can end it matters, a [trace].
    - Of the interpreter's resource limits, the digit limit of [int] is a
      field of [Interpreter], and the recursion limit is the argument
      [depth] of [gen_dict_extract_in]; memory is not modelled. *)

From Stdlib Require Import List ZArith NArith Lia Bool String Ascii.
From Stdlib Require Import Sorting.Permutation Sorting.Sorted.
Import ListNotations.
Open Scope Z_scope.

Set Implicit Arguments.

(* ================================================================== *)
(** * Python values *)
(* ================================================================== *)

(** A [str]: its code points. *)
Definition pystr : Type := list N.

(** The [str] of an ASCII literal of the source. *)
Definition lit (s : string) : pystr :=
  List.map N_of_ascii (list_ascii_of_string s).

Fixpoint str_eqb (a b : pystr) : bool :=
  match a, b with
  | [], [] => true
  | x :: a', y :: b' => N.eqb x y && str_eqb a' b'
  | _, _ => false
  end.

(** [a.startswith(p)] *)
Fixpoint starts_with (p a : pystr) : bool :=
  match p, a with
  | [], _ => true
  | x :: p', y :: a' => N.eqb x y && starts_with p' a'
  | _ :: _, [] => false
  end.

(** [p in a] for two strings: [p] occurs in [a] as a substring. *)
Fixpoint str_contains (p a : pystr) : bool :=
  starts_with p a ||
  match a with
  | [] => false
  | _ :: a' => str_contains p a'
  end.

(** Keys of a [dict]: Python's [__eq__]/[__hash__] protocol, as a decidable
    equality. *)
Class Hashable (K : Type) : Type := {
  key_eqb : K -> K -> bool;
  key_eqb_spec : forall a b : K, reflect (a = b) (key_eqb a b)
}.

Lemma str_eqb_spec (a b : pystr) : reflect (a = b) (str_eqb a b).
Proof.
  revert b; induction a as [|x a IH]; intros [|y b]; simpl;
    try (constructor; congruence).
  destruct (N.eqb_spec x y) as [->|Hxy]; simpl.
  - destruct (IH b) as [->|Hab]; constructor; congruence.
  - constructor; congruence.
Qed.

#[export] Instance pystr_hashable : Hashable pystr :=
  {| key_eqb := str_eqb; key_eqb_spec := str_eqb_spec |}.

(** ** Exceptions *)

Inductive exn : Type :=
| ValueError (msg : pystr)
| TypeError
| KeyError
| IndexError
| AttributeError
| RecursionError.

Inductive result (A : Type) : Type :=
| Ok (a : A)
| Raise (e : exn).

Arguments Ok {A} a.
Arguments Raise {A} e.

Definition bind {A B : Type} (m : result A) (f : A -> result B) : result B :=
  match m with
  | Ok a => f a
  | Raise e => Raise e
  end.

Notation "x <- m ;; k" := (bind m (fun x => k))
  (at level 61, m at next level, right associativity).

(** ** Dictionaries *)

Section Dict.
Context {K V : Type} `{Hashable K}.

Definition dict : Type := list (K * V).

(** [d.get(k)] *)
Fixpoint dict_get (k : K) (d : dict) : option V :=
  match d with
  | [] => None
  | (k', v) :: tl => if key_eqb k' k then Some v else dict_get k tl
  end.

(** [k in d] *)
Definition dict_mem (k : K) (d : dict) : bool :=
  match dict_get k d with
  | Some _ => true
  | None => false
  end.

(** [d[k]] *)
Definition dict_item (k : K) (d : dict) : result V :=
  match dict_get k d with
  | Some v => Ok v
  | None => Raise KeyError
  end.

(** [d[k] = v] *)
Fixpoint dict_set (k : K) (v : V) (d : dict) : dict :=
  match d with
  | [] => [(k, v)]
  | (k', v') :: tl =>
      if key_eqb k' k then (k', v) :: tl else (k', v') :: dict_set k v tl
  end.

(** [d.keys()], [d.values()] *)
Definition dict_keys (d : dict) : list K := List.map fst d.
Definition dict_values (d : dict) : list V := List.map snd d.
End Dict.

Arguments dict : clear implicits.

(** ** Deserialized JSON *)

(** What [json.loads] returns: [None], [bool], [int], [float], [str],
    [list] and [dict] with [str] keys.  A float is carried as its binary64
    bit pattern; the code never inspects one. *)
#[local] Unset Elimination Schemes.

Inductive json : Type :=
| JNull
| JBool (b : bool)
| JInt (n : Z)
| JFloat (bits : Z)
| JStr (s : pystr)
| JList (elems : list json)
| JDict (items : list (pystr * json)).

#[local] Set Elimination Schemes.

(* ================================================================== *)
(** * [gen_dict_extract] *)
(* ================================================================== *)

(** The generator, as the list of the values it yields.
    [hasattr(var, "items")] holds of a [dict] only; a [dict] value is
    traversed by the recursive call, a [list] value element by element, each
    element again through the [hasattr] test. *)
Fixpoint gen_dict_extract (key : pystr) (var : json) : list json :=
  match var with
  | JDict items =>
      (fix for_items (l : list (pystr * json)) : list json :=
         match l with
         | [] => []
         | (k, v) :: tl =>
             (if str_eqb k key then [v] else [])
               ++ match v with
                  | JDict _ => gen_dict_extract key v
                  | JList ds =>
                      (fix for_elems (l : list json) : list json :=
                         match l with
                         | [] => []
                         | d :: tl' => gen_dict_extract key d ++ for_elems tl'
                         end) ds
                  | _ => []
                  end
               ++ for_items tl
         end) items
  | _ => []
  end.

(** What one iteration of the loop yields after the test [k == key]: the
    part coming from the value [v]. *)
Definition yields_below (key : pystr) (v : json) : list json :=
  match v with
  | JDict _ => gen_dict_extract key v
  | JList ds => flat_map (gen_dict_extract key) ds
  | _ => []
  end.

(** The three kinds of value of the specification: mapping, sequence,
    scalar. *)
Definition is_mapping (v : json) : bool :=
  match v with
  | JDict _ => true
  | _ => false
  end.

Definition is_scalar (v : json) : bool :=
  match v with
  | JList _ | JDict _ => false
  | _ => true
  end.

(** The extractor as the specification words it: at a mapping node every
    pair whose key is the target yields its value; a mapping value is
    entered, a sequence value is entered at each element that is itself a
    mapping, a scalar never. *)
Fixpoint extractAll (key : pystr) (tree : json) : list json :=
  match tree with
  | JDict items =>
      flat_map
        (fun kv : pystr * json =>
           let (k, v) := kv in
           (if str_eqb key k then [v] else [])
             ++ match v with
                | JDict _ => extractAll key v
                | JList elems =>
                    flat_map
                      (fun e => if is_mapping e then extractAll key e else [])
                      elems
                | _ => []
                end)
        items
  | _ => []
  end.

(** [Found key tree v]: [v] stands under a pair of key [key] in a mapping
    that the traversal reaches from [tree]: the root mapping, a mapping that
    is the value of a pair of a reached mapping, or a mapping that is an
    element of a sequence that is such a value. *)
Inductive Found (key : pystr) : json -> json -> Prop :=
| Found_here items v :
    In (key, v) items -> Found key (JDict items) v
| Found_in_mapping items k sub v :
    In (k, JDict sub) items -> Found key (JDict sub) v ->
    Found key (JDict items) v
| Found_in_sequence items k elems sub v :
    In (k, JList elems) items -> In (JDict sub) elems ->
    Found key (JDict sub) v ->
    Found key (JDict items) v.

(** [key] is the key of some pair of some mapping of the tree, at any
    depth. *)
Fixpoint has_key (key : pystr) (tree : json) : bool :=
  match tree with
  | JDict items =>
      existsb (fun kv : pystr * json =>
                 let (k, v) := kv in str_eqb k key || has_key key v) items
  | JList elems => existsb (has_key key) elems
  | _ => false
  end.

(** Number of nodes of a tree. *)
Fixpoint json_size (tree : json) : nat :=
  match tree with
  | JDict items =>
      S (list_sum (List.map (fun kv : pystr * json =>
                               let (_, v) := kv in json_size v) items))
  | JList elems => S (list_sum (List.map json_size elems))
  | _ => 1%nat
  end.

(** The tree of the specification's example:
    [{"k": 1, "a": {"k": 2}, "b": [{"k": 3}, {"x": 4}]}]. *)
Definition example_tree : json :=
  JDict [ (lit "k", JInt 1);
          (lit "a", JDict [(lit "k", JInt 2)]);
          (lit "b", JList [JDict [(lit "k", JInt 3)];
                           JDict [(lit "x", JInt 4)]]) ].

(** ** The traversal under the recursion limit *)

(** A run of a generator: the values it yields, in order, and the exception
    that ends it, if one does. *)
Definition trace : Type := (list json * option exn)%type.

(** A part of a body and what follows it: after an exception nothing
    follows. *)
Definition and_then (part rest_of : trace) : trace :=
  match snd part with
  | Some _ => part
  | None => (fst part ++ fst rest_of, snd rest_of)
  end.

(** [for x in l: ...], the body yielding as [body x] runs. *)
Fixpoint for_yield {X : Type} (body : X -> trace) (l : list X) : trace :=
  match l with
  | [] => ([], None)
  | x :: tl => and_then (body x) (for_yield body tl)
  end.

(** An operation that may raise, inside a generator. *)
Definition run {X : Type} (m : result X) (k : X -> trace) : trace :=
  match m with
  | Ok x => k x
  | Raise e => ([], Some e)
  end.

(** [var.items()]: a method of a [dict] only. *)
Definition py_items (var : json) : result (list (pystr * json)) :=
  match var with
  | JDict items => Ok items
  | _ => Raise AttributeError
  end.

(** [isinstance(v, list)] *)
Definition is_list (v : json) : bool :=
  match v with
  | JList _ => true
  | _ => false
  end.

(** [for d in v]: the elements of a [list], the characters of a [str], the
    keys of a [dict]; any other value is not iterable. *)
Definition py_iter (v : json) : result (list json) :=
  match v with
  | JList ds => Ok ds
  | JStr s => Ok (List.map (fun c => JStr [c]) s)
  | JDict items => Ok (List.map (fun kv : pystr * json => JStr (fst kv)) items)
  | _ => Raise TypeError
  end.

(** The generator with the call stack of the interpreter and the operations
    that can fail made explicit.  [depth] is the number of calls of the
    function that can be nested where the traversal starts, as the recursion
    limit ([sys.getrecursionlimit()], 1000 unless it was set) and the calls
    already on the stack leave it; only the calls of the function itself are
    counted, the builtins it calls are taken to fit.  A generator that
    yields from another one holds its call while the other runs, and a call
    beyond the limit raises [RecursionError] where it is made, after the
    values yielded so far. *)
Fixpoint gen_dict_extract_in (depth : nat) (key : pystr) (var : json) : trace :=
  match depth with
  | O => ([], Some RecursionError)
  | S depth' =>
      if is_mapping var then
        run (py_items var)
          (for_yield
             (fun kv : pystr * json =>
                let (k, v) := kv in
                and_then (if str_eqb k key then [v] else [], None)
                  (if is_mapping v then gen_dict_extract_in depth' key v
                   else if is_list v then
                     run (py_iter v) (for_yield (gen_dict_extract_in depth' key))
                   else ([], None))))
      else ([], None)
  end.

(** The calls of the function that a traversal holds at once, at most: one
    for the value itself, and below a mapping those of its mapping values
    and of the elements of its sequence values. *)
Fixpoint frames (var : json) : nat :=
  match var with
  | JDict items =>
      S (list_max
           (List.map (fun kv : pystr * json =>
                        let (_, v) := kv in
                        match v with
                        | JDict _ => frames v
                        | JList ds => list_max (List.map frames ds)
                        | _ => 0%nat
                        end) items))
  | _ => 1%nat
  end.

(** A mapping in a mapping, [n] times: [{"a": {"a": ... {} ...}}]. *)
Fixpoint nested (n : nat) : json :=
  match n with
  | O => JDict []
  | S n' => JDict [(lit "a", nested n')]
  end.

(* ================================================================== *)
(** * Regular expressions, as [re] matches them *)
(* ================================================================== *)

(** What the interpreter brings to [re] and [int].  The Unicode character
    database they consult beyond ASCII: the value of a code point of
    category Nd, and whether a code point is alphanumeric ([str.isalnum]);
    ASCII code points are classified by the definitions below and never
    looked up here.  And [sys.get_int_max_str_digits()], the most digits
    [int] converts from a string: 4300 unless it was set, 0 for no limit. *)
Class Interpreter : Type := {
  nonascii_decimal : N -> option Z;
  nonascii_alnum : N -> bool;
  nonascii_decimal_digit :
    forall c d, nonascii_decimal c = Some d -> 0 <= d <= 9;
  int_max_str_digits : Z
}.

(** An interpreter as it starts, with a database without digits or letters
    beyond ASCII. *)
Program Instance ascii_interpreter : Interpreter :=
  {| nonascii_decimal := fun _ => None; nonascii_alnum := fun _ => false;
     int_max_str_digits := 4300 |}.

Section Regex.
Context {U : Interpreter}.

Definition in_range (lo hi c : N) : bool := ((lo <=? c) && (c <=? hi))%N.

(** The decimal value of a digit character, as [int] reads it. *)
Definition decimal_value (c : N) : option Z :=
  if (c <? 128)%N
  then if in_range 48 57 c then Some (Z.of_N c - 48) else None
  else nonascii_decimal c.

(** [\d] of a [str] pattern: a decimal digit of any script. *)
Definition is_digit (c : N) : bool :=
  match decimal_value c with
  | Some _ => true
  | None => false
  end.

(** [\w] of a [str] pattern: alphanumeric or the underscore. *)
Definition is_word (c : N) : bool :=
  if (c <? 128)%N
  then in_range 48 57 c || in_range 65 90 c || in_range 97 122 c || (c =? 95)%N
  else nonascii_alnum c.

(** The fragment of the pattern language the code and [strptime] use. *)
Inductive regex : Type :=
| Eps
| Chr (c : N)
| Cls (p : N -> bool)
| Seq (r1 r2 : regex)
| Alt (r1 r2 : regex)
| Plus (p : N -> bool)
| Group (r : regex).

(** A literal string. *)
Fixpoint Str (s : pystr) : regex :=
  match s with
  | [] => Eps
  | c :: t => Seq (Chr c) (Str t)
  end.

(** A successful match: the captured groups, in order, and the input that
    follows the match. *)
Record match_object : Type := MatchObject {
  groups : list pystr;
  rest : pystr
}.

(** [m[i]] for [i >= 1]. *)
Definition group (m : match_object) (i : nat) : pystr :=
  nth (i - 1) (groups m) [].

(** Greedy repetition of a class with backtracking: the longest run first,
    then shorter ones, until the continuation succeeds. *)
Fixpoint star_class (p : N -> bool) (s : pystr)
  (k : pystr -> option match_object) : option match_object :=
  match s with
  | c :: t =>
      if p c
      then match star_class p t k with
           | Some m => Some m
           | None => k s
           end
      else k s
  | [] => k []
  end.

(** The backtracking matcher, in continuation-passing style: alternatives
    are tried left to right, and a group records the input it consumed. *)
Fixpoint re_run (r : regex) (s : pystr) (caps : list pystr)
  (k : pystr -> list pystr -> option match_object) : option match_object :=
  match r with
  | Eps => k s caps
  | Chr c =>
      match s with
      | x :: t => if N.eqb x c then k t caps else None
      | [] => None
      end
  | Cls p =>
      match s with
      | x :: t => if p x then k t caps else None
      | [] => None
      end
  | Seq r1 r2 => re_run r1 s caps (fun s1 caps1 => re_run r2 s1 caps1 k)
  | Alt r1 r2 =>
      match re_run r1 s caps k with
      | Some m => Some m
      | None => re_run r2 s caps k
      end
  | Plus p =>
      match s with
      | x :: t => if p x then star_class p t (fun s1 => k s1 caps) else None
      | [] => None
      end
  | Group r1 =>
      re_run r1 s caps
        (fun s1 caps1 =>
           k s1 (caps1 ++ [firstn (List.length s - List.length s1) s]))
  end.

(** [re.match(r, s)]: a match anchored at the start of [s]. *)
Definition re_match (r : regex) (s : pystr) : option match_object :=
  re_run r s [] (fun s1 caps1 => Some (MatchObject caps1 s1)).

(** ** [int] on the strings the code converts *)

Fixpoint digits_value (acc : Z) (s : pystr) : result Z :=
  match s with
  | [] => Ok acc
  | c :: t =>
      match decimal_value c with
      | Some d => digits_value (10 * acc + d) t
      | None => Raise (ValueError (lit "invalid literal for int()"))
      end
  end.

Fixpoint lstrip_blank (s : pystr) : pystr :=
  match s with
  | c :: t => if N.eqb c 32 then lstrip_blank t else s
  | [] => []
  end.

(** The digits [int] counts before it converts: the run of decimal digits
    the text starts with, leading zeros included. *)
Fixpoint leading_digits (s : pystr) : Z :=
  match s with
  | c :: t =>
      match decimal_value c with
      | Some _ => 1 + leading_digits t
      | None => 0
      end
  | [] => 0
  end.

(** The limit on the conversion: a text of more than 640 digits
    ([sys.int_info.str_digits_check_threshold]) is refused when a limit is
    set and the text has more digits than it. *)
Definition exceeds_digit_limit (digits : Z) : bool :=
  (640 <? digits) && (0 <? int_max_str_digits) && (int_max_str_digits <? digits).

(** [int(s)] for a string of digits after optional blanks (the only
    strings the code and [strptime] pass: captures of [\d+] and of the day
    field, whose last alternative starts with a blank).  Signs, underscores
    and trailing blanks, which [int] also accepts, never occur there and are
    refused here.  The digits are counted against the limit before they are
    converted. *)
Definition py_int (s : pystr) : result Z :=
  match lstrip_blank s with
  | [] => Raise (ValueError (lit "invalid literal for int()"))
  | ds =>
      if exceeds_digit_limit (leading_digits ds)
      then Raise (ValueError (lit "Exceeds the limit for integer string conversion"))
      else digits_value 0 ds
  end.

(* ================================================================== *)
(** * Dates, as [datetime] computes them *)
(* ================================================================== *)

Definition is_leap (year : Z) : bool :=
  (year mod 4 =? 0) && (negb (year mod 100 =? 0) || (year mod 400 =? 0)).

Definition days_in_month (year month : Z) : Z :=
  match month with
  | 2 => if is_leap year then 29 else 28
  | 4 | 6 | 9 | 11 => 30
  | _ => 31
  end.

(** Days of the year before the first of [month]. *)
Definition days_before_month (year month : Z) : Z :=
  match month with
  | 1 => 0 | 2 => 31 | 3 => 59 | 4 => 90 | 5 => 120 | 6 => 151
  | 7 => 181 | 8 => 212 | 9 => 243 | 10 => 273 | 11 => 304 | _ => 334
  end + (if (2 <? month) && is_leap year then 1 else 0).

(** Days before the first of January of [year]. *)
Definition days_before_year (year : Z) : Z :=
  let y := year - 1 in y * 365 + y / 4 - y / 100 + y / 400.

(** [date(year, month, day).toordinal()]: 1 for 0001-01-01. *)
Definition ymd2ord (ymd : Z * Z * Z) : Z :=
  let '(year, month, day) := ymd in
  days_before_year year + days_before_month year month + day.

Definition day_us : Z := 86400 * 1000000.

(** A naive [datetime] as the microseconds since 0001-01-01T00:00:00; the
    value of midnight of a date. *)
Definition datetime_us (ymd : Z * Z * Z) : Z := (ymd2ord ymd - 1) * day_us.

(** [now.toordinal()] of a [datetime] given in microseconds. *)
Definition today_ordinal (now : Z) : Z := now / day_us + 1.

(** [(a - b).days]: a [timedelta] is normalized with its seconds and
    microseconds non-negative, so [days] is the floor. *)
Definition timedelta_days (a b : Z) : Z := (a - b) / day_us.

(** The pattern [_strptime] compiles for the format ["%d.%m.%Y"]:
    [(3[0-1]|[1-2]\d|0[1-9]|[1-9]| [1-9])\.(1[0-2]|0[1-9]|[1-9])\.(\d\d\d\d)].
    (The [IGNORECASE] flag it sets changes nothing for digits and dots.) *)
Definition directive_d : regex :=
  Group (Alt (Seq (Chr 51) (Cls (in_range 48 49)))
        (Alt (Seq (Cls (in_range 49 50)) (Cls is_digit))
        (Alt (Seq (Chr 48) (Cls (in_range 49 57)))
        (Alt (Cls (in_range 49 57))
             (Seq (Chr 32) (Cls (in_range 49 57))))))).

Definition directive_m : regex :=
  Group (Alt (Seq (Chr 49) (Cls (in_range 48 50)))
        (Alt (Seq (Chr 48) (Cls (in_range 49 57)))
             (Cls (in_range 49 57)))).

Definition directive_Y : regex :=
  Group (Seq (Cls is_digit)
        (Seq (Cls is_digit) (Seq (Cls is_digit) (Cls is_digit)))).

Definition format_dmY : regex :=
  Seq directive_d (Seq (Chr 46) (Seq directive_m (Seq (Chr 46) directive_Y))).

(** [datetime.strptime(s, "%d.%m.%Y")], as the date it denotes: the whole
    string must match, and the date must exist ([MINYEAR] is 1). *)
Definition strptime_dmY (s : pystr) : result (Z * Z * Z) :=
  match re_match format_dmY s with
  | None => Raise (ValueError (lit "time data does not match format"))
  | Some m =>
      match rest m with
      | _ :: _ => Raise (ValueError (lit "unconverted data remains"))
      | [] =>
          day <- py_int (group m 1) ;;
          month <- py_int (group m 2) ;;
          year <- py_int (group m 3) ;;
          if (1 <=? year) && (day <=? days_in_month year month)
          then Ok (year, month, day)
          else Raise (ValueError (lit "date value out of range"))
      end
  end.

(* ================================================================== *)
(** * [age_to_seconds] *)
(* ================================================================== *)

(** The pattern [vor (\d+) (\w+)]. *)
Definition age_pattern : regex :=
  Seq (Str (lit "vor "))
      (Seq (Group (Plus is_digit)) (Seq (Chr 32) (Group (Plus is_word)))).

(** The message of the [ValueError] the code raises:
    [f'Age format not recognized: "{age_str}"']. *)
Definition not_recognized (age_str : pystr) : pystr :=
  lit "Age format not recognized: " ++ [34%N] ++ age_str ++ [34%N].

(** [now] is the value of [datetime.now()].  When [re.match] returns
    [None] the subscript [age_re[2]] raises [TypeError]. *)
Definition age_to_seconds (now : Z) (age_str : pystr) : result Z :=
  if str_contains (lit "vor") age_str then
    match re_match age_pattern age_str with
    | None => Raise TypeError
    | Some age_re =>
        if str_eqb (group age_re 2) (lit "Sekunde")
           || str_eqb (group age_re 2) (lit "Sekunden")
        then n <- py_int (group age_re 1) ;; Ok n
        else if str_eqb (group age_re 2) (lit "Minute")
                || str_eqb (group age_re 2) (lit "Minuten")
        then n <- py_int (group age_re 1) ;; Ok (60 * n)
        else if str_eqb (group age_re 2) (lit "Stunde")
                || str_eqb (group age_re 2) (lit "Stunden")
        then n <- py_int (group age_re 1) ;; Ok (60 * 60 * n)
        else if str_eqb (group age_re 2) (lit "Tag")
                || str_eqb (group age_re 2) (lit "Tagen")
        then n <- py_int (group age_re 1) ;; Ok (24 * 60 * 60 * n)
        else if str_eqb (group age_re 2) (lit "Woche")
                || str_eqb (group age_re 2) (lit "Wochen")
        then n <- py_int (group age_re 1) ;; Ok (7 * 24 * 60 * 60 * n)
        else if str_eqb (group age_re 2) (lit "Monat")
                || str_eqb (group age_re 2) (lit "Monaten")
        then n <- py_int (group age_re 1) ;; Ok (30 * 24 * 60 * 60 * n)
        else if str_eqb (group age_re 2) (lit "Jahr")
                || str_eqb (group age_re 2) (lit "Jahren")
        then n <- py_int (group age_re 1) ;; Ok (30 * 24 * 60 * 60 * 12 * n)
        else Raise (ValueError (not_recognized age_str))
    end
  else
    parsed <- strptime_dmY age_str ;;
    Ok (24 * 60 * 60 * timedelta_days now (datetime_us parsed)).

(** The specification's table: the unit words, singular and plural, with the
    seconds each stands for (a month is 30 days, a year 12 months). *)
Definition unit_table : dict pystr Z :=
  [ (lit "Sekunde", 1); (lit "Sekunden", 1);
    (lit "Minute", 60); (lit "Minuten", 60);
    (lit "Stunde", 3600); (lit "Stunden", 3600);
    (lit "Tag", 86400); (lit "Tagen", 86400);
    (lit "Woche", 604800); (lit "Wochen", 604800);
    (lit "Monat", 2592000); (lit "Monaten", 2592000);
    (lit "Jahr", 31104000); (lit "Jahren", 31104000) ].

Definition unit_seconds (unit : pystr) : option Z := dict_get unit unit_table.

End Regex.

(* ================================================================== *)
(** * [trim_results] *)
(* ================================================================== *)

(** What [trim_results] prints: the two counts, and the length per topic. *)
Inductive printed : Type :=
| OldResultCount (count : Z)
| NewResultCount (count length_per_topic : Z).

Section Trim.
Context {A : Type}.

(** [len(res)] *)
Definition len (res : list A) : Z := Z.of_nat (List.length res).

(** The slice [res[:n]]: a negative bound counts from the end, and a bound
    outside the list is clamped. *)
Definition slice_to (n : Z) (res : list A) : list A :=
  if n <? 0
  then firstn (Z.to_nat (len res + n)) res
  else firstn (Z.to_nat n) res.

(** The first loop: the total count, and the running minimum kept in
    [max_length]. *)
Definition shortest_loop (results : dict pystr (list A)) (count max_length : Z)
  : Z * Z :=
  fold_left
    (fun (st : Z * Z) (item : pystr * list A) =>
       let (count, max_length) := st in
       let (_, res) := item in
       let new_length := len res in
       (count + new_length,
        if new_length <? max_length then new_length else max_length))
    results (count, max_length).

(** The second loop: [new_results[topic] = res[:max_length]]. *)
Definition slice_loop (results : dict pystr (list A)) (max_length : Z)
  : Z * dict pystr (list A) :=
  fold_left
    (fun (st : Z * dict pystr (list A)) (item : pystr * list A) =>
       let (count, new_results) := st in
       let (topic, res) := item in
       (count + max_length, dict_set topic (slice_to max_length res) new_results))
    results (0, []).

Definition trim_results (results : dict pystr (list A)) (max_length : Z)
  : (dict pystr (list A) * Z) * list printed :=
  let (count, max_length) := shortest_loop results 0 max_length in
  let (count', new_results) := slice_loop results max_length in
  ((new_results, max_length),
   [OldResultCount count; NewResultCount count' max_length]).

(** The default of the parameter. *)
Definition default_max_length : Z := 9999999.

(** The specification's natural minimum: the least length among the
    sequences of a non-empty mapping. *)
Definition natural_minimum (results : dict pystr (list A)) : option Z :=
  match results with
  | [] => None
  | (_, res) :: tl =>
      Some (fold_right (fun item m => Z.min (len (snd item)) m) (len res) tl)
  end.

End Trim.

(* ================================================================== *)
(** * [analyze_sources] *)
(* ================================================================== *)

(** A [for] loop whose body may raise. *)
Fixpoint for_each {S X : Type} (body : S -> X -> result S) (xs : list X) (s : S)
  : result S :=
  match xs with
  | [] => Ok s
  | x :: tl => s' <- body s x ;; for_each body tl s'
  end.

(** [sorted(items, key=..., reverse=True)] on items already paired with
    their keys: Python's sort is stable, also when reversed, so items of
    equal key keep their order.  An item is put before the first item of the
    sorted rest whose key is not greater. *)
Fixpoint insert_desc {X : Type} (x : Z * X) (l : list (Z * X)) : list (Z * X) :=
  match l with
  | [] => [x]
  | y :: tl => if fst x <? fst y then y :: insert_desc x tl else x :: y :: tl
  end.

Definition sorted_desc {X : Type} (l : list (Z * X)) : list (Z * X) :=
  fold_right insert_desc [] l.

Section Analyze.
Context {Page K : Type} `{Hashable K}.

(** [page["source"]] *)
Variable source : Page -> K.

Definition total_key : pystr := lit "total".

(** The keys of a dictionary built by assigning the elements of [l] in
    turn: each element once, at its first place. *)
Definition first_seen {X : Type} `{Hashable X} (l : list X) : list X :=
  fold_left
    (fun seen x => if existsb (fun y => key_eqb y x) seen then seen else seen ++ [x])
    l [].

(** [sources[page["source"]] = {}] followed by the loop that sets every
    topic to 0. *)
Definition zero_counts (topics : list pystr) : dict pystr Z :=
  fold_left (fun counts topic => dict_set topic 0 counts) topics [].

(** The body of the inner loop, for one page of [page_topic]. *)
Definition count_page (topics : list pystr) (page_topic : pystr)
  (sources : dict K (dict pystr Z)) (page : Page)
  : result (dict K (dict pystr Z)) :=
  let sources :=
    if dict_mem (source page) sources
    then sources
    else dict_set (source page) (zero_counts topics) sources in
  counts <- dict_item (source page) sources ;;
  n <- dict_item page_topic counts ;;
  Ok (dict_set (source page) (dict_set page_topic (n + 1) counts) sources).

(** The two nested loops over [results.items()] and the pages. *)
Definition count_loop (topics : list pystr) (results : dict pystr (list Page))
  : result (dict K (dict pystr Z)) :=
  for_each
    (fun sources (item : pystr * list Page) =>
       let (page_topic, pages) := item in
       for_each (count_page topics page_topic) pages sources)
    results [].

(** The loop that sums the counts of a source and stores the sum under
    ["total"]: the dictionary a pair of [sources.items()] holds is the one
    [sources[source]] denotes, so the assignment updates it in place. *)
Definition with_total (source_topics : dict pystr Z) : dict pystr Z :=
  dict_set total_key (fold_left Z.add (dict_values source_topics) 0) source_topics.

Definition add_totals (sources : dict K (dict pystr Z)) : dict K (dict pystr Z) :=
  List.map (fun item => (fst item, with_total (snd item))) sources.

(** The sort key [i[1]["total"]], computed for every item before sorting. *)
Fixpoint sort_keys (items : dict K (dict pystr Z))
  : result (list (Z * (K * dict pystr Z))) :=
  match items with
  | [] => Ok []
  | item :: tl =>
      total <- dict_item total_key (snd item) ;;
      keyed <- sort_keys tl ;;
      Ok ((total, item) :: keyed)
  end.

(** [OrderedDict(pairs)] *)
Definition ordered_dict (pairs : list (K * dict pystr Z)) : dict K (dict pystr Z) :=
  fold_left (fun d (item : K * dict pystr Z) => dict_set (fst item) (snd item) d)
    pairs [].

Definition analyze_sources (results : dict pystr (list Page)) (topics : list pystr)
  : result (dict K (dict pystr Z)) :=
  sources <- count_loop topics results ;;
  let sources := add_totals sources in
  keyed <- sort_keys sources ;;
  Ok (ordered_dict (List.map snd (sorted_desc keyed))).

(** ** What the specification counts *)

(** The records of a result mapping in the order the loops visit them, each
    as its query and its source. *)
Definition records (results : dict pystr (list Page)) : list (pystr * K) :=
  flat_map (fun item : pystr * list Page =>
              List.map (fun page => (fst item, source page)) (snd item))
    results.

(** How many of the records stand under [topic] with source [src]. *)
Fixpoint appearances (recs : list (pystr * K)) (topic : pystr) (src : K) : Z :=
  match recs with
  | [] => 0
  | (t, s) :: tl =>
      (if str_eqb t topic && key_eqb s src then 1 else 0) + appearances tl topic src
  end.

(** How many of the records have source [src]. *)
Fixpoint results_of (recs : list (pystr * K)) (src : K) : Z :=
  match recs with
  | [] => 0
  | (_, s) :: tl => (if key_eqb s src then 1 else 0) + results_of tl src
  end.

(** The value stored under ["total"] in an entry of the breakdown. *)
Definition total_of (entry : K * dict pystr Z) : Z :=
  match dict_get total_key (snd entry) with
  | Some total => total
  | None => 0
  end.

End Analyze.

(* ================================================================== *)
(** * [YTScraper.search], from the parsed page on *)
(* ================================================================== *)

(** ** Membership and subscripts on deserialized JSON *)

(** [needle in v] for a string [needle]: a key of a [dict], an element of a
    [list], a substring of a [str]; any other value is not iterable. *)
Definition py_in (needle : pystr) (v : json) : result bool :=
  match v with
  | JDict items => Ok (dict_mem needle items)
  | JList elems =>
      Ok (existsb (fun e => match e with
                            | JStr s => str_eqb s needle
                            | _ => false
                            end) elems)
  | JStr s => Ok (str_contains needle s)
  | _ => Raise TypeError
  end.

(** [v[key]] for a string [key]: defined on a [dict] only. *)
Definition getitem (v : json) (key : pystr) : result json :=
  match v with
  | JDict items => dict_item key items
  | _ => Raise TypeError
  end.

(** [v[0]]: the first element of a [list], the first character of a [str];
    a [dict] of string keys has no key [0]. *)
Definition getitem_0 (v : json) : result json :=
  match v with
  | JList (e :: _) => Ok e
  | JStr (c :: _) => Ok (JStr [c])
  | JList [] | JStr [] => Raise IndexError
  | JDict _ => Raise KeyError
  | _ => Raise TypeError
  end.

(** One result of a search, as the dictionary [search] appends: [date]
    stands for the formatted time of the call, [url] holds the video
    identifier. *)
Record result_record : Type := ResultRecord {
  date : Z;
  page : Z;
  age : pystr;
  age_sec : Z;
  source_name : json;
  title : json;
  url : json;
  length : json
}.

(** The counters of a scraper that [search] updates. *)
Record YTScraper : Type := Scraper {
  pages_total : Z;
  results_total : Z
}.

Section Search.
Context {U : Interpreter}.

(** [age_to_seconds] on a value of the page: on anything but a [str] the
    test ["vor" in age_str], [re.match] or [strptime] raises [TypeError]. *)
Definition age_of (now : Z) (age_str : json) : result (pystr * Z) :=
  match age_str with
  | JStr s => n <- age_to_seconds now s ;; Ok (s, n)
  | _ => Raise TypeError
  end.

(** [video_renderer["thumbnailOverlays"][0]] *)
Definition first_overlay (video_renderer : json) : result json :=
  overlays <- getitem video_renderer (lit "thumbnailOverlays") ;;
  getitem_0 overlays.

(** [overlay["thumbnailOverlayTimeStatusRenderer"]["text"]["simpleText"]] *)
Definition overlay_text (overlay : json) : result json :=
  status <- getitem overlay (lit "thumbnailOverlayTimeStatusRenderer") ;;
  text <- getitem status (lit "text") ;;
  getitem text (lit "simpleText").

(** [v[field]["runs"][0]["text"]] *)
Definition first_run_text (v : json) (field : pystr) : result json :=
  text <- getitem v field ;;
  runs <- getitem text (lit "runs") ;;
  run <- getitem_0 runs ;;
  getitem run (lit "text").

(** The body of the loop for one candidate: [None] when the candidate is
    passed over, the record otherwise.  [now] is the value of the clock
    during the call. *)
Definition video_result (now : Z) (video_renderer : json)
  : result (option result_record) :=
  published <- py_in (lit "publishedTimeText") video_renderer ;;
  if published : bool then
    overlay <- first_overlay video_renderer ;;
    timed <- py_in (lit "thumbnailOverlayTimeStatusRenderer") overlay ;;
    length <- (if timed : bool
               then overlay' <- first_overlay video_renderer ;;
                    overlay_text overlay'
               else Ok (JStr (lit "LIVE"))) ;;
    time_text <- getitem video_renderer (lit "publishedTimeText") ;;
    age_str <- getitem time_text (lit "simpleText") ;;
    aged <- age_of now age_str ;;
    owner <- first_run_text video_renderer (lit "ownerText") ;;
    title <- first_run_text video_renderer (lit "title") ;;
    video_id <- getitem video_renderer (lit "videoId") ;;
    Ok (Some (ResultRecord now 1 (fst aged) (snd aged) owner title video_id length))
  else Ok None.

(** The body of the loop of [search]: the record is appended and counted. *)
Definition search_step (now : Z) (st : list result_record * YTScraper)
  (video_renderer : json) : result (list result_record * YTScraper) :=
  let (results, self) := st in
  found <- video_result now video_renderer ;;
  match found with
  | Some record =>
      Ok (results ++ [record],
          Scraper (pages_total self) (results_total self + 1))
  | None => Ok (results, self)
  end.

(** [search], given the tree [json.loads] returned for the page (the
    request and the extraction of the embedded data from the markup are the
    caller's). *)
Definition search (now : Z) (self : YTScraper) (initial_data : json)
  : result (list result_record * YTScraper) :=
  for_each (search_step now)
    (gen_dict_extract (lit "videoRenderer") initial_data)
    ([], Scraper (pages_total self + 1) (results_total self)).

(** The records of the candidates that are not passed over, in order. *)
Definition emitted (now : Z) (candidates : list json) : list result_record :=
  flat_map (fun candidate =>
              match video_result now candidate with
              | Ok (Some record) => [record]
              | _ => []
              end) candidates.

(** A video entry as the page data holds it, with or without the
    time-status overlay. *)
Definition video_entry (video_id owner title published : pystr)
  (duration : option pystr) : json :=
  JDict
    [ (lit "videoId", JStr video_id);
      (lit "title", JDict [(lit "runs", JList [JDict [(lit "text", JStr title)]])]);
      (lit "publishedTimeText", JDict [(lit "simpleText", JStr published)]);
      (lit "ownerText",
        JDict [(lit "runs", JList [JDict [(lit "text", JStr owner)]])]);
      (lit "thumbnailOverlays",
        JList
          [ match duration with
            | Some text =>
                JDict [(lit "thumbnailOverlayTimeStatusRenderer",
                         JDict [(lit "text",
                                  JDict [(lit "simpleText", JStr text)])])]
            | None =>
                JDict [(lit "thumbnailOverlayNowPlayingRenderer", JDict [])]
            end;
            JDict [(lit "thumbnailOverlayToggleButtonRenderer", JDict [])] ]) ].

(** A page with a channel card (no published time), a livestream and a
    video. *)
Definition example_page : json :=
  JDict
    [ (lit "contents",
        JList
          [ JDict [(lit "videoRenderer",
                     JDict [(lit "videoId", JStr (lit "c0"));
                            (lit "title", JStr (lit "a channel"))])];
            JDict [(lit "videoRenderer",
                     video_entry (lit "v1") (lit "Kanal A") (lit "Jetzt live")
                       (lit "vor 2 Stunden") None)];
            JDict [(lit "shelf",
                     JDict [(lit "videoRenderer",
                              video_entry (lit "v2") (lit "Kanal B")
                                (lit "Ein Video") (lit "vor 3 Tagen")
                                (Some (lit "12:34")))])] ]) ].

End Search.

(* ================================================================== *)
(** * The rest of the program *)
(* ================================================================== *)

(** ** The three trims of the main program *)

(** [results1, l = trim_results(results1)], then
    [results2, l = trim_results(results2, l)], then
    [results1, l = trim_results(results1, l)]: the first mapping is trimmed
    again, in case the second one is shorter. *)
Definition main_trims {A : Type} (results1 results2 : dict pystr (list A))
  : dict pystr (list A) * dict pystr (list A) * Z :=
  let (results1, l) := fst (trim_results results1 default_max_length) in
  let (results2, l) := fst (trim_results results2 l) in
  let (results1, l) := fst (trim_results results1 l) in
  (results1, results2, l).

(** ** The embedded data of a page *)

(** [re.search(r, s)]: the first match, trying every start from the left. *)
Fixpoint re_search (r : regex) (s : pystr) : option match_object :=
  match re_match r s with
  | Some m => Some m
  | None =>
      match s with
      | [] => None
      | _ :: t => re_search r t
      end
  end.

(** [s.replace(old, new)] for a non-empty [old] (the code's are [";"] and
    ["\u"]): the occurrences are replaced from the left, without overlap;
    [skip] counts the characters of a replaced occurrence still to pass. *)
Fixpoint str_replace_from (old new : pystr) (skip : nat) (s : pystr) : pystr :=
  match s with
  | [] => []
  | c :: t =>
      match skip with
      | S k => str_replace_from old new k t
      | O =>
          if starts_with old s
          then new ++ str_replace_from old new (List.length old - 1) t
          else c :: str_replace_from old new 0 t
      end
  end.

Definition str_replace (old new s : pystr) : pystr := str_replace_from old new 0 s.

(** The pattern of [search]: the text [var ytInitialData = ] followed by
    one group, the longest run of characters other than [<].  The greedy
    star of the source is written as the alternative of the greedy plus and
    the empty match, which tries the same matches in the same order. *)
Definition initial_data_pattern : regex :=
  Seq (Str (lit "var ytInitialData = "))
      (Group (Alt (Plus (fun c => negb (N.eqb c 60))) Eps)).

(** The first lines of [search] after the request: the text of the
    assignment, without its semicolons and without the two characters
    [\u].  On a page without the assignment the subscript of the failed
    search raises [TypeError]. *)
Definition extract_initial_data (html : pystr) : result pystr :=
  match re_search initial_data_pattern html with
  | None => Raise TypeError
  | Some found =>
      Ok (str_replace (lit "\u") [] (str_replace (lit ";") [] (group found 1)))
  end.

Section Requests.
Context {U : Interpreter}.

(** The site and the JSON parser: [response n query] is the markup that
    the [n]-th request of this scraper, for [query], returns; [json_loads] is
    [json.loads]; [clock n] is the time during the [n]-th search. *)
Variable response : Z -> pystr -> pystr.
Variable json_loads : pystr -> result json.
Variable clock : Z -> Z.

(** [search(self, query)], whole. *)
Definition search_query (self : YTScraper) (query : pystr)
  : result (list result_record * YTScraper) :=
  let n := pages_total self + 1 in
  initial_data_json <- extract_initial_data (response n query) ;;
  initial_data <- json_loads initial_data_json ;;
  search (clock n) self initial_data.

(** The loop of [search_topics]: [results[topic] = self.search(topic)] for
    every topic of [self.topics], in order. *)
Definition search_topics (self : YTScraper) (topics : list pystr)
  : result (dict pystr (list result_record) * YTScraper) :=
  for_each
    (fun (st : dict pystr (list result_record) * YTScraper) topic =>
       let (results, self) := st in
       found <- search_query self topic ;;
       Ok (dict_set topic (fst found) results, snd found))
    topics ([], self).

End Requests.

(** ** The cookies of a scraper *)

(** [save_valid_cookie]: the cookies of the page as a dictionary from name
    to value, then the pairs of [overwrite], when it is given and not
    empty. *)
Definition save_valid_cookie (page_cookies : list (pystr * pystr))
  (overwrite : option (dict pystr pystr)) : dict pystr pystr :=
  let cookies_fresh :=
    fold_left (fun d (c : pystr * pystr) => dict_set (fst c) (snd c) d)
      page_cookies [] in
  match overwrite with
  | Some ((_ :: _) as pairs) =>
      fold_left (fun d (kv : pystr * pystr) => dict_set (fst kv) (snd kv) d)
        pairs cookies_fresh
  | _ => cookies_fresh
  end.

(** The defaults of a scraper. *)
Definition cookie_defaults : dict pystr pystr :=
  [(lit "PREF", lit "f6=40000000&tz=Europe.Berlin&hl=de&gl=DE")].

(** ** The files *)

(** A field of a row: a string, an integer, or another value that the
    writer prints; a file is its name and its rows. *)
Inductive cell (V : Type) : Type :=
| Text (s : pystr)
| Number (n : Z)
| Other (v : V).

Arguments Text {V} s.
Arguments Number {V} n.
Arguments Other {V} v.

Record csv_file (V : Type) : Type := CsvFile {
  file_name : pystr;
  rows : list (list (cell V))
}.

Arguments CsvFile {V} file_name rows.
Arguments file_name {V} c.
Arguments rows {V} c.

Section Csv.
Context {V : Type}.

(** [now.strftime("%Y-%m-%d-%H-%M-%S")] *)
Variable strftime : Z -> pystr.

(** [writer.writerow(row)] *)
Definition writerow (writer : csv_file V) (row : list (cell V)) : csv_file V :=
  CsvFile (file_name writer) (rows writer ++ [row]).

(** [create_csv]: the file is named after the time and [name]; a header
    that is absent or empty is not written. *)
Definition create_csv (now : Z) (name : pystr) (header : option (list (cell V)))
  : csv_file V :=
  let writer := CsvFile (strftime now ++ lit "-" ++ name ++ lit ".csv") [] in
  match header with
  | Some ((_ :: _) as row) => writerow writer row
  | _ => writer
  end.

Definition results_header : list (cell V) :=
  List.map (fun s => Text (lit s))
    [ "search term"; "date scraped"; "results page no"; "age as displayed";
      "age in seconds"; "source"; "title"; "url"; "length" ]%string.

(** [write_results_to_csv]: [values page] is [list(page.values())]. *)
Definition write_results_to_csv {Page : Type} (values : Page -> list (cell V))
  (now : Z) (results : dict pystr (list Page)) (name : pystr)
  : bool * csv_file V :=
  let writer := create_csv now name (Some results_header) in
  (true,
   fold_left
     (fun writer (item : pystr * list Page) =>
        let (topic, pages) := item in
        fold_left
          (fun writer page => writerow writer ([Text topic] ++ values page))
          pages writer)
     results writer).

(** [write_analysis_to_csv]: a row holds the source and
    [list(topics.values())]. *)
Definition write_analysis_to_csv (now : Z) (results : dict V (dict pystr Z))
  (topics : list pystr) (name : pystr) : bool * csv_file V :=
  let writer :=
    create_csv now name
      (Some ([Text (lit "source")] ++ List.map Text topics ++ [Text (lit "total")])) in
  (true,
   fold_left
     (fun writer (item : V * dict pystr Z) =>
        let (source, topics) := item in
        writerow writer ([Other source] ++ List.map Number (dict_values topics)))
     results writer).

End Csv.

(** [list(page.values())] for a record of [search]: the values in the order
    of the keys of its dictionary. *)
Definition record_values (strftime : Z -> pystr) (r : result_record)
  : list (cell json) :=
  [ Text (strftime (date r)); Number (page r); Text (age r); Number (age_sec r);
    Other (source_name r); Other (title r); Other (url r); Other (length r) ].

(* ================================================================== *)
(** * Properties of [gen_dict_extract] *)
(* ================================================================== *)

(** Structural induction over a tree, with the hypothesis available at
    every element of a sequence and every value of a mapping. *)
Definition json_tree_ind (P : json -> Prop)
  (Hscalar : forall v, is_scalar v = true -> P v)
  (Hlist : forall elems, Forall P elems -> P (JList elems))
  (Hdict : forall items, Forall (fun kv => P (snd kv)) items -> P (JDict items))
  : forall v, P v :=
  fix go (v : json) : P v :=
    match v with
    | JList elems =>
        Hlist elems
          (list_ind (Forall P) (Forall_nil P)
             (fun e _ IH => Forall_cons e (go e) IH) elems)
    | JDict items =>
        Hdict items
          (list_ind (Forall (fun kv => P (snd kv))) (Forall_nil _)
             (fun kv _ IH => Forall_cons kv (go (snd kv)) IH) items)
    | JNull => Hscalar JNull eq_refl
    | JBool b => Hscalar (JBool b) eq_refl
    | JInt n => Hscalar (JInt n) eq_refl
    | JFloat f => Hscalar (JFloat f) eq_refl
    | JStr s => Hscalar (JStr s) eq_refl
    end.

Lemma str_eqb_refl (a : pystr) : str_eqb a a = true.
Proof. destruct (str_eqb_spec a a); congruence. Qed.

Lemma str_eqb_sym (a b : pystr) : str_eqb a b = str_eqb b a.
Proof.
  destruct (str_eqb_spec a b), (str_eqb_spec b a); congruence.
Qed.

Lemma str_eqb_eq (a b : pystr) : str_eqb a b = true <-> a = b.
Proof. destruct (str_eqb_spec a b); split; congruence. Qed.

(** The loop over [var.items()], one pair at a time. *)
Lemma gen_dict_extract_items (key : pystr) (items : list (pystr * json)) :
  gen_dict_extract key (JDict items) =
  flat_map (fun kv => (if str_eqb (fst kv) key then [snd kv] else [])
                        ++ yields_below key (snd kv)) items.
Proof.
  induction items as [|[k v] tl IH]; [reflexivity|].
  change (gen_dict_extract key (JDict ((k, v) :: tl)))
    with ((if str_eqb k key then [v] else [])
            ++ match v with
               | JDict _ => gen_dict_extract key v
               | JList ds =>
                   (fix for_elems (l : list json) : list json :=
                      match l with
                      | [] => []
                      | d :: tl' => gen_dict_extract key d ++ for_elems tl'
                      end) ds
               | _ => []
               end
            ++ gen_dict_extract key (JDict tl)).
  rewrite IH. cbn [flat_map fst snd]. rewrite <- app_assoc.
  reflexivity.
Qed.

Lemma gen_dict_extract_cons (key k : pystr) (v : json) (tl : list (pystr * json)) :
  gen_dict_extract key (JDict ((k, v) :: tl)) =
  (if str_eqb k key then [v] else [])
    ++ yields_below key v ++ gen_dict_extract key (JDict tl).
Proof.
  rewrite !gen_dict_extract_items. cbn [flat_map fst snd].
  now rewrite <- app_assoc.
Qed.

Lemma gen_dict_extract_not_mapping (key : pystr) (v : json) :
  is_mapping v = false -> gen_dict_extract key v = [].
Proof. destruct v; simpl; congruence. Qed.

Lemma flat_map_pointwise {A B : Type} (f g : A -> list B) (l : list A) :
  Forall (fun x => f x = g x) l -> flat_map f l = flat_map g l.
Proof.
  induction 1 as [|x l Hx _ IH]; [reflexivity|].
  cbn [flat_map]. now rewrite Hx, IH.
Qed.

(** Induction for properties that hold trivially off mappings: at a mapping
    the hypothesis is available for every value, and for every element of a
    value that is a sequence. *)
Lemma json_mapping_ind (P : json -> Prop)
  (Hother : forall v, is_mapping v = false -> P v)
  (Hdict : forall items,
      Forall (fun kv : pystr * json =>
                P (snd kv) /\
                forall elems, snd kv = JList elems -> Forall P elems) items ->
      P (JDict items)) :
  forall v, P v.
Proof.
  intros v.
  enough (H : P v /\ forall elems, v = JList elems -> Forall P elems)
    by apply H.
  induction v as [v Hv|elems IH|items IH] using json_tree_ind.
  - split; [destruct v; try discriminate; now apply Hother|].
    intros elems ->; discriminate.
  - split; [now apply Hother|].
    intros ? [= <-]. eapply Forall_impl; [|exact IH]. now intros ? [? _].
  - split; [now apply Hdict|]. discriminate.
Qed.

(** The code and the specification's wording yield the same sequence. *)
Lemma gen_dict_extract_extractAll (key : pystr) (tree : json) :
  gen_dict_extract key tree = extractAll key tree.
Proof.
  induction tree as [v Hv|items IH] using json_mapping_ind.
  - destruct v; try discriminate; reflexivity.
  - rewrite gen_dict_extract_items. cbn [extractAll].
    apply flat_map_pointwise.
    induction IH as [|[k v] tl [Hv Hel] _ IHtl]; constructor; auto.
    cbn [fst snd] in *. rewrite (str_eqb_sym key k). f_equal.
    destruct v; try reflexivity; [|exact Hv].
    cbn [yields_below]. specialize (Hel _ eq_refl). clear Hv IHtl.
    induction Hel as [|e es He _ IHe]; [reflexivity|].
    cbn [flat_map]. rewrite IHe. f_equal.
    destruct e; try reflexivity. exact He.
Qed.

(** A value is yielded exactly when it is found under the key in a reached
    mapping. *)
Lemma gen_dict_extract_sound (key : pystr) (tree v : json) :
  In v (gen_dict_extract key tree) -> Found key tree v.
Proof.
  revert v.
  induction tree as [t Ht|items IH] using json_mapping_ind; intros v Hin.
  - rewrite gen_dict_extract_not_mapping in Hin by assumption. destruct Hin.
  - rewrite gen_dict_extract_items in Hin.
    apply in_flat_map in Hin. destruct Hin as [[k w] [Hkw Hin]].
    cbn [fst snd] in Hin. apply in_app_or in Hin.
    rewrite Forall_forall in IH. destruct (IH _ Hkw) as [IHw IHel].
    cbn [snd] in IHw, IHel.
    destruct Hin as [Hin|Hin].
    + destruct (str_eqb_spec k key) as [->|]; [|destruct Hin].
      destruct Hin as [<-|[]]. now apply Found_here.
    + destruct w; try destruct Hin.
      * cbn [yields_below] in Hin. apply in_flat_map in Hin.
        destruct Hin as [d [Hd Hin]].
        specialize (IHel _ eq_refl). rewrite Forall_forall in IHel.
        destruct d;
          try (rewrite gen_dict_extract_not_mapping in Hin by reflexivity;
               destruct Hin).
        eapply Found_in_sequence; eauto.
      * eapply Found_in_mapping; eauto.
Qed.

Lemma gen_dict_extract_complete (key : pystr) (tree v : json) :
  Found key tree v -> In v (gen_dict_extract key tree).
Proof.
  induction 1 as [items v Hin|items k sub v Hin _ IH
                 |items k elems sub v Hin Hel _ IH];
    rewrite gen_dict_extract_items; apply in_flat_map.
  - exists (key, v). split; [assumption|]. cbn [fst snd].
    rewrite str_eqb_refl. now left.
  - exists (k, JDict sub). split; [assumption|]. cbn [fst snd].
    apply in_or_app. now right.
  - exists (k, JList elems). split; [assumption|]. cbn [fst snd].
    apply in_or_app. right. cbn [yields_below].
    apply in_flat_map. now exists (JDict sub).
Qed.

(** A tree without the key yields nothing. *)
Lemma gen_dict_extract_absent (key : pystr) (tree : json) :
  has_key key tree = false -> gen_dict_extract key tree = [].
Proof.
  induction tree as [t Ht|items IH] using json_mapping_ind; intros Hno.
  - now apply gen_dict_extract_not_mapping.
  - rewrite gen_dict_extract_items.
    cbn [has_key] in Hno.
    induction IH as [|[k v] tl [Hv Hel] _ IHtl]; [reflexivity|].
    cbn [existsb] in Hno. apply orb_false_elim in Hno.
    destruct Hno as [Hkv Htl]. apply orb_false_elim in Hkv.
    destruct Hkv as [Hk Hv'].
    cbn [flat_map fst snd] in *. rewrite Hk, (IHtl Htl), app_nil_r.
    cbn [app]. destruct v; try reflexivity.
    + cbn [yields_below]. specialize (Hel _ eq_refl).
      cbn [has_key] in Hv'. clear Hv.
      induction Hel as [|e es He _ IHe]; [reflexivity|].
      cbn [existsb] in Hv'. apply orb_false_elim in Hv'.
      cbn [flat_map]. now rewrite (He (proj1 Hv')), (IHe (proj2 Hv')).
    + now apply Hv.
Qed.

(** The number of yielded values is below the number of nodes. *)
Lemma gen_dict_extract_bounded (key : pystr) (tree : json) :
  (List.length (gen_dict_extract key tree) < json_size tree)%nat.
Proof.
  induction tree as [t Ht|items IH] using json_mapping_ind.
  - rewrite gen_dict_extract_not_mapping by assumption.
    destruct t; simpl; lia.
  - rewrite gen_dict_extract_items. cbn [json_size].
    apply PeanoNat.Nat.lt_succ_r.
    induction IH as [|[k v] tl [Hv Hel] _ IHtl]; [simpl; lia|].
    simpl flat_map; simpl List.map; simpl list_sum; cbn [fst snd] in *.
    rewrite !length_app.
    assert (Hhead : (List.length (if str_eqb k key then [v] else [])
                     + List.length (yields_below key v) <= json_size v)%nat).
    { destruct v; try (destruct (str_eqb k key); simpl; lia).
      - specialize (Hel _ eq_refl). cbn [yields_below json_size]. clear Hv.
        assert (Hsum : (List.length (flat_map (gen_dict_extract key) elems)
                        <= list_sum (List.map json_size elems))%nat).
        { induction Hel as [|e es He _ IHe]; [simpl; lia|].
          simpl. rewrite length_app. simpl in He. lia. }
        destruct (str_eqb k key); cbn [List.length]; lia.
      - cbn [yields_below]. destruct (str_eqb k key); cbn [List.length]; lia. }
    lia.
Qed.

(** C1.  For every tree, [gen_dict_extract key tree] (the specification's
    [extractAll]) yields exactly the values that stand under a pair whose
    key is the target key: it is the sequence the specification describes
    (equal to [extractAll], as a list, so with the same order and
    multiplicity); a value is yielded exactly when it is [Found]; a pair's own
    value comes before what is found below it, which comes before the
    following pairs, and the elements of a sequence contribute in sequence
    order; a scalar value is not entered.  The specification's example
    yields [1, 2, 3], and a tree in which the key does not occur yields
    nothing. *)
Theorem gen_dict_extract_yields_exactly (key : pystr) (tree : json) :
  gen_dict_extract key tree = extractAll key tree
  /\ (forall v, In v (gen_dict_extract key tree) <-> Found key tree v)
  /\ (forall k v tl,
        gen_dict_extract key (JDict ((k, v) :: tl)) =
        (if str_eqb k key then [v] else [])
          ++ yields_below key v ++ gen_dict_extract key (JDict tl))
  /\ (forall d ds,
        yields_below key (JList (d :: ds)) =
        gen_dict_extract key d ++ yields_below key (JList ds))
  /\ (forall s, is_scalar s = true -> yields_below key s = [])
  /\ gen_dict_extract (lit "k") example_tree = [JInt 1; JInt 2; JInt 3]
  /\ (has_key key tree = false -> gen_dict_extract key tree = []).
Proof.
  split; [apply gen_dict_extract_extractAll|].
  split.
  { intros v; split;
      [apply gen_dict_extract_sound|apply gen_dict_extract_complete]. }
  split; [intros; apply gen_dict_extract_cons|].
  split; [reflexivity|].
  split; [intros s Hs; destruct s; try discriminate; reflexivity|].
  split; [vm_compute; reflexivity|].
  apply gen_dict_extract_absent.
Qed.

(** A tree without the key, with a sequence and a scalar inside. *)
Lemma gen_dict_extract_yields_exactly_witness :
  has_key (lit "k")
    (JDict [(lit "x", JList [JInt 4; JDict [(lit "y", JNull)]])]) = false
  /\ gen_dict_extract (lit "k")
       (JDict [(lit "x", JList [JInt 4; JDict [(lit "y", JNull)]])]) = [].
Proof.
  split; [reflexivity|].
  apply (gen_dict_extract_yields_exactly (lit "k")
           (JDict [(lit "x", JList [JInt 4; JDict [(lit "y", JNull)]])])).
  reflexivity.
Defined.

(** ** The traversal under the recursion limit *)

(** A run delivers a sequence when it yields all of it, or a first part of
    it before [RecursionError]. *)
Definition delivers (t : trace) (full : list json) : Prop :=
  match snd t with
  | None => fst t = full
  | Some e => e = RecursionError /\ exists rest_of, full = fst t ++ rest_of
  end.

Lemma delivers_and_then (a b : trace) (fa fb : list json) :
  delivers a fa -> delivers b fb -> delivers (and_then a b) (fa ++ fb).
Proof.
  destruct a as [ya [ea|]], b as [yb [eb|]]; unfold delivers, and_then;
    cbn [fst snd].
  - intros (-> & rest_a & ->) _. split; [reflexivity|].
    exists (rest_a ++ fb). now rewrite app_assoc.
  - intros (-> & rest_a & ->) _. split; [reflexivity|].
    exists (rest_a ++ fb). now rewrite app_assoc.
  - intros -> (-> & rest_b & ->). split; [reflexivity|].
    exists rest_b. now rewrite app_assoc.
  - now intros -> ->.
Qed.

Lemma delivers_for_yield {X : Type} (body : X -> trace) (f : X -> list json)
  (l : list X) :
  (forall x, In x l -> delivers (body x) (f x)) ->
  delivers (for_yield body l) (flat_map f l).
Proof.
  induction l as [|x l IH]; intros Hall; cbn [for_yield flat_map];
    [reflexivity|].
  apply delivers_and_then; [apply Hall; now left|].
  apply IH. intros y Hy. apply Hall. now right.
Qed.

(** Whatever the depth, the run delivers what the traversal yields, and an
    exception that ends it is [RecursionError]: the tests on [hasattr] and
    [isinstance] keep [items()] and the iteration from values that lack
    them. *)
Lemma gen_dict_extract_in_delivers (key : pystr) (depth : nat) :
  forall var,
    delivers (gen_dict_extract_in depth key var) (gen_dict_extract key var).
Proof.
  induction depth as [|depth IH]; intros var.
  - cbn [gen_dict_extract_in]. split; [reflexivity|]. now eexists.
  - destruct var as [| | | | | |items]; try reflexivity.
    cbn [gen_dict_extract_in is_mapping py_items run].
    rewrite gen_dict_extract_items. apply delivers_for_yield.
    intros [k v] _. cbn [fst snd]. apply delivers_and_then; [reflexivity|].
    destruct v as [| | | | |elems|sub]; try reflexivity.
    + cbn [is_mapping is_list py_iter run yields_below].
      apply delivers_for_yield. intros d _. apply IH.
    + cbn [is_mapping yields_below]. apply IH.
Qed.

Lemma for_yield_ends {X : Type} (body : X -> trace) (l : list X) :
  (forall x, In x l -> snd (body x) = None) -> snd (for_yield body l) = None.
Proof.
  induction l as [|x l IH]; intros Hall; cbn [for_yield]; [reflexivity|].
  unfold and_then. rewrite (Hall x) by now left. cbn [snd].
  apply IH. intros y Hy. apply Hall. now right.
Qed.

Lemma frames_positive (var : json) : (1 <= frames var)%nat.
Proof. destruct var; cbn [frames]; lia. Qed.

(** Within the limit no exception ends the run. *)
Lemma gen_dict_extract_in_ends (key : pystr) (depth : nat) :
  forall var,
    (frames var <= depth)%nat -> snd (gen_dict_extract_in depth key var) = None.
Proof.
  induction depth as [|depth IH]; intros var Hdepth.
  - pose proof (frames_positive var). lia.
  - destruct var as [| | | | | |items]; try reflexivity.
    cbn [gen_dict_extract_in is_mapping py_items run].
    cbn [frames] in Hdepth. apply le_S_n in Hdepth.
    apply list_max_le in Hdepth. rewrite Forall_forall in Hdepth.
    apply for_yield_ends. intros [k v] Hin.
    specialize (Hdepth _ (in_map _ _ _ Hin)). cbn beta iota in Hdepth.
    unfold and_then. cbn [fst snd].
    destruct v as [| | | | |elems|sub]; try reflexivity.
    + cbn [is_mapping is_list py_iter run].
      apply list_max_le in Hdepth. rewrite Forall_forall in Hdepth.
      apply for_yield_ends. intros d Hd. apply IH.
      apply Hdepth. now apply in_map.
    + cbn [is_mapping]. now apply IH.
Qed.

Lemma gen_dict_extract_in_within (key : pystr) (depth : nat) (var : json) :
  (frames var <= depth)%nat ->
  gen_dict_extract_in depth key var = (gen_dict_extract key var, None).
Proof.
  intros Hdepth.
  pose proof (gen_dict_extract_in_delivers key depth var) as Hrun.
  pose proof (gen_dict_extract_in_ends key var Hdepth) as Hend.
  unfold delivers in Hrun. rewrite Hend in Hrun.
  destruct (gen_dict_extract_in depth key var) as [ys e].
  cbn [fst snd] in *. congruence.
Qed.

(** C9, as the code has it.  On every key and every value, whatever its
    shape, whose mappings are nested no deeper than the calls the
    interpreter allows, the traversal ends without an exception and yields
    the values of the traversal, fewer than the value has nodes: nothing for
    a value that is no mapping, nothing for a key that occurs nowhere, and a
    scalar value of a pair is not entered.  Whatever the depth allowed, an
    exception that ends the traversal is [RecursionError], never one of
    [items()] or of the iteration on a value of another shape; it comes only
    where the nesting exceeds the depth, after a first part of the values. *)
Theorem gen_dict_extract_any_shape (key : pystr) (var : json) (depth : nat) :
  (frames var <= depth)%nat ->
  gen_dict_extract_in depth key var = (gen_dict_extract key var, None)
  /\ (List.length (gen_dict_extract key var) < json_size var)%nat
  /\ (is_mapping var = false -> gen_dict_extract_in depth key var = ([], None))
  /\ (has_key key var = false -> gen_dict_extract_in depth key var = ([], None))
  /\ (forall k v tl, is_scalar v = true ->
        gen_dict_extract key (JDict ((k, v) :: tl)) =
        (if str_eqb k key then [v] else [])
          ++ gen_dict_extract key (JDict tl))
  /\ (forall allowed ys e,
        gen_dict_extract_in allowed key var = (ys, Some e) ->
        e = RecursionError /\ (allowed < frames var)%nat
        /\ exists rest_of, gen_dict_extract key var = ys ++ rest_of).
Proof.
  intros Hdepth.
  pose proof (gen_dict_extract_in_within key var Hdepth) as Hrun.
  split; [exact Hrun|].
  split; [apply gen_dict_extract_bounded|].
  split; [intros Hvar; now rewrite Hrun, gen_dict_extract_not_mapping|].
  split; [intros Hkey; now rewrite Hrun, gen_dict_extract_absent|].
  split.
  - intros k v tl Hv. rewrite gen_dict_extract_cons.
    destruct v; try discriminate; reflexivity.
  - intros allowed ys e Hfail.
    pose proof (gen_dict_extract_in_delivers key allowed var) as Hpart.
    unfold delivers in Hpart. rewrite Hfail in Hpart. cbn [fst snd] in Hpart.
    destruct Hpart as [-> Hrest]. split; [reflexivity|]. split; [|exact Hrest].
    destruct (Nat.lt_ge_cases allowed (frames var)) as [Hlt|Hge]; [exact Hlt|].
    rewrite (gen_dict_extract_in_within key var Hge) in Hfail. discriminate.
Qed.

Lemma gen_dict_extract_any_shape_witness :
  (frames (JDict [(lit "a", JList [JList [JStr (lit "q")]; JNull; JFloat 0]);
                  (lit "b", JDict [(lit "c", JBool true)])]) <= 2)%nat
  /\ gen_dict_extract_in 2 (lit "q")
       (JDict [(lit "a", JList [JList [JStr (lit "q")]; JNull; JFloat 0]);
               (lit "b", JDict [(lit "c", JBool true)])])
     = ([], None).
Proof.
  assert (Hdepth :
            (frames (JDict [(lit "a", JList [JList [JStr (lit "q")]; JNull; JFloat 0]);
                            (lit "b", JDict [(lit "c", JBool true)])]) <= 2)%nat)
    by (vm_compute; lia).
  split; [exact Hdepth|].
  destruct (gen_dict_extract_any_shape (lit "q") _ Hdepth) as (_ & _ & _ & Hkey & _).
  apply Hkey. reflexivity.
Defined.

(** The claim C9 as it is stated fails for a value nested deeper than the
    interpreter allows calls: with the 1000 calls of the recursion limit an
    interpreter starts with, on a mapping in a mapping 1000 times over, the
    traversal ends with [RecursionError]. *)
Lemma gen_dict_extract_recursion_limit :
  frames (nested 1000) = 1001%nat
  /\ gen_dict_extract_in 1000 (lit "k") (nested 1000)
     = ([], Some RecursionError).
Proof. split; vm_compute; reflexivity. Qed.

(** C10.  A root that is not a mapping yields the empty sequence.  In
    particular a top-level sequence is not traversed:
    [gen_dict_extract("k", [{"k": 1}])] yields nothing although the mapping
    inside holds the key, while the same mapping as root yields [1]. *)
Theorem gen_dict_extract_root_not_mapping (key : pystr) (var : json) :
  is_mapping var = false ->
  gen_dict_extract key var = []
  /\ gen_dict_extract (lit "k") (JList [JDict [(lit "k", JInt 1)]]) = []
  /\ has_key (lit "k") (JList [JDict [(lit "k", JInt 1)]]) = true
  /\ gen_dict_extract (lit "k") (JDict [(lit "k", JInt 1)]) = [JInt 1].
Proof.
  intros Hvar. split; [now apply gen_dict_extract_not_mapping|].
  repeat split; reflexivity.
Qed.

Lemma gen_dict_extract_root_not_mapping_witness :
  is_mapping (JList [JDict [(lit "k", JInt 1)]]) = false
  /\ gen_dict_extract (lit "k") (JList [JDict [(lit "k", JInt 1)]]) = [].
Proof.
  split; [reflexivity|].
  apply (gen_dict_extract_root_not_mapping (lit "k")
           (JList [JDict [(lit "k", JInt 1)]])).
  reflexivity.
Defined.

(* ================================================================== *)
(** * Properties of the matcher *)
(* ================================================================== *)

Section RegexFacts.
Context {U : Interpreter}.

(** Whether some position of the pattern accepts the character. *)
Fixpoint accepts (r : regex) (c : N) : bool :=
  match r with
  | Eps => false
  | Chr x => N.eqb c x
  | Cls p | Plus p => p c
  | Seq r1 r2 | Alt r1 r2 => accepts r1 c || accepts r2 c
  | Group r1 => accepts r1 c
  end.

(** The input does not go on with a character of the class. *)
Definition stops (p : N -> bool) (s : pystr) : Prop :=
  match s with
  | c :: _ => p c = false
  | [] => True
  end.

Lemma star_class_inv (p : N -> bool) (s : pystr)
  (k : pystr -> option match_object) (m : match_object) :
  star_class p s k = Some m ->
  exists pre s1, s = pre ++ s1 /\ forallb p pre = true /\ k s1 = Some m.
Proof.
  induction s as [|c t IH]; cbn [star_class]; intros Hrun.
  - now exists [], [].
  - destruct (p c) eqn:Hc; [|now exists [], (c :: t)].
    destruct (star_class p t k) as [m'|] eqn:Ht.
    + injection Hrun as <-. destruct (IH eq_refl) as (pre & s1 & -> & Hpre & Hk).
      exists (c :: pre), s1. cbn [forallb app]. now rewrite Hc, Hpre.
    + now exists [], (c :: t).
Qed.

(** Greedy: when the continuation accepts what follows the longest run,
    that is the match. *)
Lemma star_class_longest (p : N -> bool) (pre s1 : pystr)
  (k : pystr -> option match_object) (m : match_object) :
  forallb p pre = true -> stops p s1 -> k s1 = Some m ->
  star_class p (pre ++ s1) k = Some m.
Proof.
  intros Hpre Hstop Hk. induction pre as [|c pre IH]; cbn [app].
  - destruct s1 as [|c t]; cbn [star_class]; [assumption|].
    cbn [stops] in Hstop. now rewrite Hstop.
  - cbn [forallb] in Hpre. apply andb_prop in Hpre. destruct Hpre as [Hc Hpre].
    cbn [star_class]. now rewrite Hc, (IH Hpre).
Qed.

Lemma firstn_consumed {A : Type} (a b : list A) :
  firstn (List.length (a ++ b) - List.length b) (a ++ b) = a.
Proof.
  rewrite length_app.
  replace (List.length a + List.length b - List.length b)%nat
    with (List.length a + 0)%nat by lia.
  now rewrite firstn_app_2, firstn_O, app_nil_r.
Qed.

(** Every match consumes a prefix made of characters the pattern accepts,
    and hands the remaining input to the continuation. *)
Lemma re_run_consumes (r : regex) :
  forall s caps k m,
    re_run r s caps k = Some m ->
    exists pre s1 caps1,
      s = pre ++ s1 /\ forallb (accepts r) pre = true /\ k s1 caps1 = Some m.
Proof.
  induction r as [|x|p|r1 IH1 r2 IH2|r1 IH1 r2 IH2|p|r1 IH1];
    intros s caps k m Hrun; cbn [re_run] in Hrun.
  - now exists [], s, caps.
  - destruct s as [|c t]; [discriminate|].
    destruct (N.eqb c x) eqn:Hc; [|discriminate].
    exists [c], t, caps. cbn. now rewrite Hc.
  - destruct s as [|c t]; [discriminate|].
    destruct (p c) eqn:Hc; [|discriminate].
    exists [c], t, caps. cbn. now rewrite Hc.
  - apply IH1 in Hrun. destruct Hrun as (pre1 & s1 & caps1 & -> & Hpre1 & Hrun).
    apply IH2 in Hrun. destruct Hrun as (pre2 & s2 & caps2 & -> & Hpre2 & Hk).
    exists (pre1 ++ pre2), s2, caps2. rewrite app_assoc. split; [reflexivity|].
    split; [|assumption]. rewrite forallb_app. cbn [accepts].
    apply andb_true_intro. split.
    + rewrite forallb_forall in *. intros c Hc. now rewrite (Hpre1 c Hc).
    + rewrite forallb_forall in *. intros c Hc.
      rewrite (Hpre2 c Hc). apply orb_true_r.
  - destruct (re_run r1 s caps k) as [m1|] eqn:H1.
    + injection Hrun as <-. apply IH1 in H1.
      destruct H1 as (pre & s1 & caps1 & -> & Hpre & Hk).
      exists pre, s1, caps1. repeat split; try assumption.
      rewrite forallb_forall in *. intros c Hc. cbn [accepts].
      now rewrite (Hpre c Hc).
    + apply IH2 in Hrun. destruct Hrun as (pre & s1 & caps1 & -> & Hpre & Hk).
      exists pre, s1, caps1. repeat split; try assumption.
      rewrite forallb_forall in *. intros c Hc. cbn [accepts].
      rewrite (Hpre c Hc). apply orb_true_r.
  - destruct s as [|c t]; [discriminate|].
    destruct (p c) eqn:Hc; [|discriminate].
    apply star_class_inv in Hrun. destruct Hrun as (pre & s1 & -> & Hpre & Hk).
    exists (c :: pre), s1, caps. change (accepts (Plus p)) with p.
    cbn [forallb app]. now rewrite Hc, Hpre.
  - apply IH1 in Hrun. destruct Hrun as (pre & s1 & caps1 & -> & Hpre & Hk).
    now exists pre, s1, (caps1 ++ [firstn (List.length (pre ++ s1) - List.length s1)
                                     (pre ++ s1)]).
Qed.

Lemma re_match_consumes (r : regex) (s : pystr) (m : match_object) :
  re_match r s = Some m ->
  exists pre, s = pre ++ rest m /\ forallb (accepts r) pre = true.
Proof.
  unfold re_match. intros Hrun. apply re_run_consumes in Hrun.
  destruct Hrun as (pre & s1 & caps1 & -> & Hpre & [= <-]). now exists pre.
Qed.

(** ** The pattern [vor (\d+) (\w+)] *)

(** A match of the pattern: the text is ["vor "], a non-empty run of digits
    (group 1), a blank, a non-empty run of word characters (group 2), and
    the rest. *)
Lemma age_pattern_inv (s : pystr) (m : match_object) :
  re_match age_pattern s = Some m ->
  exists ds w,
    groups m = [ds; w]
    /\ s = lit "vor " ++ ds ++ 32%N :: w ++ rest m
    /\ ds <> [] /\ forallb is_digit ds = true
    /\ w <> [] /\ forallb is_word w = true.
Proof.
  unfold re_match, age_pattern. intros Hrun.
  destruct s as [|c1 [|c2 [|c3 [|c4 s]]]]; try discriminate Hrun;
    try (cbn in Hrun; destruct (N.eqb c1 118); discriminate Hrun);
    try (cbn in Hrun; destruct (N.eqb c1 118); [|discriminate Hrun];
         destruct (N.eqb c2 111); discriminate Hrun);
    try (cbn in Hrun; destruct (N.eqb c1 118); [|discriminate Hrun];
         destruct (N.eqb c2 111); [|discriminate Hrun];
         destruct (N.eqb c3 114); discriminate Hrun).
  cbn [lit List.map list_ascii_of_string Str re_run] in Hrun.
  change (N_of_ascii "v") with 118%N in Hrun.
  change (N_of_ascii "o") with 111%N in Hrun.
  change (N_of_ascii "r") with 114%N in Hrun.
  change (N_of_ascii " ") with 32%N in Hrun.
  destruct (N.eqb_spec c1 118) as [->|]; [|discriminate].
  destruct (N.eqb_spec c2 111) as [->|]; [|discriminate].
  destruct (N.eqb_spec c3 114) as [->|]; [|discriminate].
  destruct (N.eqb_spec c4 32) as [->|]; [|discriminate].
  destruct s as [|d s]; [discriminate|].
  destruct (is_digit d) eqn:Hd; [|discriminate].
  apply star_class_inv in Hrun.
  destruct Hrun as (ds & s1 & -> & Hds & Hrun).
  destruct s1 as [|b s1]; [discriminate|].
  destruct (N.eqb_spec b 32) as [->|]; [|discriminate].
  destruct s1 as [|x s1]; [discriminate|].
  destruct (is_word x) eqn:Hx; [|discriminate].
  apply star_class_inv in Hrun.
  destruct Hrun as (w & s2 & -> & Hw & [= <-]).
  exists (d :: ds), (x :: w). cbn [groups rest].
  split.
  { f_equal; [exact (firstn_consumed (d :: ds) (32%N :: x :: w ++ s2))|].
    exact (f_equal (fun g => [g]) (firstn_consumed (x :: w) s2)). }
  repeat split; try discriminate; cbn [forallb]; rewrite ?Hd, ?Hx; assumption.
Qed.

Lemma group_plus_longest (p : N -> bool) (pre s1 : pystr) (caps : list pystr)
  (k : pystr -> list pystr -> option match_object) (m : match_object) :
  pre <> [] -> forallb p pre = true -> stops p s1 ->
  k s1 (caps ++ [pre]) = Some m ->
  re_run (Group (Plus p)) (pre ++ s1) caps k = Some m.
Proof.
  intros Hne Hpre Hstop Hk. destruct pre as [|c pre]; [congruence|].
  cbn [forallb] in Hpre. apply andb_prop in Hpre. destruct Hpre as [Hc Hpre].
  cbn [re_run app]. rewrite Hc.
  apply star_class_longest; try assumption.
  change (c :: pre ++ s1) with ((c :: pre) ++ s1).
  now rewrite firstn_consumed.
Qed.

Lemma re_run_Seq (r1 r2 : regex) (s : pystr) (caps : list pystr)
  (k : pystr -> list pystr -> option match_object) :
  re_run (Seq r1 r2) s caps k
  = re_run r1 s caps (fun s1 caps1 => re_run r2 s1 caps1 k).
Proof. reflexivity. Qed.

Lemma re_run_Chr (c : N) (t : pystr) (caps : list pystr)
  (k : pystr -> list pystr -> option match_object) :
  re_run (Chr c) (c :: t) caps k = k t caps.
Proof. cbn [re_run]. now rewrite N.eqb_refl. Qed.

Lemma re_run_Eps (s : pystr) (caps : list pystr)
  (k : pystr -> list pystr -> option match_object) :
  re_run Eps s caps k = k s caps.
Proof. reflexivity. Qed.

(** The text ["vor <digits> <word>"], followed by nothing or by something
    that does not continue the word, matches with these two groups. *)
Lemma age_pattern_intro (ds w tail : pystr) :
  ds <> [] -> forallb is_digit ds = true ->
  w <> [] -> forallb is_word w = true -> stops is_word tail ->
  re_match age_pattern (lit "vor " ++ ds ++ 32%N :: w ++ tail)
  = Some (MatchObject [ds; w] tail).
Proof.
  intros Hds1 Hds2 Hw1 Hw2 Htail. unfold re_match, age_pattern.
  change (lit "vor " ++ ds ++ 32%N :: w ++ tail)
    with (118%N :: 111%N :: 114%N :: 32%N :: ds ++ 32%N :: w ++ tail).
  change (Str (lit "vor "))
    with (Seq (Chr 118) (Seq (Chr 111) (Seq (Chr 114) (Seq (Chr 32) Eps)))).
  repeat (first [rewrite re_run_Seq|rewrite re_run_Chr|rewrite re_run_Eps];
          cbv beta).
  apply group_plus_longest; try assumption; [reflexivity|].
  rewrite re_run_Seq, re_run_Chr.
  apply group_plus_longest; try assumption. reflexivity.
Qed.

(** ** [int] on a run of digits *)

Lemma decimal_value_range (c : N) (d : Z) :
  decimal_value c = Some d -> 0 <= d <= 9.
Proof.
  unfold decimal_value, in_range.
  destruct (N.ltb_spec c 128); [|apply nonascii_decimal_digit].
  destruct (N.leb_spec 48 c), (N.leb_spec c 57); cbn [andb];
    intros [= <-]; lia.
Qed.

Lemma digits_value_ok (ds : pystr) :
  forallb is_digit ds = true ->
  forall acc, 0 <= acc -> exists n, digits_value acc ds = Ok n /\ 0 <= n.
Proof.
  induction ds as [|c ds IH]; intros Hds acc Hacc; cbn [digits_value].
  - now exists acc.
  - cbn [forallb] in Hds. apply andb_prop in Hds. destruct Hds as [Hc Hds].
    unfold is_digit in Hc. destruct (decimal_value c) as [d|] eqn:Hd;
      [|discriminate].
    apply decimal_value_range in Hd. apply IH; [assumption|lia].
Qed.

Lemma leading_digits_all (ds : pystr) :
  forallb is_digit ds = true -> leading_digits ds = len ds.
Proof.
  unfold len. induction ds as [|c ds IH]; intros Hds; [reflexivity|].
  cbn [forallb] in Hds. apply andb_prop in Hds. destruct Hds as [Hc Hds].
  cbn [leading_digits List.length]. unfold is_digit in Hc.
  destruct (decimal_value c); [|discriminate]. rewrite (IH Hds). lia.
Qed.

Lemma exceeds_digit_limit_false (digits : Z) :
  exceeds_digit_limit digits = false
  <-> digits <= 640 \/ int_max_str_digits <= 0 \/ digits <= int_max_str_digits.
Proof.
  unfold exceeds_digit_limit.
  destruct (Z.ltb_spec 640 digits), (Z.ltb_spec 0 int_max_str_digits),
    (Z.ltb_spec int_max_str_digits digits); cbn [andb];
    split; try reflexivity; try discriminate; lia.
Qed.

(** [int] on a run of digits, in full. *)
Lemma py_int_run (ds : pystr) :
  ds <> [] -> forallb is_digit ds = true ->
  py_int ds
  = if exceeds_digit_limit (len ds)
    then Raise (ValueError (lit "Exceeds the limit for integer string conversion"))
    else digits_value 0 ds.
Proof.
  intros Hne Hds. rewrite <- (leading_digits_all _ Hds).
  destruct ds as [|c ds]; [congruence|].
  unfold py_int. cbn [lstrip_blank].
  assert (Hc : is_digit c = true)
    by (cbn [forallb] in Hds; now apply andb_prop in Hds).
  destruct (N.eqb_spec c 32) as [->|_]; [discriminate|reflexivity].
Qed.

Lemma py_int_digits (ds : pystr) :
  ds <> [] -> forallb is_digit ds = true ->
  len ds <= 640 \/ int_max_str_digits <= 0 \/ len ds <= int_max_str_digits ->
  exists n, py_int ds = Ok n /\ 0 <= n.
Proof.
  intros Hne Hds Hlimit. rewrite (py_int_run Hne Hds).
  apply exceeds_digit_limit_false in Hlimit. rewrite Hlimit.
  apply digits_value_ok; [assumption|lia].
Qed.

Lemma py_int_nonneg (ds : pystr) (n : Z) :
  ds <> [] -> forallb is_digit ds = true -> py_int ds = Ok n -> 0 <= n.
Proof.
  intros Hne Hds. rewrite (py_int_run Hne Hds).
  destruct (exceeds_digit_limit (len ds)); [discriminate|].
  intros Hn. destruct (@digits_value_ok ds Hds 0) as (n' & Hn' & Hpos); [lia|].
  congruence.
Qed.

(** ** ["vor" in age_str] *)

Lemma str_contains_In (c : N) (p a : pystr) :
  str_contains (c :: p) a = true -> In c a.
Proof.
  induction a as [|x a IH]; cbn [str_contains starts_with]; [discriminate|].
  intros Hc. apply orb_prop in Hc. destruct Hc as [Hc|Hc].
  - apply andb_prop in Hc. destruct Hc as [Hc _].
    apply N.eqb_eq in Hc. subst. now left.
  - right. now apply IH.
Qed.

Lemma str_contains_vor_prefix (tail : pystr) :
  str_contains (lit "vor") (lit "vor " ++ tail) = true.
Proof. reflexivity. Qed.

(** A string that [strptime] accepts holds digits, dots and blanks only. *)
Lemma strptime_dmY_no_vor (s : pystr) (ymd : Z * Z * Z) :
  strptime_dmY s = Ok ymd -> str_contains (lit "vor") s = false.
Proof.
  unfold strptime_dmY. intros Hparse.
  destruct (re_match format_dmY s) as [m|] eqn:Hm; [|discriminate].
  destruct (rest m) eqn:Hrest; [|discriminate].
  apply re_match_consumes in Hm. destruct Hm as (pre & -> & Hpre).
  rewrite Hrest, app_nil_r.
  destruct (str_contains (lit "vor") pre) eqn:Hvor; [|reflexivity].
  apply (str_contains_In 118) in Hvor.
  rewrite forallb_forall in Hpre. specialize (Hpre _ Hvor). discriminate.
Qed.

(** ** The two branches of [age_to_seconds] *)

Lemma timedelta_days_midnight (now : Z) (ymd : Z * Z * Z) :
  timedelta_days now (datetime_us ymd) = today_ordinal now - ymd2ord ymd.
Proof.
  unfold timedelta_days, datetime_us, today_ordinal.
  replace (now - (ymd2ord ymd - 1) * day_us)
    with (now + (1 - ymd2ord ymd) * day_us) by ring.
  rewrite Z.div_add by (unfold day_us; lia). ring.
Qed.

Ltac split_units H :=
  repeat match type of H with
         | context [if ?b then _ else _] => destruct b eqn:?
         end.

Lemma unit_seconds_word (unit : pystr) (mult : Z) :
  unit_seconds unit = Some mult ->
  unit <> [] /\ forallb is_word unit = true /\ 0 < mult.
Proof.
  unfold unit_seconds, unit_table. cbn [dict_get key_eqb pystr_hashable].
  intros Hu. split_units Hu; try discriminate;
    injection Hu as <-;
    match goal with
    | H : str_eqb _ unit = true |- _ => apply str_eqb_eq in H; subst unit
    end;
    (split; [discriminate|split; [reflexivity|lia]]).
Qed.

(** The relative branch: the unit chain of the code is the specification's
    table applied to group 2, times the number in group 1. *)
Lemma age_to_seconds_relative (now : Z) (s : pystr) (m : match_object) :
  re_match age_pattern s = Some m ->
  age_to_seconds now s =
  match unit_seconds (group m 2) with
  | Some mult => n <- py_int (group m 1) ;; Ok (mult * n)
  | None => Raise (ValueError (not_recognized s))
  end.
Proof.
  intros Hm. unfold age_to_seconds.
  destruct (age_pattern_inv _ Hm) as (ds & w & _ & Hs & _).
  rewrite Hs at 1. rewrite str_contains_vor_prefix, Hm.
  unfold unit_seconds, unit_table. cbn [dict_get key_eqb pystr_hashable].
  repeat match goal with
         | |- context [str_eqb (lit ?u) (group m 2)] =>
             rewrite (str_eqb_sym (lit u) (group m 2))
         end.
  repeat match goal with
         | |- context [str_eqb (group m 2) ?u] =>
             destruct (str_eqb (group m 2) u); cbn [orb];
             [destruct (py_int (group m 1)); cbn [bind]; try reflexivity;
              f_equal; lia|]
         end.
  reflexivity.
Qed.

Lemma age_to_seconds_no_match (now : Z) (s : pystr) :
  str_contains (lit "vor") s = true -> re_match age_pattern s = None ->
  age_to_seconds now s = Raise TypeError.
Proof. intros Hvor Hm. unfold age_to_seconds. now rewrite Hvor, Hm. Qed.

(** The absolute branch: whole days between the two calendar dates. *)
Lemma age_to_seconds_absolute (now : Z) (s : pystr) :
  str_contains (lit "vor") s = false ->
  age_to_seconds now s =
  parsed <- strptime_dmY s ;;
  Ok (86400 * (today_ordinal now - ymd2ord parsed)).
Proof.
  intros Hvor. unfold age_to_seconds. rewrite Hvor.
  destruct (strptime_dmY s) as [ymd|e]; cbn [bind]; [|reflexivity].
  rewrite timedelta_days_midnight. f_equal.
Qed.

Lemma re_match_age_contains_vor (s : pystr) (m : match_object) :
  re_match age_pattern s = Some m -> str_contains (lit "vor") s = true.
Proof.
  intros Hm. destruct (age_pattern_inv _ Hm) as (ds & w & _ & -> & _).
  apply str_contains_vor_prefix.
Qed.

(** Every successful call went through one of the two branches. *)
Lemma age_to_seconds_Ok_inv (now : Z) (s : pystr) (v : Z) :
  age_to_seconds now s = Ok v ->
  (exists m mult n,
      re_match age_pattern s = Some m
      /\ unit_seconds (group m 2) = Some mult
      /\ py_int (group m 1) = Ok n /\ 0 <= n /\ v = mult * n)
  \/ (exists ymd,
         str_contains (lit "vor") s = false
         /\ strptime_dmY s = Ok ymd
         /\ v = 86400 * (today_ordinal now - ymd2ord ymd)).
Proof.
  intros Hv. destruct (str_contains (lit "vor") s) eqn:Hvor.
  - left. destruct (re_match age_pattern s) as [m|] eqn:Hm.
    + rewrite (age_to_seconds_relative now _ Hm) in Hv.
      destruct (unit_seconds (group m 2)) as [mult|] eqn:Hu; [|discriminate].
      destruct (age_pattern_inv _ Hm) as (ds & w & Hg & _ & Hds1 & Hds2 & _).
      assert (Hg1 : group m 1 = ds) by (unfold group; now rewrite Hg).
      rewrite Hg1 in Hv.
      destruct (py_int ds) as [n|] eqn:Hn; cbn [bind] in Hv; [|discriminate].
      injection Hv as <-.
      pose proof (py_int_nonneg Hds1 Hds2 Hn) as Hpos.
      exists m, mult, n. rewrite Hg1. auto.
    + rewrite (age_to_seconds_no_match now _ Hvor Hm) in Hv. discriminate.
  - right. rewrite (age_to_seconds_absolute now _ Hvor) in Hv.
    destruct (strptime_dmY s) as [ymd|e]; [|discriminate].
    cbn [bind] in Hv. injection Hv as <-. now exists ymd.
Qed.

End RegexFacts.

(* ================================================================== *)
(** * Properties of [age_to_seconds] *)
(* ================================================================== *)

(** C4, as the code has it.  For every string ["vor <N> <unit>"] (a
    non-empty run of digits [ds], one blank, a unit word of the
    specification's table) whose digits [int] converts (they are at most
    640, or no limit is set, or they are within the limit, which is 4300
    unless it was set), whatever the time of the call, [age_to_seconds]
    returns [N] times the unit's seconds, [N] being the number [int] reads
    from the digits; with more digits than the limit, [int] raises
    [ValueError] and so does [age_to_seconds].  Both forms of a unit word
    stand in [unit_table] with the same value (1, 60, 3600, 86400, 604800,
    2592000, 31104000).  The three examples of the specification evaluate to
    10800, 86400 and 1209600. *)
Theorem age_to_seconds_unit_multipliers {U : Interpreter} (now : Z) :
  (forall ds unit mult,
      ds <> [] -> forallb is_digit ds = true ->
      unit_seconds unit = Some mult ->
      len ds <= 640 \/ int_max_str_digits <= 0 \/ len ds <= int_max_str_digits ->
      exists n,
        py_int ds = Ok n /\ 0 <= n
        /\ age_to_seconds now (lit "vor " ++ ds ++ 32%N :: unit)
           = Ok (mult * n))
  /\ (forall ds unit mult,
        ds <> [] -> forallb is_digit ds = true ->
        unit_seconds unit = Some mult ->
        640 < len ds -> 0 < int_max_str_digits < len ds ->
        age_to_seconds now (lit "vor " ++ ds ++ 32%N :: unit)
        = Raise (ValueError
                   (lit "Exceeds the limit for integer string conversion")))
  /\ List.map (fun unit => unit_seconds (lit unit))
       ["Sekunde"; "Sekunden"; "Minute"; "Minuten"; "Stunde"; "Stunden";
        "Tag"; "Tagen"; "Woche"; "Wochen"; "Monat"; "Monaten";
        "Jahr"; "Jahren"]%string
     = List.map Some
         [1; 1; 60; 60; 3600; 3600; 86400; 86400; 604800; 604800;
          2592000; 2592000; 31104000; 31104000]
  /\ age_to_seconds now (lit "vor 3 Stunden") = Ok 10800
  /\ age_to_seconds now (lit "vor 1 Tag") = Ok 86400
  /\ age_to_seconds now (lit "vor 2 Wochen") = Ok 1209600.
Proof.
  split; [|split; [|repeat split; reflexivity]].
  - intros ds unit mult Hne Hds Hunit Hlimit.
    destruct (unit_seconds_word _ Hunit) as (Hu1 & Hu2 & _).
    destruct (py_int_digits Hne Hds Hlimit) as (n & Hn & Hpos).
    exists n. repeat split; try assumption.
    assert (Hm := @age_pattern_intro U ds unit [] Hne Hds Hu1 Hu2 I).
    rewrite app_nil_r in Hm.
    rewrite (age_to_seconds_relative now _ Hm).
    unfold group. cbn [groups nth Nat.sub]. now rewrite Hunit, Hn.
  - intros ds unit mult Hne Hds Hunit Hmany Hlimit.
    destruct (unit_seconds_word _ Hunit) as (Hu1 & Hu2 & _).
    assert (Hm := @age_pattern_intro U ds unit [] Hne Hds Hu1 Hu2 I).
    rewrite app_nil_r in Hm.
    rewrite (age_to_seconds_relative now _ Hm).
    unfold group. cbn [groups nth Nat.sub]. rewrite Hunit, (py_int_run Hne Hds).
    assert (Hover : exceeds_digit_limit (len ds) = true).
    { destruct (exceeds_digit_limit (len ds)) eqn:Hx; [reflexivity|].
      apply exceeds_digit_limit_false in Hx. lia. }
    now rewrite Hover.
Qed.

Lemma age_to_seconds_unit_multipliers_witness :
  exists n,
    @py_int ascii_interpreter (lit "45") = Ok n /\ 0 <= n
    /\ @age_to_seconds ascii_interpreter 0 (lit "vor " ++ lit "45" ++ 32%N :: lit "Minuten")
       = Ok (60 * n).
Proof.
  apply (proj1 (@age_to_seconds_unit_multipliers ascii_interpreter 0)
           (lit "45") (lit "Minuten") 60);
    [discriminate|reflexivity|reflexivity|left; vm_compute; discriminate].
Defined.

(** The claim C4 as it is stated fails for a number of more digits than
    [int] converts: with the limit of 4300 digits an interpreter starts with,
    on ["vor "], 4301 times the digit 9 and [" Tagen"], the conversion
    [int(age_re[1])] raises [ValueError], and no value is returned. *)
Lemma age_to_seconds_digit_limit :
  forallb (@is_digit ascii_interpreter) (repeat 57%N 4301) = true
  /\ @unit_seconds (lit "Tagen") = Some 86400
  /\ @age_to_seconds ascii_interpreter 0
       (lit "vor " ++ repeat 57%N 4301 ++ 32%N :: lit "Tagen")
     = Raise (ValueError (lit "Exceeds the limit for integer string conversion")).
Proof. repeat split; vm_compute; reflexivity. Qed.

(** C6.  A string that [strptime] reads as a date ["DD.MM.YYYY"] does not
    match the relative pattern, and [age_to_seconds] returns 86400 times
    [(now - date).days]: the floor of the difference in days, which is the
    difference of the two calendar days whatever the time of day of [now].
    For ["15.01.2023"] that is 86400 times the days from 15 January 2023 to
    the day of the call. *)
Theorem age_to_seconds_absolute_date {U : Interpreter}
  (now : Z) (s : pystr) (ymd : Z * Z * Z) :
  strptime_dmY s = Ok ymd ->
  re_match age_pattern s = None
  /\ age_to_seconds now s = Ok (86400 * timedelta_days now (datetime_us ymd))
  /\ timedelta_days now (datetime_us ymd) = today_ordinal now - ymd2ord ymd
  /\ strptime_dmY (lit "15.01.2023") = Ok (2023, 1, 15)
  /\ age_to_seconds now (lit "15.01.2023")
     = Ok (86400 * (today_ordinal now - ymd2ord (2023, 1, 15))).
Proof.
  intros Hparse. pose proof (strptime_dmY_no_vor _ Hparse) as Hvor.
  split.
  { destruct (re_match age_pattern s) as [m|] eqn:Hm; [|reflexivity].
    apply re_match_age_contains_vor in Hm. congruence. }
  split.
  { rewrite (age_to_seconds_absolute now _ Hvor), Hparse. cbn [bind].
    now rewrite timedelta_days_midnight. }
  split; [apply timedelta_days_midnight|].
  split; [reflexivity|].
  now rewrite age_to_seconds_absolute by reflexivity.
Qed.

(** Called on 20 January 2023 at 13:45: five whole days. *)
Lemma age_to_seconds_absolute_date_witness :
  @strptime_dmY ascii_interpreter (lit "15.01.2023") = Ok (2023, 1, 15)
  /\ @age_to_seconds ascii_interpreter
       (datetime_us (2023, 1, 20) + (13 * 3600 + 45 * 60) * 1000000)
       (lit "15.01.2023")
     = Ok (86400 * timedelta_days
                     (datetime_us (2023, 1, 20) + (13 * 3600 + 45 * 60) * 1000000)
                     (datetime_us (2023, 1, 15)))
  /\ 86400 * timedelta_days
               (datetime_us (2023, 1, 20) + (13 * 3600 + 45 * 60) * 1000000)
               (datetime_us (2023, 1, 15)) = 432000.
Proof.
  split; [reflexivity|]. split; [|reflexivity].
  apply (@age_to_seconds_absolute_date ascii_interpreter
           (datetime_us (2023, 1, 20) + (13 * 3600 + 45 * 60) * 1000000)
           (lit "15.01.2023") (2023, 1, 15)).
  reflexivity.
Defined.

(** C7.  What [age_to_seconds] does on a text of no recognized form; it
    returns no value in any of these cases.  A text that matches
    [vor (\d+) (\w+)] with a unit word (group 2) outside the table raises the
    [ValueError] whose message quotes the text, and so the unit word.  A
    text without ["vor"] that is no date raises the [ValueError] of
    [strptime].  But a text that contains ["vor"] and does not match the
    pattern reaches neither: [re.match] returns [None] and the subscript
    [age_re[2]] raises [TypeError], as for ["vor kurzem"]. *)
Theorem age_to_seconds_raises {U : Interpreter} (now : Z) (s : pystr) :
  (forall m,
      re_match age_pattern s = Some m -> unit_seconds (group m 2) = None ->
      age_to_seconds now s = Raise (ValueError (not_recognized s))
      /\ (exists pre post, not_recognized s = pre ++ group m 2 ++ post)
      /\ forall v, age_to_seconds now s <> Ok v)
  /\ (re_match age_pattern s = None ->
      (forall ymd, strptime_dmY s <> Ok ymd) ->
      (exists e,
          age_to_seconds now s = Raise e
          /\ (str_contains (lit "vor") s = true -> e = TypeError)
          /\ (str_contains (lit "vor") s = false -> strptime_dmY s = Raise e))
      /\ forall v, age_to_seconds now s <> Ok v)
  /\ age_to_seconds now (lit "vor 5 Lichtjahren")
     = Raise (ValueError (not_recognized (lit "vor 5 Lichtjahren")))
  /\ age_to_seconds now (lit "vor kurzem") = Raise TypeError
  /\ age_to_seconds now (lit "Aktualisiert vor 3 Tagen") = Raise TypeError.
Proof.
  split; [|split; [|repeat split; reflexivity]].
  - intros m Hm Hunit.
    assert (Hraise : age_to_seconds now s = Raise (ValueError (not_recognized s)))
      by now rewrite (age_to_seconds_relative now _ Hm), Hunit.
    split; [assumption|]. split; [|intros v; rewrite Hraise; discriminate].
    destruct (age_pattern_inv _ Hm) as (ds & w & Hg & Hs & _).
    exists (lit "Age format not recognized: " ++ [34%N] ++ lit "vor " ++ ds ++ [32%N]),
      (rest m ++ [34%N]).
    unfold not_recognized, group. rewrite Hg. cbn [nth Nat.sub].
    rewrite Hs at 1.
    change (32%N :: w ++ rest m) with ([32%N] ++ w ++ rest m).
    now rewrite <- !app_assoc.
  - intros Hm Hdate.
    assert (Hraise : exists e,
               age_to_seconds now s = Raise e
               /\ (str_contains (lit "vor") s = true -> e = TypeError)
               /\ (str_contains (lit "vor") s = false -> strptime_dmY s = Raise e)).
    { destruct (str_contains (lit "vor") s) eqn:Hvor.
      - exists TypeError. rewrite (age_to_seconds_no_match now _ Hvor Hm).
        repeat split; congruence.
      - rewrite (age_to_seconds_absolute now _ Hvor).
        destruct (strptime_dmY s) as [ymd|e]; [now destruct (Hdate ymd)|].
        exists e. repeat split; congruence. }
    split; [assumption|].
    destruct Hraise as (e & He & _). intros v. rewrite He. discriminate.
Qed.

(** An unknown unit, and two texts of neither form. *)
Lemma age_to_seconds_raises_witness :
  @age_to_seconds ascii_interpreter 0 (lit "vor 7 Dekaden")
  = Raise (ValueError (not_recognized (lit "vor 7 Dekaden")))
  /\ (exists e, @age_to_seconds ascii_interpreter 0 (lit "vor kurzem") = Raise e)
  /\ (exists e, @age_to_seconds ascii_interpreter 0 (lit "gestern") = Raise e).
Proof.
  split; [|split].
  - apply (proj1 (@age_to_seconds_raises ascii_interpreter 0 (lit "vor 7 Dekaden"))
             (MatchObject [lit "7"; lit "Dekaden"] []));
      reflexivity.
  - pose proof (proj1 (proj2 (@age_to_seconds_raises ascii_interpreter 0
                                 (lit "vor kurzem")))) as H.
    destruct H as [(e & He & _) _];
      [reflexivity|intros ymd Hd; discriminate Hd|].
    now exists e.
  - pose proof (proj1 (proj2 (@age_to_seconds_raises ascii_interpreter 0
                                 (lit "gestern")))) as H.
    destruct H as [(e & He & _) _];
      [reflexivity|intros ymd Hd; discriminate Hd|].
    now exists e.
Defined.

(** C8, as the code has it.  When [age_to_seconds] returns, the result is
    non-negative for a relative text; for a date it is 86400 times the days
    from that date to the day of the call, so it is non-negative exactly
    when the date is not after that day, and negative for a later date. *)
Theorem age_to_seconds_sign {U : Interpreter} (now : Z) (s : pystr) (v : Z) :
  age_to_seconds now s = Ok v ->
  (exists m, re_match age_pattern s = Some m /\ 0 <= v)
  \/ (exists ymd,
         strptime_dmY s = Ok ymd
         /\ v = 86400 * (today_ordinal now - ymd2ord ymd)
         /\ (0 <= v <-> ymd2ord ymd <= today_ordinal now)).
Proof.
  intros Hv. destruct (age_to_seconds_Ok_inv _ _ Hv)
    as [(m & mult & n & Hm & Hu & _ & Hn & ->)|(ymd & _ & Hd & ->)].
  - left. exists m. split; [assumption|].
    destruct (unit_seconds_word _ Hu) as (_ & _ & Hmult). nia.
  - right. exists ymd. repeat split; try assumption; lia.
Qed.

(** Called on 20 January 2023 with the date of five days before. *)
Lemma age_to_seconds_sign_witness :
  @age_to_seconds ascii_interpreter (datetime_us (2023, 1, 20)) (lit "15.01.2023")
  = Ok 432000
  /\ ((exists m, re_match (@age_pattern ascii_interpreter) (lit "15.01.2023") = Some m
                 /\ 0 <= 432000)
      \/ (exists ymd,
             @strptime_dmY ascii_interpreter (lit "15.01.2023") = Ok ymd
             /\ 432000 = 86400 * (today_ordinal (datetime_us (2023, 1, 20))
                                  - ymd2ord ymd)
             /\ (0 <= 432000
                 <-> ymd2ord ymd <= today_ordinal (datetime_us (2023, 1, 20))))).
Proof.
  split; [reflexivity|].
  apply (@age_to_seconds_sign ascii_interpreter (datetime_us (2023, 1, 20))
           (lit "15.01.2023") 432000).
  reflexivity.
Defined.

(** The claim C8 as it is stated fails: called on 20 January 2023 with the
    date of the next day, [age_to_seconds] returns -86400. *)
Lemma age_to_seconds_future_date_negative :
  lit "21.01.2023" <> []
  /\ @age_to_seconds ascii_interpreter (datetime_us (2023, 1, 20)) (lit "21.01.2023")
     = Ok (-86400)
  /\ -86400 < 0.
Proof. split; [discriminate|split; [reflexivity|lia]]. Qed.

(* ================================================================== *)
(** * Dictionaries: lookups after assignments *)
(* ================================================================== *)

Section DictFacts.
Context {K V : Type} `{Hashable K}.

Lemma key_eqb_refl (k : K) : key_eqb k k = true.
Proof. destruct (key_eqb_spec k k); congruence. Qed.

Lemma key_eqb_neq (a b : K) : a <> b -> key_eqb a b = false.
Proof. destruct (key_eqb_spec a b); congruence. Qed.

(** Assigning a key that is absent appends the pair. *)
Lemma dict_set_fresh (k : K) (v : V) (d : dict K V) :
  ~ In k (dict_keys d) -> dict_set k v d = d ++ [(k, v)].
Proof.
  induction d as [|[k' v'] d IH]; cbn [dict_set dict_keys List.map fst In app];
    [reflexivity|].
  intros Hno. rewrite key_eqb_neq by tauto. f_equal. apply IH.
  unfold dict_keys. tauto.
Qed.

Lemma dict_get_set_same (k : K) (v : V) (d : dict K V) :
  dict_get k (dict_set k v d) = Some v.
Proof.
  induction d as [|[k' v'] d IH]; cbn [dict_set dict_get].
  - now rewrite key_eqb_refl.
  - destruct (key_eqb k' k) eqn:Hk; cbn [dict_get]; now rewrite Hk.
Qed.

Lemma dict_get_set_other (k k0 : K) (v : V) (d : dict K V) :
  k0 <> k -> dict_get k0 (dict_set k v d) = dict_get k0 d.
Proof.
  intros Hne. induction d as [|[k' v'] d IH]; cbn [dict_set dict_get].
  - now rewrite key_eqb_neq by congruence.
  - destruct (key_eqb_spec k' k) as [->|Hk]; cbn [dict_get].
    + now rewrite !key_eqb_neq by congruence.
    + now rewrite IH.
Qed.

End DictFacts.

(* ================================================================== *)
(** * Properties of [trim_results] *)
(* ================================================================== *)

Section TrimFacts.
Context {A : Type}.

(** The running minimum of the first loop. *)
Definition running_min (results : dict pystr (list A)) (m : Z) : Z :=
  fold_left (fun m (item : pystr * list A) => Z.min (len (snd item)) m) results m.

Lemma shortest_loop_min (results : dict pystr (list A)) (count m : Z) :
  snd (shortest_loop results count m) = running_min results m.
Proof.
  unfold shortest_loop, running_min. revert count m.
  induction results as [|[topic res] tl IH]; intros count m; [reflexivity|].
  cbn [fold_left snd]. rewrite IH. f_equal.
  destruct (Z.ltb_spec (len res) m); lia.
Qed.

Lemma running_min_absorb (results : dict pystr (list A)) (a b : Z) :
  running_min results (Z.min a b) = Z.min a (running_min results b).
Proof.
  unfold running_min. revert b.
  induction results as [|item tl IH]; intros b; cbn [fold_left]; [reflexivity|].
  rewrite <- IH. f_equal. lia.
Qed.

Lemma running_min_natural (results : dict pystr (list A)) (m nat_min : Z) :
  natural_minimum results = Some nat_min ->
  running_min results m = Z.min m nat_min.
Proof.
  destruct results as [|[topic res] tl]; [discriminate|].
  cbn [natural_minimum]. intros [= <-].
  change (running_min ((topic, res) :: tl) m)
    with (running_min tl (Z.min (len res) m)).
  rewrite Z.min_comm, running_min_absorb. f_equal.
  generalize (len res) as b.
  induction tl as [|item tl IH]; intros b; [reflexivity|].
  change (running_min (item :: tl) b)
    with (running_min tl (Z.min (len (snd item)) b)).
  rewrite running_min_absorb, IH. reflexivity.
Qed.

Lemma natural_minimum_spec (results : dict pystr (list A)) (nat_min : Z) :
  natural_minimum results = Some nat_min ->
  (forall item, In item results -> nat_min <= len (snd item))
  /\ (exists item, In item results /\ nat_min = len (snd item)).
Proof.
  destruct results as [|[topic res] tl]; [discriminate|].
  cbn [natural_minimum]. intros [= <-].
  induction tl as [|item tl [IHall (w & Hw & IHw)]]; cbn [fold_right].
  - split; [intros item [<-|[]]; cbn [snd]; lia|].
    exists (topic, res). split; [now left|reflexivity].
  - split.
    + intros item' [<-|[<-|Hin]].
      * specialize (IHall (topic, res) (or_introl eq_refl)). cbn [snd] in *. lia.
      * lia.
      * specialize (IHall item' (or_intror Hin)). lia.
    + destruct (Z.min_spec (len (snd item))
                  (fold_right (fun item m => Z.min (len (snd item)) m) (len res) tl))
        as [[_ Hm]|[_ Hm]]; rewrite Hm.
      * exists item. split; [right; now left|reflexivity].
      * exists w. split; [|assumption].
        destruct Hw as [<-|Hw]; [now left|right; now right].
Qed.

(** With distinct topics the second loop assigns each topic once, in
    order. *)
Lemma slice_loop_map (results : dict pystr (list A)) (n : Z) :
  NoDup (dict_keys results) ->
  snd (slice_loop results n)
  = List.map (fun item => (fst item, slice_to n (snd item))) results.
Proof.
  unfold slice_loop. intros Hnd.
  enough (Hgen : forall count acc,
             (forall k, In k (dict_keys acc) -> ~ In k (dict_keys results)) ->
             snd (fold_left
                    (fun (st : Z * dict pystr (list A)) (item : pystr * list A) =>
                       let (count, new_results) := st in
                       let (topic, res) := item in
                       (count + n, dict_set topic (slice_to n res) new_results))
                    results (count, acc))
             = acc ++ List.map (fun item => (fst item, slice_to n (snd item))) results)
    by (apply (Hgen 0 []); intros k []).
  induction results as [|[topic res] tl IH]; intros count acc Hdisj;
    cbn [fold_left List.map fst snd].
  - now rewrite app_nil_r.
  - inversion Hnd as [|? ? Hfresh Hnd']; subst.
    rewrite IH.
    + rewrite dict_set_fresh.
      * now rewrite <- app_assoc.
      * intros Hin. apply (Hdisj _ Hin). now left.
    + assumption.
    + intros k Hin Htl.
      rewrite dict_set_fresh in Hin
        by (intros Hin'; apply (Hdisj _ Hin'); now left).
      unfold dict_keys in Hin. rewrite map_app in Hin.
      apply in_app_or in Hin. destruct Hin as [Hin|[<-|[]]].
      * apply (Hdisj _ Hin). now right.
      * now apply Hfresh.
Qed.

Lemma slice_to_firstn (n : Z) (res : list A) :
  0 <= n -> slice_to n res = firstn (Z.to_nat n) res.
Proof. unfold slice_to. intros Hn. destruct (Z.ltb_spec n 0); [lia|reflexivity]. Qed.

Lemma len_firstn (n : Z) (res : list A) :
  0 <= n <= len res -> len (firstn (Z.to_nat n) res) = n.
Proof. unfold len. intros Hn. rewrite length_firstn. lia. Qed.

End TrimFacts.

(** C3, as the code has it.  For a non-empty mapping (its topics distinct,
    as the keys of a [dict] are) and a [max_length] that is not negative,
    [trim_results] returns as effective length the minimum of [max_length]
    and the least length among the sequences, and the mapping with the same
    topics in the same order, each sequence cut to its first
    effective-length records; so all returned sequences have that length.
    The specification's example returns length 2. *)
Theorem trim_results_effective_length {A : Type}
  (results : dict pystr (list A)) (max_length : Z) :
  results <> [] -> NoDup (dict_keys results) -> 0 <= max_length ->
  exists nat_min,
    natural_minimum results = Some nat_min
    /\ (forall item, In item results -> nat_min <= len (snd item))
    /\ (exists item, In item results /\ nat_min = len (snd item))
    /\ snd (fst (trim_results results max_length)) = Z.min max_length nat_min
    /\ fst (fst (trim_results results max_length))
       = List.map
           (fun item =>
              (fst item, firstn (Z.to_nat (Z.min max_length nat_min)) (snd item)))
           results
    /\ (forall item,
          In item (fst (fst (trim_results results max_length))) ->
          len (snd item) = Z.min max_length nat_min)
    /\ fst (trim_results [(lit "a", [1; 2; 3; 4]); (lit "b", [1; 2])]
              default_max_length)
       = ([(lit "a", [1; 2]); (lit "b", [1; 2])], 2).
Proof.
  intros Hne Hnd Hmax.
  destruct (natural_minimum results) as [nat_min|] eqn:Hnat;
    [|destruct results as [|[? ?] ?]; [congruence|discriminate]].
  exists nat_min. destruct (natural_minimum_spec _ Hnat) as [Hall Hex].
  split; [reflexivity|]. split; [assumption|]. split; [assumption|].
  assert (Hpos : 0 <= nat_min).
  { destruct Hex as (item & _ & ->). unfold len. lia. }
  unfold trim_results.
  pose proof (shortest_loop_min results 0 max_length) as Hmin.
  rewrite (running_min_natural _ _ Hnat) in Hmin.
  destruct (shortest_loop results 0 max_length) as [count eff].
  cbn [snd] in Hmin. subst eff.
  pose proof (@slice_loop_map A results (Z.min max_length nat_min) Hnd) as Hmap.
  destruct (slice_loop results (Z.min max_length nat_min)) as [count' new_results].
  cbn [fst snd] in *. subst new_results.
  split; [reflexivity|].
  assert (Heq : List.map
                  (fun item : pystr * list A =>
                     (fst item, slice_to (Z.min max_length nat_min) (snd item)))
                  results
                = List.map
                    (fun item : pystr * list A =>
                       (fst item,
                        firstn (Z.to_nat (Z.min max_length nat_min)) (snd item)))
                    results).
  { apply map_ext. intros item. now rewrite slice_to_firstn by lia. }
  rewrite Heq. split; [reflexivity|]. split; [|reflexivity].
  intros item Hin. apply in_map_iff in Hin.
  destruct Hin as (item0 & <- & Hin0). cbn [snd].
  apply len_firstn. specialize (Hall _ Hin0). lia.
Qed.

Lemma trim_results_effective_length_witness :
  exists nat_min,
    natural_minimum [(lit "x", [7; 8; 9]); (lit "y", [5; 6; 7; 8])] = Some nat_min
    /\ snd (fst (trim_results [(lit "x", [7; 8; 9]); (lit "y", [5; 6; 7; 8])] 2))
       = Z.min 2 nat_min
    /\ fst (fst (trim_results [(lit "x", [7; 8; 9]); (lit "y", [5; 6; 7; 8])] 2))
       = [(lit "x", [7; 8]); (lit "y", [5; 6])].
Proof.
  destruct (@trim_results_effective_length Z
              [(lit "x", [7; 8; 9]); (lit "y", [5; 6; 7; 8])] 2)
    as (nat_min & Hnat & _ & _ & Heff & Hnew & _).
  - discriminate.
  - repeat constructor; cbn; intuition discriminate.
  - lia.
  - exists nat_min. split; [exact Hnat|]. split; [exact Heff|reflexivity].
Defined.

(** The claim C3 as it is stated fails for a negative [max_length]: the
    slice [res[:-1]] drops the last record of each sequence, so the
    effective length is -1 while the sequences keep 3 records and 1. *)
Lemma trim_results_negative_max_length :
  fst (trim_results [(lit "a", [1; 2; 3; 4]); (lit "b", [1; 2])] (-1))
  = ([(lit "a", [1; 2; 3]); (lit "b", [1])], -1)
  /\ len [1; 2; 3] <> len [1]
  /\ len [1; 2; 3] <> -1.
Proof. split; [reflexivity|split; discriminate]. Qed.

(* ================================================================== *)
(** * Properties of [analyze_sources] *)
(* ================================================================== *)

(** ** First-encounter order *)

Section FirstSeenFacts.
Context {X : Type} `{Hashable X}.

Lemma existsb_key_In (x : X) (l : list X) :
  existsb (fun y => key_eqb y x) l = true <-> In x l.
Proof.
  rewrite existsb_exists. split.
  - intros (y & Hin & Heq). destruct (key_eqb_spec y x); congruence.
  - intros Hin. exists x. split; [assumption|apply key_eqb_refl].
Qed.

Lemma existsb_key_not_In (x : X) (l : list X) :
  existsb (fun y => key_eqb y x) l = false <-> ~ In x l.
Proof.
  rewrite <- existsb_key_In. destruct (existsb _ l); split; congruence.
Qed.

Lemma first_seen_snoc (l : list X) (x : X) :
  first_seen (l ++ [x])
  = if existsb (fun y => key_eqb y x) (first_seen l)
    then first_seen l
    else first_seen l ++ [x].
Proof. unfold first_seen. now rewrite fold_left_app. Qed.

Lemma first_seen_In (l : list X) (x : X) : In x (first_seen l) <-> In x l.
Proof.
  revert x. induction l as [|y l IH] using rev_ind; intros x; [reflexivity|].
  rewrite first_seen_snoc, in_app_iff. cbn [In].
  destruct (existsb (fun z => key_eqb z y) (first_seen l)) eqn:Hy.
  - apply existsb_key_In in Hy. apply IH in Hy. rewrite IH.
    split; [tauto|]. intros [Hin|[<-|[]]]; assumption.
  - rewrite in_app_iff, IH. cbn [In]. tauto.
Qed.

Lemma first_seen_NoDup (l : list X) : NoDup (first_seen l).
Proof.
  induction l as [|y l IH] using rev_ind; [constructor|].
  rewrite first_seen_snoc.
  destruct (existsb (fun z => key_eqb z y) (first_seen l)) eqn:Hy; [assumption|].
  apply existsb_key_not_In in Hy.
  apply NoDup_rev in IH. rewrite <- (rev_involutive (first_seen l ++ [y])).
  apply NoDup_rev. rewrite rev_app_distr. cbn [rev app].
  constructor; [|assumption]. now rewrite <- in_rev.
Qed.

End FirstSeenFacts.

(** ** Loops *)

Lemma for_each_app {S X : Type} (body : S -> X -> result S) (a b : list X) (s : S) :
  for_each body (a ++ b) s = (s' <- for_each body a s ;; for_each body b s').
Proof.
  revert s. induction a as [|x a IH]; intros s; cbn [app for_each bind];
    [reflexivity|].
  destruct (body s x) as [s'|e]; cbn [bind]; [apply IH|reflexivity].
Qed.

Lemma for_each_map {S X Y : Type} (body : S -> Y -> result S) (g : X -> Y)
  (l : list X) (s : S) :
  for_each body (List.map g l) s = for_each (fun s x => body s (g x)) l s.
Proof.
  revert s. induction l as [|x l IH]; intros s; cbn [List.map for_each];
    [reflexivity|].
  destruct (body s (g x)) as [s'|e]; cbn [bind]; [apply IH|reflexivity].
Qed.

(** ** Dictionaries tabulated from a list of keys *)

Section TabulatedDict.
Context {K V : Type} `{Hashable K}.

Definition tabulate (f : K -> V) (keys : list K) : dict K V :=
  List.map (fun k => (k, f k)) keys.

Lemma tabulate_keys (f : K -> V) (keys : list K) :
  dict_keys (tabulate f keys) = keys.
Proof.
  unfold dict_keys, tabulate. rewrite map_map. cbn [fst]. apply map_id.
Qed.

Lemma dict_get_tabulate (f : K -> V) (keys : list K) (k : K) :
  In k keys -> dict_get k (tabulate f keys) = Some (f k).
Proof.
  induction keys as [|k' keys IH]; cbn [tabulate List.map dict_get In]; [tauto|].
  intros Hin. destruct (key_eqb_spec k' k) as [->|Hne]; [reflexivity|].
  apply IH. tauto.
Qed.

Lemma dict_mem_tabulate (f : K -> V) (keys : list K) (k : K) :
  dict_mem k (tabulate f keys) = existsb (fun y => key_eqb y k) keys.
Proof.
  unfold dict_mem.
  induction keys as [|k' keys IH]; cbn [tabulate List.map dict_get existsb];
    [reflexivity|].
  destruct (key_eqb k' k); [reflexivity|exact IH].
Qed.

(** Assigning a key of the table changes the value at that key only. *)
Lemma dict_set_tabulate (f : K -> V) (keys : list K) (k : K) (v : V) :
  NoDup keys -> In k keys ->
  dict_set k v (tabulate f keys)
  = tabulate (fun k' => if key_eqb k' k then v else f k') keys.
Proof.
  induction keys as [|k' keys IH]; cbn [tabulate List.map dict_set In]; [tauto|].
  intros Hnd Hin. inversion Hnd as [|? ? Hfresh Hnd']; subst.
  destruct (key_eqb_spec k' k) as [->|Hne].
  - f_equal. apply map_ext_in. intros k' Hk'.
    rewrite key_eqb_neq; [reflexivity|]. intros ->. contradiction.
  - f_equal. apply IH; tauto.
Qed.

Lemma dict_set_unchanged (k : K) (v : V) (d : dict K V) :
  dict_get k d = Some v -> dict_set k v d = d.
Proof.
  induction d as [|[k' v'] d IH]; cbn [dict_get dict_set]; [discriminate|].
  destruct (key_eqb k' k); [now intros [= ->]|].
  intros Hget. now rewrite IH.
Qed.

(** Assigning pairs of distinct keys, none of them in the dictionary yet,
    appends them in order. *)
Lemma assign_all_fresh (items acc : dict K V) :
  NoDup (dict_keys items) ->
  (forall k, In k (dict_keys acc) -> ~ In k (dict_keys items)) ->
  fold_left (fun d (item : K * V) => dict_set (fst item) (snd item) d) items acc
  = acc ++ items.
Proof.
  revert acc. induction items as [|[k v] tl IH]; intros acc Hnd Hdisj;
    cbn [fold_left fst snd]; [now rewrite app_nil_r|].
  inversion Hnd as [|? ? Hfresh Hnd']; subst.
  assert (Hk : ~ In k (dict_keys acc))
    by (intros Hin; apply (Hdisj _ Hin); now left).
  rewrite dict_set_fresh by exact Hk.
  rewrite IH; [now rewrite <- app_assoc|assumption|].
  intros k' Hin Htl. unfold dict_keys in Hin. rewrite map_app in Hin.
  apply in_app_or in Hin. destruct Hin as [Hin|[<-|[]]].
  - apply (Hdisj _ Hin). now right.
  - now apply Hfresh.
Qed.

End TabulatedDict.

(** ** The stable descending sort *)

Section SortFacts.
Context {X : Type}.

Lemma insert_desc_perm (x : Z * X) (l : list (Z * X)) :
  Permutation (insert_desc x l) (x :: l).
Proof.
  induction l as [|y tl IH]; cbn [insert_desc]; [reflexivity|].
  destruct (fst x <? fst y); [|reflexivity].
  rewrite IH. apply perm_swap.
Qed.

Lemma sorted_desc_perm (l : list (Z * X)) : Permutation (sorted_desc l) l.
Proof.
  induction l as [|x l IH]; cbn [sorted_desc fold_right]; [reflexivity|].
  fold (sorted_desc l). rewrite insert_desc_perm. now constructor.
Qed.

Definition descending (l : list (Z * X)) : Prop :=
  StronglySorted (fun a b => fst b <= fst a) l.

Lemma insert_desc_descending (x : Z * X) (l : list (Z * X)) :
  descending l -> descending (insert_desc x l).
Proof.
  unfold descending. induction 1 as [|y tl Hs IH Hy]; cbn [insert_desc].
  - repeat constructor.
  - destruct (Z.ltb_spec (fst x) (fst y)).
    + constructor; [assumption|].
      apply (Permutation_Forall (Permutation_sym (insert_desc_perm x tl))).
      constructor; [lia|assumption].
    + constructor; [now constructor|].
      constructor; [assumption|].
      eapply Forall_impl; [|exact Hy]. cbv beta. intros b Hb. lia.
Qed.

Lemma sorted_desc_descending (l : list (Z * X)) : descending (sorted_desc l).
Proof.
  induction l as [|x l IH]; cbn [sorted_desc fold_right]; [constructor|].
  now apply insert_desc_descending.
Qed.

(** Stability: the items of any one key come out in the order they came
    in. *)
Lemma insert_desc_stable (z : Z) (x : Z * X) (l : list (Z * X)) :
  filter (fun p => fst p =? z) (insert_desc x l)
  = filter (fun p => fst p =? z) (x :: l).
Proof.
  induction l as [|y tl IH]; cbn [insert_desc]; [reflexivity|].
  destruct (Z.ltb_spec (fst x) (fst y)); [|reflexivity].
  cbn [filter] in *. rewrite IH.
  destruct (Z.eqb_spec (fst y) z), (Z.eqb_spec (fst x) z);
    try reflexivity; lia.
Qed.

Lemma sorted_desc_stable (z : Z) (l : list (Z * X)) :
  filter (fun p => fst p =? z) (sorted_desc l) = filter (fun p => fst p =? z) l.
Proof.
  induction l as [|x l IH]; cbn [sorted_desc fold_right]; [reflexivity|].
  fold (sorted_desc l). rewrite insert_desc_stable. cbn [filter].
  now rewrite IH.
Qed.

(** Sorting items decorated with their keys, then dropping the keys. *)
Definition sorted_by (key : X -> Z) (l : list X) : list X :=
  List.map snd (sorted_desc (List.map (fun x => (key x, x)) l)).

Lemma decorated_sorted (key : X -> Z) (l : list X) :
  Forall (fun p => fst p = key (snd p))
    (sorted_desc (List.map (fun x => (key x, x)) l)).
Proof.
  apply (Permutation_Forall (Permutation_sym (sorted_desc_perm _))).
  apply Forall_forall. intros p Hin. apply in_map_iff in Hin.
  now destruct Hin as (x & <- & _).
Qed.

Lemma sorted_by_perm (key : X -> Z) (l : list X) :
  Permutation (sorted_by key l) l.
Proof.
  unfold sorted_by. rewrite sorted_desc_perm, map_map. cbn [snd].
  now rewrite map_id.
Qed.

Lemma sorted_by_descending (key : X -> Z) (l : list X) :
  StronglySorted (fun a b => key b <= key a) (sorted_by key l).
Proof.
  unfold sorted_by.
  pose proof (decorated_sorted key l) as Hdec.
  pose proof (sorted_desc_descending (List.map (fun x => (key x, x)) l)) as Hs.
  unfold descending in Hs.
  induction Hs as [|p tl Hs IH Hp]; cbn [List.map]; [constructor|].
  inversion Hdec as [|? ? Hp0 Hdec']; subst.
  constructor; [now apply IH|].
  rewrite Forall_forall in *. intros b Hb. apply in_map_iff in Hb.
  destruct Hb as (q & <- & Hq).
  rewrite <- Hp0, <- (Hdec' _ Hq). now apply Hp.
Qed.

Lemma sorted_by_stable (key : X -> Z) (z : Z) (l : list X) :
  filter (fun x => key x =? z) (sorted_by key l) = filter (fun x => key x =? z) l.
Proof.
  unfold sorted_by.
  assert (Hcomm : forall L : list (Z * X),
             Forall (fun p => fst p = key (snd p)) L ->
             filter (fun x => key x =? z) (List.map snd L)
             = List.map snd (filter (fun p => fst p =? z) L)).
  { induction 1 as [|p L Hp _ IH]; cbn [List.map filter]; [reflexivity|].
    rewrite <- Hp. destruct (fst p =? z); cbn [List.map]; now rewrite IH. }
  rewrite Hcomm by apply decorated_sorted.
  rewrite sorted_desc_stable, <- Hcomm.
  - rewrite map_map. cbn [snd]. now rewrite map_id.
  - apply Forall_forall. intros p Hin. apply in_map_iff in Hin.
    now destruct Hin as (x & <- & _).
Qed.

End SortFacts.

(** ** Counting *)

Lemma fold_left_add (l : list Z) (a : Z) :
  fold_left Z.add l a = a + fold_right Z.add 0 l.
Proof.
  revert a. induction l as [|x l IH]; intros a; cbn [fold_left fold_right];
    [lia|].
  rewrite IH. lia.
Qed.

Lemma sum_map_add {X : Type} (f g : X -> Z) (l : list X) :
  fold_right Z.add 0 (List.map (fun x => f x + g x) l)
  = fold_right Z.add 0 (List.map f l) + fold_right Z.add 0 (List.map g l).
Proof.
  induction l as [|x l IH]; cbn [List.map fold_right]; [reflexivity|].
  rewrite IH. lia.
Qed.

(** A key that is in a duplicate-free list is met once. *)
Lemma sum_indicator (t0 : pystr) (b : bool) (ts : list pystr) :
  NoDup ts -> In t0 ts ->
  fold_right Z.add 0
    (List.map (fun t => if str_eqb t0 t && b then 1 else 0) ts)
  = if b then 1 else 0.
Proof.
  induction 1 as [|t ts Hfresh Hnd IH]; cbn [In List.map fold_right]; [tauto|].
  intros [->|Hin].
  - rewrite str_eqb_refl. cbn [andb].
    replace (fold_right Z.add 0
               (List.map (fun t => if str_eqb t0 t && b then 1 else 0) ts))
      with 0; [lia|].
    clear IH Hnd. induction ts as [|t ts IH]; cbn [List.map fold_right];
      [reflexivity|].
    destruct (str_eqb_spec t0 t) as [->|_].
    + destruct Hfresh. now left.
    + cbn [andb]. rewrite <- IH; [reflexivity|].
      intros Hin. apply Hfresh. now right.
  - rewrite (IH Hin). destruct (str_eqb_spec t0 t) as [->|_]; [contradiction|].
    cbn [andb]. lia.
Qed.

Section AnalyzeFacts.
Context {Page K : Type} `{Hashable K}.
Variable source : Page -> K.

(** The counts of one source, one per topic in first-encounter order of the
    topic list. *)
Definition row (topics : list pystr) (recs : list (pystr * K)) (src : K)
  : dict pystr Z :=
  tabulate (fun topic => appearances recs topic src) (first_seen topics).

(** The dictionary [sources] after the records [recs] have been counted. *)
Definition tally (topics : list pystr) (recs : list (pystr * K))
  : dict K (dict pystr Z) :=
  tabulate (row topics recs) (first_seen (List.map snd recs)).

Lemma zero_counts_tabulate (topics : list pystr) :
  zero_counts topics = tabulate (fun _ => 0) (first_seen topics).
Proof.
  unfold zero_counts.
  induction topics as [|t ts IH] using rev_ind; [reflexivity|].
  rewrite fold_left_app, IH, first_seen_snoc. cbn [fold_left].
  destruct (existsb (fun y => key_eqb y t) (first_seen ts)) eqn:Ht.
  - apply existsb_key_In in Ht. apply dict_set_unchanged.
    now apply (dict_get_tabulate (fun _ => 0)).
  - apply existsb_key_not_In in Ht.
    rewrite dict_set_fresh by now rewrite tabulate_keys.
    unfold tabulate. now rewrite map_app.
Qed.

Lemma appearances_app (a b : list (pystr * K)) (topic : pystr) (src : K) :
  appearances (a ++ b) topic src = appearances a topic src + appearances b topic src.
Proof.
  induction a as [|[t s] a IH]; cbn [app appearances]; [reflexivity|].
  rewrite IH. lia.
Qed.

Lemma appearances_absent (recs : list (pystr * K)) (topic : pystr) (src : K) :
  ~ In src (List.map snd recs) -> appearances recs topic src = 0.
Proof.
  induction recs as [|[t s] recs IH]; cbn [List.map snd In appearances];
    [reflexivity|].
  intros Hno. rewrite key_eqb_neq by tauto. rewrite andb_false_r, IH; tauto.
Qed.

(** The nested loops visit the records in the order of [records]. *)
Lemma count_loop_records (topics : list pystr) (results : dict pystr (list Page)) :
  count_loop source topics results
  = for_each (fun sources (r : pystr * K) => count_page snd topics (fst r) sources r)
      (records source results) [].
Proof.
  unfold count_loop, records. generalize (@nil (K * dict pystr Z)) as sources.
  induction results as [|[topic pages] tl IH]; intros sources;
    cbn [for_each flat_map fst snd]; [reflexivity|].
  rewrite for_each_app, for_each_map.
  change (fun (s : dict K (dict pystr Z)) (x : Page) =>
            count_page snd topics (fst (topic, source x)) s (topic, source x))
    with (count_page source topics topic).
  destruct (for_each (count_page source topics topic) pages sources);
    cbn [bind]; [apply IH|reflexivity].
Qed.

(** One more record of a listed topic. *)
Lemma count_page_tally (topics : list pystr) (done : list (pystr * K))
  (topic : pystr) (src : K) :
  In topic topics ->
  count_page snd topics topic (tally topics done) (topic, src)
  = Ok (tally topics (done ++ [(topic, src)])).
Proof.
  intros Htopic. unfold count_page. cbn [snd].
  assert (Hsources :
            (if dict_mem src (tally topics done)
             then tally topics done
             else dict_set src (zero_counts topics) (tally topics done))
            = tabulate (row topics done)
                (first_seen (List.map snd (done ++ [(topic, src)])))).
  { unfold tally. rewrite dict_mem_tabulate.
    rewrite map_app. cbn [List.map snd]. rewrite first_seen_snoc.
    destruct (existsb (fun y => key_eqb y src) (first_seen (List.map snd done)))
      eqn:Hsrc; [reflexivity|].
    apply existsb_key_not_In in Hsrc.
    rewrite dict_set_fresh by now rewrite tabulate_keys.
    unfold tabulate at 2. rewrite map_app. cbn [List.map].
    fold (tabulate (row topics done) (first_seen (List.map snd done))).
    do 3 f_equal.
    rewrite zero_counts_tabulate. unfold row. apply map_ext. intros t.
    rewrite appearances_absent; [reflexivity|].
    now rewrite <- first_seen_In. }
  rewrite Hsources. clear Hsources.
  assert (Hin : In src (first_seen (List.map snd (done ++ [(topic, src)])))).
  { rewrite first_seen_In, map_app, in_app_iff. right. now left. }
  unfold dict_item at 1. rewrite (dict_get_tabulate _ _ _ Hin). cbn [bind].
  unfold dict_item, row at 1.
  rewrite dict_get_tabulate by now rewrite first_seen_In. cbn [bind].
  f_equal. unfold row at 1.
  rewrite (@dict_set_tabulate pystr Z _
             (fun t => appearances done t src) (first_seen topics));
    [|apply first_seen_NoDup|now rewrite first_seen_In].
  rewrite dict_set_tabulate; [|apply first_seen_NoDup|assumption].
  unfold tally. apply map_ext. intros k'. f_equal.
  unfold row. destruct (key_eqb_spec k' src) as [->|Hk'].
  - apply map_ext. intros t'. f_equal. rewrite appearances_app.
    cbn [appearances key_eqb pystr_hashable]. rewrite key_eqb_refl.
    rewrite (str_eqb_sym t' topic).
    destruct (str_eqb_spec topic t') as [->|_]; cbn [andb]; lia.
  - apply map_ext. intros t'. f_equal. rewrite appearances_app.
    cbn [appearances]. rewrite (key_eqb_neq (a := src) (b := k')) by congruence.
    rewrite andb_false_r. lia.
Qed.

(** When every record stands under a listed topic, counting succeeds and
    leaves the tally. *)
Lemma count_records_tally (topics : list pystr) (recs : list (pystr * K)) :
  (forall r, In r recs -> In (fst r) topics) ->
  for_each (fun sources (r : pystr * K) => count_page snd topics (fst r) sources r)
    recs []
  = Ok (tally topics recs).
Proof.
  induction recs as [|[topic src] done IH] using rev_ind; intros Hall;
    [reflexivity|].
  rewrite for_each_app, IH; cbn [bind for_each fst].
  - rewrite count_page_tally; [reflexivity|].
    apply (Hall (topic, src)). apply in_or_app. right. now left.
  - intros r Hr. apply Hall. apply in_or_app. now left.
Qed.

(** The counts of a source add up to the number of its records. *)
Lemma row_sum (topics : list pystr) (recs : list (pystr * K)) (src : K) :
  (forall r, In r recs -> In (fst r) topics) ->
  fold_right Z.add 0
    (List.map (fun topic => appearances recs topic src) (first_seen topics))
  = results_of recs src.
Proof.
  induction recs as [|[t s] recs IH]; intros Hall; cbn [appearances results_of].
  - induction (first_seen topics) as [|x l IHl]; cbn [List.map fold_right];
      [reflexivity|now rewrite IHl].
  - rewrite sum_map_add, IH by (intros r Hr; apply Hall; now right).
    rewrite sum_indicator; [reflexivity|apply first_seen_NoDup|].
    apply first_seen_In. apply (Hall (t, s)). now left.
Qed.

Lemma with_total_total (counts : dict pystr Z) :
  dict_get total_key (with_total counts)
  = Some (fold_right Z.add 0 (dict_values counts)).
Proof.
  unfold with_total. now rewrite dict_get_set_same, fold_left_add.
Qed.

Lemma with_total_other (counts : dict pystr Z) (topic : pystr) :
  topic <> total_key ->
  dict_get topic (with_total counts) = dict_get topic counts.
Proof. intros Hne. unfold with_total. now apply dict_get_set_other. Qed.

Lemma sort_keys_add_totals (sources : dict K (dict pystr Z)) :
  sort_keys (add_totals sources)
  = Ok (List.map (fun entry => (total_of entry, entry)) (add_totals sources)).
Proof.
  induction sources as [|[k counts] tl IH];
    cbn [add_totals List.map sort_keys fst snd]; [reflexivity|].
  fold (add_totals tl). rewrite IH.
  unfold dict_item, total_of. cbn [snd]. now rewrite with_total_total.
Qed.

(** The entries of the breakdown before sorting, in first-encounter order
    of the sources. *)
Definition entries (topics : list pystr) (recs : list (pystr * K))
  : dict K (dict pystr Z) :=
  tabulate (fun src => with_total (row topics recs src))
    (first_seen (List.map snd recs)).

Lemma add_totals_tally (topics : list pystr) (recs : list (pystr * K)) :
  add_totals (tally topics recs) = entries topics recs.
Proof.
  unfold add_totals, tally, entries, tabulate. rewrite map_map. reflexivity.
Qed.

Lemma ordered_dict_distinct (pairs : list (K * dict pystr Z)) :
  NoDup (dict_keys pairs) -> ordered_dict pairs = pairs.
Proof.
  intros Hnd. unfold ordered_dict.
  rewrite assign_all_fresh; [reflexivity|assumption|intros k []].
Qed.

(** When every record stands under a listed topic, [analyze_sources]
    returns the entries sorted by their totals. *)
Lemma analyze_sources_sorted_entries
  (results : dict pystr (list Page)) (topics : list pystr) :
  (forall r, In r (records source results) -> In (fst r) topics) ->
  analyze_sources source results topics
  = Ok (sorted_by total_of (entries topics (records source results))).
Proof.
  intros Hall. unfold analyze_sources.
  rewrite count_loop_records, (count_records_tally _ _ Hall). cbn [bind].
  rewrite sort_keys_add_totals. cbn [bind]. rewrite add_totals_tally.
  fold (sorted_by total_of (entries topics (records source results))).
  f_equal. apply ordered_dict_distinct.
  apply (Permutation_NoDup
           (l := dict_keys (entries topics (records source results)))).
  - unfold dict_keys. apply Permutation_map, Permutation_sym, sorted_by_perm.
  - unfold entries. rewrite tabulate_keys. apply first_seen_NoDup.
Qed.

Lemma total_of_entry (topics : list pystr) (recs : list (pystr * K)) (src : K) :
  (forall r, In r recs -> In (fst r) topics) ->
  total_of (src, with_total (row topics recs src)) = results_of recs src.
Proof.
  intros Hall. unfold total_of. cbn [snd]. rewrite with_total_total.
  unfold row, dict_values, tabulate. rewrite map_map. cbn [snd].
  now apply row_sum.
Qed.

End AnalyzeFacts.

(** C2, as the code has it.  When every query that has a record occurs in
    the query list, [analyze_sources] returns a breakdown in which every
    source met appears once; the entry of a source holds, for every listed
    query other than the key ["total"], the number of the source's records
    under that query (0 when there is none, never a missing key), and under
    ["total"] the sum of these counts, which is the number of records of the
    source; the entries are ordered by total, non-increasing, and the sources
    of any one total stand in first-encounter order.  The specification's
    example gives [{"q1": 2, "q2": 0, "total": 2}] for ["X"], and in a
    scenario with three sources tied at 2 the tied sources keep their
    order. *)
Theorem analyze_sources_breakdown {Page K : Type} `{Hashable K}
  (source : Page -> K) (results : dict pystr (list Page)) (topics : list pystr) :
  (forall r, In r (records source results) -> In (fst r) topics) ->
  exists breakdown,
    analyze_sources source results topics = Ok breakdown
    /\ Permutation (dict_keys breakdown)
         (first_seen (List.map snd (records source results)))
    /\ (forall src counts,
          In (src, counts) breakdown ->
          (forall topic,
              In topic topics -> topic <> total_key ->
              dict_get topic counts
              = Some (appearances (records source results) topic src))
          /\ dict_get total_key counts
             = Some (results_of (records source results) src)
          /\ results_of (records source results) src
             = fold_right Z.add 0
                 (List.map
                    (fun topic => appearances (records source results) topic src)
                    (first_seen topics)))
    /\ StronglySorted (fun a b => total_of b <= total_of a) breakdown
    /\ (forall z,
          List.map fst (filter (fun entry => total_of entry =? z) breakdown)
          = filter (fun src => results_of (records source results) src =? z)
              (first_seen (List.map snd (records source results))))
    /\ analyze_sources (fun page : pystr => page)
         [(lit "q1", [lit "X"; lit "X"]); (lit "q2", [])] [lit "q1"; lit "q2"]
       = Ok [(lit "X", [(lit "q1", 2); (lit "q2", 0); (lit "total", 2)])]
    /\ List.map (fun entry => (fst entry, total_of entry))
         match analyze_sources (fun page : pystr => page)
                 [(lit "q1", [lit "X"; lit "Y"; lit "W"; lit "Y"]);
                  (lit "q2", [lit "W"; lit "V"; lit "V"])]
                 [lit "q1"; lit "q2"]
         with
         | Ok breakdown' => breakdown'
         | Raise _ => []
         end
       = [(lit "Y", 2); (lit "W", 2); (lit "V", 2); (lit "X", 1)].
Proof.
  intros Hall. set (recs := records source results) in *.
  exists (sorted_by total_of (entries topics recs)).
  pose proof (sorted_by_perm total_of (entries topics recs)) as Hperm.
  split; [now apply analyze_sources_sorted_entries|].
  split.
  { unfold dict_keys. rewrite Hperm. fold (dict_keys (entries topics recs)).
    unfold entries. now rewrite tabulate_keys. }
  split.
  { intros src counts Hin. apply (Permutation_in _ Hperm) in Hin.
    unfold entries, tabulate in Hin. apply in_map_iff in Hin.
    destruct Hin as (src' & [= -> <-] & _).
    split; [|split].
    - intros topic Htopic Hne. rewrite with_total_other by assumption.
      unfold row.
      apply (dict_get_tabulate (fun t => appearances recs t src)).
      now apply first_seen_In.
    - pose proof (total_of_entry topics recs src Hall) as Htot.
      unfold total_of in Htot. cbn [snd] in Htot.
      rewrite with_total_total in *. now f_equal.
    - symmetry. now apply row_sum. }
  split.
  { apply sorted_by_descending. }
  split; [|split; reflexivity].
  intros z. rewrite sorted_by_stable. unfold entries, tabulate.
  induction (first_seen (List.map snd recs)) as [|src l IH];
    cbn [List.map filter]; [reflexivity|].
  rewrite (total_of_entry topics recs src Hall).
  destruct (results_of recs src =? z); cbn [List.map fst]; now rewrite IH.
Qed.

(** Two queries, three sources. *)
Lemma analyze_sources_breakdown_witness :
  (forall r,
      In r (records (fun page : pystr => page)
              [(lit "a", [lit "S"; lit "T"]); (lit "b", [lit "T"; lit "U"])]) ->
      In (fst r) [lit "a"; lit "b"])
  /\ exists breakdown,
       analyze_sources (fun page : pystr => page)
         [(lit "a", [lit "S"; lit "T"]); (lit "b", [lit "T"; lit "U"])]
         [lit "a"; lit "b"] = Ok breakdown
       /\ List.map (fun entry => (fst entry, total_of entry)) breakdown
          = [(lit "T", 2); (lit "S", 1); (lit "U", 1)].
Proof.
  assert (Hall : forall r,
             In r (records (fun page : pystr => page)
                     [(lit "a", [lit "S"; lit "T"]); (lit "b", [lit "T"; lit "U"])]) ->
             In (fst r) [lit "a"; lit "b"]).
  { cbn. intros r [<-|[<-|[<-|[<-|[]]]]]; cbn; tauto. }
  split; [exact Hall|].
  destruct (analyze_sources_breakdown (fun page : pystr => page)
              [(lit "a", [lit "S"; lit "T"]); (lit "b", [lit "T"; lit "U"])]
              [lit "a"; lit "b"] Hall)
    as (breakdown & Hrun & _).
  exists breakdown. split; [exact Hrun|].
  vm_compute in Hrun. injection Hrun as <-. reflexivity.
Defined.

(** The claim C2 as it is stated fails for a mapping with a record under a
    query that the list lacks: the increment of a count that was never
    initialized raises [KeyError].  And for a query that is itself called
    ["total"] the count is replaced by the sum: with one record of ["X"]
    under ["total"] and one under ["q"], the entry holds 2 under
    ["total"]. *)
Lemma analyze_sources_unlisted_query :
  analyze_sources (fun page : pystr => page) [(lit "q3", [lit "X"])] [lit "q1"]
  = Raise KeyError
  /\ analyze_sources (fun page : pystr => page)
       [(lit "total", [lit "X"]); (lit "q", [lit "X"])] [lit "total"; lit "q"]
     = Ok [(lit "X", [(lit "total", 2); (lit "q", 1)])]
  /\ appearances [(lit "total", lit "X"); (lit "q", lit "X")] (lit "total") (lit "X")
     = 1.
Proof. repeat split. Qed.

(* ================================================================== *)
(** * Properties of the candidate loop of [search] *)
(* ================================================================== *)

Section SearchFacts.
Context {U : Interpreter}.

(** While no candidate raises, the loop appends the emitted records and
    counts them. *)
Lemma search_loop_emits (now : Z) (candidates : list json) :
  forall results self,
    Forall (fun c => exists found, video_result now c = Ok found) candidates ->
    for_each (search_step now) candidates (results, self)
    = Ok (results ++ emitted now candidates,
          Scraper (pages_total self)
            (results_total self + len (emitted now candidates))).
Proof.
  induction candidates as [|c tl IH]; intros results self Hall;
    cbn [for_each emitted flat_map].
  - rewrite app_nil_r, Z.add_0_r. now destruct self.
  - inversion Hall as [|? ? [found Hc] Htl]; subst.
    unfold search_step at 1. rewrite Hc. cbn [bind].
    fold (emitted now tl).
    destruct found as [record|]; cbn [bind]; rewrite (IH _ _ Htl); cbn [app];
      [|reflexivity].
    rewrite <- app_assoc. cbn [app pages_total results_total].
    do 3 f_equal. unfold len. cbn [List.length]. lia.
Qed.

(** A result of the loop is made of the emitted records. *)
Lemma search_loop_inv (now : Z) (candidates : list json) :
  forall results self out self',
    for_each (search_step now) candidates (results, self) = Ok (out, self') ->
    out = results ++ emitted now candidates
    /\ Forall (fun c => exists found, video_result now c = Ok found) candidates.
Proof.
  induction candidates as [|c tl IH]; intros results self out self';
    cbn [for_each emitted flat_map].
  - intros [= <- <-]. now rewrite app_nil_r.
  - unfold search_step at 1.
    destruct (video_result now c) as [found|e] eqn:Hc; cbn [bind];
      [|discriminate].
    fold (emitted now tl).
    destruct found as [record|]; intros Hrun; apply IH in Hrun;
      destruct Hrun as [-> Htl]; (split; [|constructor; eauto]).
    + now rewrite <- app_assoc.
    + reflexivity.
Qed.

Lemma video_result_unpublished (now : Z) (items : list (pystr * json)) :
  dict_mem (lit "publishedTimeText") items = false ->
  video_result now (JDict items) = Ok None.
Proof. intros Hpub. unfold video_result. cbn [py_in bind]. now rewrite Hpub. Qed.

(** The length of an emitted record. *)
Lemma video_result_length (now : Z) (video_renderer : json) (record : result_record) :
  video_result now video_renderer = Ok (Some record) ->
  py_in (lit "publishedTimeText") video_renderer = Ok true
  /\ exists overlay,
       first_overlay video_renderer = Ok overlay
       /\ ((py_in (lit "thumbnailOverlayTimeStatusRenderer") overlay = Ok false
            /\ length record = JStr (lit "LIVE"))
           \/ (py_in (lit "thumbnailOverlayTimeStatusRenderer") overlay = Ok true
               /\ overlay_text overlay = Ok (length record))).
Proof.
  unfold video_result. intros Hrun.
  destruct (py_in (lit "publishedTimeText") video_renderer) as [[|]|] eqn:Hpub;
    cbn [bind] in Hrun; try discriminate.
  split; [reflexivity|].
  destruct (first_overlay video_renderer) as [overlay|] eqn:Hov;
    cbn [bind] in Hrun; [|discriminate].
  exists overlay. split; [reflexivity|].
  destruct (py_in (lit "thumbnailOverlayTimeStatusRenderer") overlay)
    as [[|]|] eqn:Htimed; cbn [bind] in Hrun; [| |discriminate].
  - right. split; [reflexivity|].
    destruct (overlay_text overlay) as [text|]; cbn [bind] in Hrun;
      [|discriminate].
    repeat match type of Hrun with
           | context [bind ?m _] => destruct m; cbn [bind] in Hrun;
                                    [|discriminate]
           end.
    now injection Hrun as <-.
  - left. split; [reflexivity|].
    repeat match type of Hrun with
           | context [bind ?m _] => destruct m; cbn [bind] in Hrun;
                                    [|discriminate]
           end.
    now injection Hrun as <-.
Qed.

(** A well-formed entry whose published time is understood is emitted. *)
Lemma video_result_entry (now : Z) (video_id owner name published : pystr)
  (duration : option pystr) (n : Z) :
  age_to_seconds now published = Ok n ->
  video_result now (video_entry video_id owner name published duration)
  = Ok (Some (ResultRecord now 1 published n (JStr owner) (JStr name)
                (JStr video_id)
                match duration with
                | Some text => JStr text
                | None => JStr (lit "LIVE")
                end)).
Proof.
  intros Hage. destruct duration as [text|];
    cbv -[age_to_seconds]; rewrite Hage; reflexivity.
Qed.

End SearchFacts.

(** C5, as the code has it.  For a candidate that is a mapping: without the
    key ["publishedTimeText"] it is passed over, with no record and no
    error; when it yields a record, it has that key, its first thumbnail
    overlay exists, and the record's length is ["LIVE"] if that overlay
    lacks ["thumbnailOverlayTimeStatusRenderer"], and the overlay's text if
    it holds it.  The result of [search] is made of the records of the
    candidates not passed over, in the order of the traversal, and [search]
    returns them whenever no candidate raises.  A well-formed entry whose
    published time is understood yields its record; on the example page the
    channel card is passed over, the livestream gets ["LIVE"] and the video
    its duration. *)
Theorem search_published_and_length {U : Interpreter}
  (now : Z) (items : list (pystr * json)) :
  (dict_mem (lit "publishedTimeText") items = false ->
   video_result now (JDict items) = Ok None
   /\ forall rest_of_page, emitted now (JDict items :: rest_of_page)
                           = emitted now rest_of_page)
  /\ (forall record,
         video_result now (JDict items) = Ok (Some record) ->
         dict_mem (lit "publishedTimeText") items = true
         /\ exists overlay,
              first_overlay (JDict items) = Ok overlay
              /\ ((py_in (lit "thumbnailOverlayTimeStatusRenderer") overlay
                   = Ok false
                   /\ length record = JStr (lit "LIVE"))
                  \/ (py_in (lit "thumbnailOverlayTimeStatusRenderer") overlay
                      = Ok true
                      /\ overlay_text overlay = Ok (length record))))
  /\ (forall self initial_data out self',
         search now self initial_data = Ok (out, self') ->
         out = emitted now (gen_dict_extract (lit "videoRenderer") initial_data))
  /\ (forall self initial_data,
         Forall (fun c => exists found, video_result now c = Ok found)
           (gen_dict_extract (lit "videoRenderer") initial_data) ->
         search now self initial_data
         = Ok (emitted now (gen_dict_extract (lit "videoRenderer") initial_data),
               Scraper (pages_total self + 1)
                 (results_total self
                  + len (emitted now
                           (gen_dict_extract (lit "videoRenderer") initial_data)))))
  /\ (forall video_id owner name published duration n,
         age_to_seconds now published = Ok n ->
         video_result now (video_entry video_id owner name published duration)
         = Ok (Some (ResultRecord now 1 published n (JStr owner) (JStr name)
                       (JStr video_id)
                       match duration with
                       | Some text => JStr text
                       | None => JStr (lit "LIVE")
                       end)))
  /\ search now (Scraper 0 0) example_page
     = Ok ([ ResultRecord now 1 (lit "vor 2 Stunden") 7200
               (JStr (lit "Kanal A")) (JStr (lit "Jetzt live"))
               (JStr (lit "v1")) (JStr (lit "LIVE"));
             ResultRecord now 1 (lit "vor 3 Tagen") 259200
               (JStr (lit "Kanal B")) (JStr (lit "Ein Video"))
               (JStr (lit "v2")) (JStr (lit "12:34")) ],
           Scraper 1 2).
Proof.
  split.
  { intros Hpub. pose proof (video_result_unpublished now _ Hpub) as Hskip.
    split; [assumption|]. intros rest_of_page.
    unfold emitted. cbn [flat_map]. now rewrite Hskip. }
  split.
  { intros record Hrun. destruct (video_result_length _ _ Hrun) as [Hpub Hlen].
    split; [|assumption]. cbn [py_in] in Hpub. congruence. }
  split.
  { intros self initial_data out self' Hrun.
    apply (search_loop_inv now _ [] _) in Hrun. now destruct Hrun. }
  split.
  { intros self initial_data Hall.
    exact (search_loop_emits now []
             (Scraper (pages_total self + 1) (results_total self)) Hall). }
  split; [intros; now apply video_result_entry|].
  reflexivity.
Qed.

(** A channel card: a candidate without published time. *)
Lemma search_published_and_length_witness :
  dict_mem (lit "publishedTimeText")
    [(lit "videoId", JStr (lit "c0")); (lit "title", JStr (lit "a channel"))]
  = false
  /\ @video_result ascii_interpreter 0
       (JDict [(lit "videoId", JStr (lit "c0"));
               (lit "title", JStr (lit "a channel"))])
     = Ok None.
Proof.
  split; [reflexivity|].
  apply (proj1 (@search_published_and_length ascii_interpreter 0
                  [(lit "videoId", JStr (lit "c0"));
                   (lit "title", JStr (lit "a channel"))])).
  reflexivity.
Defined.

(** The claim C5 as it is stated fails for a candidate that is no mapping:
    the traversal yields whatever value stands under ["videoRenderer"], and
    on [null] (as on a number or a boolean) the membership test raises
    [TypeError], so the candidate is not passed over in silence. *)
Lemma search_candidate_not_a_mapping :
  gen_dict_extract (lit "videoRenderer") (JDict [(lit "videoRenderer", JNull)])
  = [JNull]
  /\ @search ascii_interpreter 0 (Scraper 0 0) (JDict [(lit "videoRenderer", JNull)])
     = Raise TypeError.
Proof. split; reflexivity. Qed.

(* ================================================================== *)
(** * More on [trim_results] *)
(* ================================================================== *)

Section TrimMore.
Context {A : Type}.

(** The number of records of a mapping. *)
Definition record_count (results : dict pystr (list A)) : Z :=
  fold_right (fun (item : pystr * list A) n => len (snd item) + n) 0 results.

(** What [trim_results] does to one item with the bound [n]. *)
Definition cut (n : Z) (item : pystr * list A) : pystr * list A :=
  (fst item, slice_to n (snd item)).

Lemma running_min_le (results : dict pystr (list A)) (m : Z) :
  running_min results m <= m
  /\ forall item, In item results -> running_min results m <= len (snd item).
Proof.
  revert m. induction results as [|item tl IH]; intros m.
  - split; [reflexivity|intros item []].
  - change (running_min (item :: tl) m)
      with (running_min tl (Z.min (len (snd item)) m)).
    destruct (IH (Z.min (len (snd item)) m)) as [Hle Hall].
    split; [lia|]. intros item' [<-|Hin]; [lia|now apply Hall].
Qed.

Lemma running_min_nonneg (results : dict pystr (list A)) (m : Z) :
  0 <= m -> 0 <= running_min results m.
Proof.
  revert m. induction results as [|item tl IH]; intros m Hm; [exact Hm|].
  change (running_min (item :: tl) m)
    with (running_min tl (Z.min (len (snd item)) m)).
  apply IH. unfold len. lia.
Qed.

(** A bound that no sequence undercuts stays. *)
Lemma running_min_fixed (results : dict pystr (list A)) (m : Z) :
  (forall item, In item results -> m <= len (snd item)) ->
  running_min results m = m.
Proof.
  revert m. induction results as [|item tl IH]; intros m Hall; [reflexivity|].
  change (running_min (item :: tl) m)
    with (running_min tl (Z.min (len (snd item)) m)).
  rewrite Z.min_r by (apply Hall; now left).
  apply IH. intros item' Hin. apply Hall. now right.
Qed.

(** The returned pair, for distinct topics. *)
Lemma trim_results_fst (results : dict pystr (list A)) (m : Z) :
  NoDup (dict_keys results) ->
  fst (trim_results results m)
  = (List.map (cut (running_min results m)) results, running_min results m).
Proof.
  intros Hnd. unfold trim_results.
  pose proof (shortest_loop_min results 0 m) as Hmin.
  destruct (shortest_loop results 0 m) as [count n]. cbn [snd] in Hmin. subst n.
  pose proof (@slice_loop_map A results (running_min results m) Hnd) as Hmap.
  destruct (slice_loop results (running_min results m)) as [count' new_results].
  cbn [fst snd] in *. now subst new_results.
Qed.

Lemma cut_keys (n : Z) (results : dict pystr (list A)) :
  dict_keys (List.map (cut n) results) = dict_keys results.
Proof. unfold dict_keys. rewrite map_map. reflexivity. Qed.

Lemma slice_to_prefix (n : Z) (res : list A) :
  exists k, slice_to n res = firstn k res.
Proof. unfold slice_to. destruct (n <? 0); eauto. Qed.

Lemma len_slice_to (n : Z) (res : list A) :
  0 <= n <= len res -> len (slice_to n res) = n.
Proof.
  intros Hn. rewrite slice_to_firstn by lia. now apply len_firstn.
Qed.

Lemma slice_to_all (n : Z) (res : list A) :
  len res <= n -> slice_to n res = res.
Proof.
  intros Hn. unfold len in Hn. rewrite slice_to_firstn by lia.
  apply firstn_all2. lia.
Qed.

(** Cutting to [n] sequences that all have at least [n] records leaves
    them with [n] records each. *)
Lemma cut_lengths (n : Z) (results : dict pystr (list A)) :
  0 <= n -> (forall item, In item results -> n <= len (snd item)) ->
  forall item, In item (List.map (cut n) results) -> len (snd item) = n.
Proof.
  intros Hn Hall item Hin. apply in_map_iff in Hin.
  destruct Hin as (item0 & <- & Hin0). cbn [cut snd].
  apply len_slice_to. specialize (Hall _ Hin0). lia.
Qed.

(** Cutting to a bound that no sequence exceeds changes nothing. *)
Lemma cut_unchanged (n : Z) (results : dict pystr (list A)) :
  (forall item, In item results -> len (snd item) <= n) ->
  List.map (cut n) results = results.
Proof.
  intros Hall. rewrite <- (map_id results) at 2. apply map_ext_in.
  intros [topic res] Hin. unfold cut. cbn [fst snd].
  now rewrite slice_to_all by exact (Hall _ Hin).
Qed.

(** Trimming a mapping whose sequences all have [n] records, with a bound
    that is at least [n], returns it as it is. *)
Lemma trim_results_level (results : dict pystr (list A)) (n m : Z) :
  NoDup (dict_keys results) ->
  (forall item, In item results -> len (snd item) = n) ->
  n <= m -> results <> [] \/ m = n ->
  fst (trim_results results m) = (results, n).
Proof.
  intros Hnd Hlevel Hm Hcase. rewrite trim_results_fst by assumption.
  assert (Hmin : running_min results m = n).
  { destruct results as [|item tl].
    - destruct Hcase as [Hne| ->]; [congruence|reflexivity].
    - change (running_min (item :: tl) m)
        with (running_min tl (Z.min (len (snd item)) m)).
      rewrite (Hlevel item) by now left. rewrite Z.min_l by assumption.
      apply running_min_fixed. intros item' Hin.
      rewrite (Hlevel item') by now right. reflexivity. }
  rewrite Hmin. f_equal. apply cut_unchanged.
  intros item Hin. rewrite (Hlevel _ Hin). reflexivity.
Qed.

Lemma shortest_loop_count (results : dict pystr (list A)) (count m : Z) :
  fst (shortest_loop results count m) = count + record_count results.
Proof.
  unfold shortest_loop. revert count m.
  induction results as [|[topic res] tl IH]; intros count m;
    cbn [fold_left record_count fold_right fst snd]; [lia|].
  rewrite IH. fold (record_count tl). lia.
Qed.

Lemma slice_loop_count (results : dict pystr (list A)) (n : Z) :
  fst (slice_loop results n) = n * len results.
Proof.
  unfold slice_loop.
  enough (Hgen : forall count acc,
             fst (fold_left
                    (fun (st : Z * dict pystr (list A)) (item : pystr * list A) =>
                       let (count, new_results) := st in
                       let (topic, res) := item in
                       (count + n, dict_set topic (slice_to n res) new_results))
                    results (count, acc))
             = count + n * len results)
    by (rewrite Hgen; lia).
  induction results as [|[topic res] tl IH]; intros count acc;
    cbn [fold_left fst]; [unfold len; cbn; lia|].
  rewrite IH. unfold len. cbn [List.length]. lia.
Qed.

Lemma record_count_level (n : Z) (results : dict pystr (list A)) :
  (forall item, In item results -> len (snd item) = n) ->
  record_count results = n * len results.
Proof.
  induction results as [|item tl IH]; intros Hlevel;
    cbn [record_count fold_right]; [unfold len; cbn; lia|].
  fold (record_count tl). rewrite IH by (intros ? ?; apply Hlevel; now right).
  rewrite (Hlevel item) by now left. unfold len. cbn [List.length]. lia.
Qed.

End TrimMore.

Lemma running_min_attained {A : Type} (results : dict pystr (list A)) (m : Z) :
  running_min results m = m
  \/ exists item, In item results /\ running_min results m = len (snd item).
Proof.
  revert m. induction results as [|item tl IH]; intros m; [now left|].
  change (running_min (item :: tl) m)
    with (running_min tl (Z.min (len (snd item)) m)).
  destruct (IH (Z.min (len (snd item)) m)) as [Heq|(item' & Hin & Heq)].
  - destruct (Z.min_spec (len (snd item)) m) as [[_ Hm]|[_ Hm]].
    + right. exists item. split; [now left|congruence].
    + left. congruence.
  - right. exists item'. split; [now right|assumption].
Qed.

Lemma cut_cut {A : Type} (n m : Z) (results : dict pystr (list A)) :
  0 <= n <= m ->
  List.map (cut n) (List.map (cut m) results) = List.map (cut n) results.
Proof.
  intros Hnm. rewrite map_map. apply map_ext. intros [topic res].
  unfold cut. cbn [fst snd]. f_equal.
  rewrite !slice_to_firstn by lia. rewrite firstn_firstn. f_equal. lia.
Qed.

(** X1.  Whatever [max_length] is, negative or not, [trim_results] on a
    mapping of distinct topics keeps the topics and their order, returns a
    length that exceeds neither [max_length] nor the length of any sequence,
    and returns for every topic a prefix of its sequence: it never reorders,
    moves or invents a record. *)
Theorem trim_results_keeps_prefixes {A : Type}
  (results : dict pystr (list A)) (max_length : Z) :
  NoDup (dict_keys results) ->
  dict_keys (fst (fst (trim_results results max_length))) = dict_keys results
  /\ snd (fst (trim_results results max_length)) <= max_length
  /\ (forall item, In item results ->
        snd (fst (trim_results results max_length)) <= len (snd item))
  /\ Forall2
       (fun old new : pystr * list A =>
          fst new = fst old /\ exists k, snd new = firstn k (snd old))
       results (fst (fst (trim_results results max_length))).
Proof.
  intros Hnd. rewrite (@trim_results_fst A results max_length Hnd). cbn [fst snd].
  destruct (running_min_le results max_length) as [Hle Hall].
  split; [apply cut_keys|]. split; [assumption|]. split; [assumption|].
  generalize (running_min results max_length) as n. intros n. clear.
  induction results as [|item tl IH]; cbn [List.map]; constructor; auto.
  split; [reflexivity|]. apply slice_to_prefix.
Qed.

Lemma trim_results_keeps_prefixes_witness :
  NoDup (dict_keys [(lit "a", [1; 2; 3; 4]); (lit "b", [5; 6])])
  /\ dict_keys (fst (fst (trim_results
                            [(lit "a", [1; 2; 3; 4]); (lit "b", [5; 6])] (-1))))
     = [lit "a"; lit "b"]
  /\ snd (fst (trim_results [(lit "a", [1; 2; 3; 4]); (lit "b", [5; 6])] (-1)))
     <= -1.
Proof.
  assert (Hnd : NoDup (dict_keys [(lit "a", [1; 2; 3; 4]); (lit "b", [5; 6])])).
  { repeat constructor; cbn; intuition discriminate. }
  split; [exact Hnd|].
  destruct (@trim_results_keeps_prefixes Z
              [(lit "a", [1; 2; 3; 4]); (lit "b", [5; 6])] (-1) Hnd)
    as (Hkeys & Hle & _).
  split; [exact Hkeys|exact Hle].
Defined.

(** X2.  Trimming is idempotent: for a [max_length] that is not negative
    and distinct topics, trimming what [trim_results] returned, with the
    length it returned, gives the same mapping and the same length again; and
    when the mapping is not empty, so does trimming it with any greater
    bound. *)
Theorem trim_results_idempotent {A : Type}
  (results : dict pystr (list A)) (max_length : Z) :
  NoDup (dict_keys results) -> 0 <= max_length ->
  fst (trim_results (fst (fst (trim_results results max_length)))
         (snd (fst (trim_results results max_length))))
  = fst (trim_results results max_length)
  /\ (results <> [] ->
      forall bound,
        snd (fst (trim_results results max_length)) <= bound ->
        fst (trim_results (fst (fst (trim_results results max_length))) bound)
        = fst (trim_results results max_length)).
Proof.
  intros Hnd Hmax. rewrite (@trim_results_fst A results max_length Hnd). cbn [fst snd].
  destruct (running_min_le results max_length) as [_ Hall].
  pose proof (@running_min_nonneg A results max_length Hmax) as Hpos.
  assert (Hlevel : forall item,
             In item (List.map (cut (running_min results max_length)) results) ->
             len (snd item) = running_min results max_length)
    by (apply cut_lengths; assumption).
  assert (Hnd' : NoDup (dict_keys
                          (List.map (cut (running_min results max_length)) results)))
    by now rewrite cut_keys.
  split.
  - apply trim_results_level; try assumption; [lia|now right].
  - intros Hne bound Hbound. apply trim_results_level; try assumption.
    left. destruct results; [congruence|discriminate].
Qed.

Lemma trim_results_idempotent_witness :
  NoDup (dict_keys [(lit "a", [1; 2; 3; 4]); (lit "b", [5; 6])])
  /\ 0 <= 3
  /\ fst (trim_results
            (fst (fst (trim_results
                         [(lit "a", [1; 2; 3; 4]); (lit "b", [5; 6])] 3)))
            (snd (fst (trim_results
                         [(lit "a", [1; 2; 3; 4]); (lit "b", [5; 6])] 3))))
     = fst (trim_results [(lit "a", [1; 2; 3; 4]); (lit "b", [5; 6])] 3).
Proof.
  assert (Hnd : NoDup (dict_keys [(lit "a", [1; 2; 3; 4]); (lit "b", [5; 6])])).
  { repeat constructor; cbn; intuition discriminate. }
  split; [exact Hnd|]. split; [lia|].
  assert (Hmax : 0 <= 3) by lia.
  exact (proj1 (@trim_results_idempotent Z
                  [(lit "a", [1; 2; 3; 4]); (lit "b", [5; 6])] 3 Hnd Hmax)).
Defined.

(** The three trims, for distinct topics: the common length is the least of
    the default bound and all the lengths. *)
Lemma main_trims_cut {A : Type} (results1 results2 : dict pystr (list A)) :
  NoDup (dict_keys results1) -> NoDup (dict_keys results2) ->
  main_trims results1 results2
  = (List.map (cut (running_min results2 (running_min results1 default_max_length)))
       results1,
     List.map (cut (running_min results2 (running_min results1 default_max_length)))
       results2,
     running_min results2 (running_min results1 default_max_length))
  /\ 0 <= running_min results2 (running_min results1 default_max_length)
  /\ forall item,
       In item (results1 ++ results2) ->
       running_min results2 (running_min results1 default_max_length)
       <= len (snd item).
Proof.
  intros Hnd1 Hnd2.
  set (l1 := running_min results1 default_max_length).
  set (l := running_min results2 l1).
  assert (Hdef : 0 <= default_max_length) by (unfold default_max_length; lia).
  destruct (running_min_le results1 default_max_length) as [Hle1 Hall1].
  destruct (running_min_le results2 l1) as [Hle2 Hall2].
  pose proof (@running_min_nonneg A results1 default_max_length Hdef) as Hpos1.
  fold l1 in Hpos1, Hle1, Hall1.
  pose proof (@running_min_nonneg A results2 l1 Hpos1) as Hpos.
  fold l in Hpos, Hle2, Hall2.
  assert (Hlevel1 : forall item, In item (List.map (cut l1) results1) ->
                                 len (snd item) = l1)
    by (apply cut_lengths; assumption).
  split; [|split; [exact Hpos|]].
  - unfold main_trims.
    rewrite (@trim_results_fst A results1 default_max_length Hnd1). fold l1.
    rewrite (@trim_results_fst A results2 l1 Hnd2). fold l.
    rewrite trim_results_fst by now rewrite cut_keys.
    rewrite running_min_fixed
      by (intros item Hin; rewrite (Hlevel1 _ Hin); exact Hle2).
    now rewrite cut_cut by lia.
  - intros item Hin. apply in_app_or in Hin. destruct Hin as [Hin|Hin].
    + specialize (Hall1 _ Hin). lia.
    + now apply Hall2.
Qed.

(** X3.  The three trims of the main program bring both mappings to one
    common length: for distinct topics in each mapping, [main_trims] returns
    a length [l] between 0 and the default bound that no sequence of either
    mapping undercuts, and that is the default bound or the length of one of
    the sequences; and it returns both mappings with every sequence cut to
    its first [l] records, so that all sequences of both have [l]
    records. *)
Theorem main_trims_equal_lengths {A : Type}
  (results1 results2 : dict pystr (list A)) :
  NoDup (dict_keys results1) -> NoDup (dict_keys results2) ->
  exists l,
    main_trims results1 results2
    = (List.map (cut l) results1, List.map (cut l) results2, l)
    /\ 0 <= l <= default_max_length
    /\ (forall item, In item (results1 ++ results2) -> l <= len (snd item))
    /\ (l = default_max_length
        \/ exists item, In item (results1 ++ results2) /\ l = len (snd item))
    /\ (forall item,
          In item (List.map (cut l) results1 ++ List.map (cut l) results2) ->
          snd item = firstn (Z.to_nat l) (snd item) /\ len (snd item) = l).
Proof.
  intros Hnd1 Hnd2.
  destruct (@main_trims_cut A results1 results2 Hnd1 Hnd2) as (Hrun & Hpos & Hall).
  set (l1 := running_min results1 default_max_length) in *.
  set (l := running_min results2 l1) in *.
  destruct (running_min_le results1 default_max_length) as [Hle1 _].
  destruct (running_min_le results2 l1) as [Hle2 _].
  fold l1 in Hle1. fold l in Hle2.
  exists l. split; [exact Hrun|]. split; [lia|]. split; [exact Hall|].
  split.
  { destruct (running_min_attained results2 l1) as [Heq|(item & Hin & Heq)].
    - destruct (running_min_attained results1 default_max_length)
        as [Heq1|(item & Hin & Heq1)].
      + left. unfold l. fold l1 in Heq1. congruence.
      + right. exists item. split; [apply in_or_app; now left|].
        unfold l. fold l1 in Heq1. congruence.
    - right. exists item. split; [apply in_or_app; now right|exact Heq]. }
  intros item Hin.
  assert (Hlen : len (snd item) = l).
  { apply in_app_or in Hin. destruct Hin as [Hin|Hin].
    - revert item Hin. apply cut_lengths; [assumption|].
      intros item Hin. apply Hall. apply in_or_app. now left.
    - revert item Hin. apply cut_lengths; [assumption|].
      intros item Hin. apply Hall. apply in_or_app. now right. }
  split; [|exact Hlen].
  symmetry. apply firstn_all2. unfold len in Hlen. lia.
Qed.

Lemma main_trims_equal_lengths_witness :
  NoDup (dict_keys [(lit "a", [1; 2; 3; 4]); (lit "b", [1; 2; 3])])
  /\ NoDup (dict_keys [(lit "c", [1; 2]); (lit "d", [1; 2; 3; 4; 5])])
  /\ exists l,
       main_trims [(lit "a", [1; 2; 3; 4]); (lit "b", [1; 2; 3])]
         [(lit "c", [1; 2]); (lit "d", [1; 2; 3; 4; 5])]
       = (List.map (cut l) [(lit "a", [1; 2; 3; 4]); (lit "b", [1; 2; 3])],
          List.map (cut l) [(lit "c", [1; 2]); (lit "d", [1; 2; 3; 4; 5])], l)
       /\ l = 2.
Proof.
  assert (Hnd1 : NoDup (dict_keys [(lit "a", [1; 2; 3; 4]); (lit "b", [1; 2; 3])])).
  { repeat constructor; cbn; intuition discriminate. }
  assert (Hnd2 : NoDup (dict_keys [(lit "c", [1; 2]); (lit "d", [1; 2; 3; 4; 5])])).
  { repeat constructor; cbn; intuition discriminate. }
  split; [exact Hnd1|]. split; [exact Hnd2|].
  destruct (@main_trims_equal_lengths Z _ _ Hnd1 Hnd2) as (l & Hrun & _).
  exists l. split; [exact Hrun|].
  assert (Hl : snd (main_trims [(lit "a", [1; 2; 3; 4]); (lit "b", [1; 2; 3])]
                      [(lit "c", [1; 2]); (lit "d", [1; 2; 3; 4; 5])]) = 2)
    by reflexivity.
  rewrite Hrun in Hl. exact Hl.
Defined.

(** X4.  What [trim_results] prints: the old count is the number of records
    of the mapping, and the new count is the returned length times the number
    of topics.  For distinct topics and a [max_length] that is not negative
    that product is the number of records of the returned mapping. *)
Theorem trim_results_printed_counts {A : Type}
  (results : dict pystr (list A)) (max_length : Z) :
  NoDup (dict_keys results) -> 0 <= max_length ->
  snd (trim_results results max_length)
  = [ OldResultCount (record_count results);
      NewResultCount (snd (fst (trim_results results max_length)) * len results)
        (snd (fst (trim_results results max_length))) ]
  /\ snd (fst (trim_results results max_length)) * len results
     = record_count (fst (fst (trim_results results max_length)))
  /\ record_count (fst (fst (trim_results results max_length)))
     <= record_count results.
Proof.
  intros Hnd Hmax.
  assert (Hprinted :
            snd (trim_results results max_length)
            = [ OldResultCount (record_count results);
                NewResultCount
                  (snd (fst (trim_results results max_length)) * len results)
                  (snd (fst (trim_results results max_length))) ]).
  { unfold trim_results.
    pose proof (shortest_loop_count results 0 max_length) as Hold.
    destruct (shortest_loop results 0 max_length) as [count n].
    pose proof (slice_loop_count results n) as Hnew.
    destruct (slice_loop results n) as [count' new_results].
    cbn [fst snd] in *. now subst. }
  split; [exact Hprinted|].
  rewrite (@trim_results_fst A results max_length Hnd). cbn [fst snd].
  destruct (running_min_le results max_length) as [_ Hall].
  pose proof (@running_min_nonneg A results max_length Hmax) as Hpos.
  assert (Hkept : running_min results max_length * len results
                  = record_count
                      (List.map (cut (running_min results max_length)) results)).
  { rewrite (@record_count_level A (running_min results max_length));
      [|now apply cut_lengths].
    unfold len. now rewrite length_map. }
  split; [exact Hkept|]. rewrite <- Hkept.
  clear Hprinted Hkept Hnd Hmax.
  generalize dependent (running_min results max_length). intros n Hall Hpos.
  induction results as [|item tl IH]; cbn [record_count fold_right].
  - unfold len. cbn. lia.
  - fold (record_count tl).
    specialize (IH (fun i Hi => Hall i (or_intror Hi))).
    specialize (Hall item (or_introl eq_refl)).
    unfold len in *. cbn [List.length] in *. lia.
Qed.

Lemma trim_results_printed_counts_witness :
  NoDup (dict_keys [(lit "a", [1; 2; 3; 4]); (lit "b", [5; 6])])
  /\ 0 <= 9
  /\ snd (trim_results [(lit "a", [1; 2; 3; 4]); (lit "b", [5; 6])] 9)
     = [OldResultCount 6; NewResultCount 4 2].
Proof.
  assert (Hnd : NoDup (dict_keys [(lit "a", [1; 2; 3; 4]); (lit "b", [5; 6])])).
  { repeat constructor; cbn; intuition discriminate. }
  split; [exact Hnd|]. split; [lia|].
  destruct (@trim_results_printed_counts Z
              [(lit "a", [1; 2; 3; 4]); (lit "b", [5; 6])] 9 Hnd)
    as (Hprinted & _); [lia|].
  rewrite Hprinted. reflexivity.
Defined.

(* ================================================================== *)
(** * More on [analyze_sources] *)
(* ================================================================== *)

Section AnalyzeMore.
Context {Page K : Type} `{Hashable K}.
Variable source : Page -> K.

Lemma dict_get_tabulate_absent {X V : Type} `{Hashable X}
  (f : X -> V) (keys : list X) (k : X) :
  ~ In k keys -> dict_get k (tabulate f keys) = None.
Proof.
  induction keys as [|k' keys IH]; cbn [tabulate List.map dict_get In];
    [reflexivity|].
  intros Hno. rewrite key_eqb_neq by tauto. apply IH. tauto.
Qed.

(** The dictionary [sources] once the entry of the record's source is
    there. *)
Lemma count_page_entry (topics : list pystr) (done : list (pystr * K))
  (topic : pystr) (src : K) :
  (if dict_mem src (tally topics done)
   then tally topics done
   else dict_set src (zero_counts topics) (tally topics done))
  = tabulate (row topics done)
      (first_seen (List.map snd (done ++ [(topic, src)]))).
Proof.
  unfold tally. rewrite dict_mem_tabulate.
  rewrite map_app. cbn [List.map snd]. rewrite first_seen_snoc.
  destruct (existsb (fun y => key_eqb y src) (first_seen (List.map snd done)))
    eqn:Hsrc; [reflexivity|].
  apply existsb_key_not_In in Hsrc.
  rewrite dict_set_fresh by now rewrite tabulate_keys.
  unfold tabulate at 2. rewrite map_app. cbn [List.map].
  fold (tabulate (row topics done) (first_seen (List.map snd done))).
  do 3 f_equal.
  rewrite zero_counts_tabulate. unfold row. apply map_ext. intros t.
  rewrite appearances_absent; [reflexivity|].
  now rewrite <- first_seen_In.
Qed.

(** A record of an unlisted topic: [sources[...][page_topic] += 1] finds no
    such key. *)
Lemma count_page_unlisted (topics : list pystr) (done : list (pystr * K))
  (topic : pystr) (src : K) :
  ~ In topic topics ->
  count_page snd topics topic (tally topics done) (topic, src) = Raise KeyError.
Proof.
  intros Htopic. unfold count_page. cbn [snd].
  rewrite (count_page_entry topics done topic src).
  assert (Hin : In src (first_seen (List.map snd (done ++ [(topic, src)])))).
  { rewrite first_seen_In, map_app, in_app_iff. right. now left. }
  unfold dict_item at 1. rewrite (dict_get_tabulate _ _ _ Hin). cbn [bind].
  unfold dict_item, row.
  rewrite dict_get_tabulate_absent by now rewrite first_seen_In.
  reflexivity.
Qed.

Lemma count_records_unlisted (topics : list pystr)
  (done : list (pystr * K)) (r : pystr * K) (rest : list (pystr * K)) :
  (forall r', In r' done -> In (fst r') topics) -> ~ In (fst r) topics ->
  for_each (fun sources (r : pystr * K) => count_page snd topics (fst r) sources r)
    (done ++ r :: rest) []
  = Raise KeyError.
Proof.
  intros Hdone Hr. rewrite for_each_app, count_records_tally by assumption.
  cbn [bind for_each]. destruct r as [topic src]. cbn [fst] in *.
  now rewrite count_page_unlisted.
Qed.

(** The records up to the first one of an unlisted topic. *)
Lemma first_unlisted (topics : list pystr) (recs : list (pystr * K)) :
  (forall r, In r recs -> In (fst r) topics)
  \/ exists done r rest,
       recs = done ++ r :: rest
       /\ (forall r', In r' done -> In (fst r') topics)
       /\ ~ In (fst r) topics.
Proof.
  induction recs as [|r recs IH]; [left; intros r []|].
  destruct (in_dec (list_eq_dec N.eq_dec) (fst r) topics) as [Hr|Hr].
  - destruct IH as [Hall|(done & r' & rest & -> & Hdone & Hr')].
    + left. intros r0 [<-|Hin]; auto.
    + right. exists (r :: done), r', rest. split; [reflexivity|].
      split; [|assumption]. intros r0 [<-|Hin]; auto.
  - right. exists [], r, recs. split; [reflexivity|].
    split; [intros r0 []|assumption].
Qed.

Lemma analyze_sources_unlisted
  (results : dict pystr (list Page)) (topics : list pystr) (r : pystr * K) :
  In r (records source results) -> ~ In (fst r) topics ->
  analyze_sources source results topics = Raise KeyError.
Proof.
  intros Hin Hr. unfold analyze_sources. rewrite count_loop_records.
  destruct (first_unlisted topics (records source results))
    as [Hall|(done & r' & rest & -> & Hdone & Hr')].
  - elim Hr. now apply Hall.
  - now rewrite count_records_unlisted.
Qed.

Lemma sum_perm (a b : list Z) :
  Permutation a b -> fold_right Z.add 0 a = fold_right Z.add 0 b.
Proof. induction 1; cbn [fold_right]; lia. Qed.

Lemma sum_key_indicator (k : K) (keys : list K) :
  NoDup keys -> In k keys ->
  fold_right Z.add 0 (List.map (fun k' => if key_eqb k k' then 1 else 0) keys) = 1.
Proof.
  induction 1 as [|k0 keys Hfresh Hnd IH]; cbn [In List.map fold_right]; [tauto|].
  intros [->|Hin].
  - rewrite key_eqb_refl.
    assert (Hzero : fold_right Z.add 0
                      (List.map (fun k' => if key_eqb k k' then 1 else 0) keys) = 0).
    { clear IH Hnd. induction keys as [|k1 keys IHk]; cbn [List.map fold_right];
        [reflexivity|].
      rewrite key_eqb_neq by (intros ->; apply Hfresh; now left).
      rewrite IHk; [reflexivity|]. intros Hin. apply Hfresh. now right. }
    rewrite Hzero. reflexivity.
  - rewrite key_eqb_neq by (intros ->; contradiction). now rewrite IH.
Qed.

(** Every record is counted for one source. *)
Lemma results_of_sum (recs : list (pystr * K)) (keys : list K) :
  NoDup keys -> (forall r, In r recs -> In (snd r) keys) ->
  fold_right Z.add 0 (List.map (results_of recs) keys) = len recs.
Proof.
  intros Hnd. induction recs as [|[t s] recs IH]; intros Hall.
  - cbn [results_of]. unfold len. cbn [List.length Z.of_nat].
    clear. induction keys as [|k keys IHk]; cbn [List.map fold_right];
      [reflexivity|now rewrite IHk].
  - change (results_of ((t, s) :: recs))
      with (fun src => (if key_eqb s src then 1 else 0) + results_of recs src).
    rewrite sum_map_add, IH by (intros r Hr; apply Hall; now right).
    rewrite sum_key_indicator; [|assumption|apply (Hall (t, s)); now left].
    unfold len. cbn [List.length]. lia.
Qed.

Lemma entries_totals (topics : list pystr) (recs : list (pystr * K)) :
  (forall r, In r recs -> In (fst r) topics) ->
  List.map total_of (entries topics recs)
  = List.map (results_of recs) (first_seen (List.map snd recs)).
Proof.
  intros Hall. unfold entries, tabulate. rewrite map_map.
  apply map_ext. intros src. now apply total_of_entry.
Qed.

Lemma records_length (results : dict pystr (list Page)) :
  len (records source results)
  = fold_right Z.add 0 (List.map (fun item => len (snd item)) results).
Proof.
  unfold records, len.
  induction results as [|[topic pages] tl IH];
    cbn [flat_map List.map fold_right fst snd]; [reflexivity|].
  rewrite length_app, length_map, Nat2Z.inj_add, IH. reflexivity.
Qed.

Lemma records_topics (results : dict pystr (list Page)) (r : pystr * K) :
  In r (records source results) -> In (fst r) (dict_keys results).
Proof.
  unfold records, dict_keys. rewrite in_flat_map.
  intros (item & Hitem & Hr). apply in_map_iff in Hr.
  destruct Hr as (page0 & <- & _). cbn [fst]. now apply in_map.
Qed.

(** The totals of the breakdown add up to the number of records. *)
Lemma analyze_sources_sum (results : dict pystr (list Page)) (topics : list pystr) :
  (forall r, In r (records source results) -> In (fst r) topics) ->
  exists breakdown,
    analyze_sources source results topics = Ok breakdown
    /\ fold_right Z.add 0 (List.map total_of breakdown)
       = len (records source results).
Proof.
  intros Hall. eexists. split; [now apply analyze_sources_sorted_entries|].
  rewrite (sum_perm (Permutation_map total_of (sorted_by_perm total_of _))).
  rewrite entries_totals by assumption.
  apply results_of_sum; [apply first_seen_NoDup|].
  intros r Hr. apply first_seen_In. now apply in_map.
Qed.

End AnalyzeMore.

(** X5.  [analyze_sources] fails in one way only: it raises [KeyError]
    exactly when some record stands under a query that is not in the query
    list, and returns a breakdown exactly when every record's query is
    listed.  A query that has no record need not be listed. *)
Theorem analyze_sources_key_error {Page K : Type} `{Hashable K}
  (source : Page -> K) (results : dict pystr (list Page)) (topics : list pystr) :
  (analyze_sources source results topics = Raise KeyError
   <-> exists r, In r (records source results) /\ ~ In (fst r) topics)
  /\ ((exists breakdown, analyze_sources source results topics = Ok breakdown)
      <-> forall r, In r (records source results) -> In (fst r) topics)
  /\ (forall e, analyze_sources source results topics = Raise e -> e = KeyError).
Proof.
  destruct (first_unlisted topics (records source results))
    as [Hall|(done & r & rest & Hrecs & Hdone & Hr)].
  - rewrite (analyze_sources_sorted_entries source results topics Hall).
    split; [|split].
    + split; [discriminate|]. intros (r & Hin & Hr). elim Hr. now apply Hall.
    + split; [intros _; exact Hall|intros _; eauto].
    + discriminate.
  - assert (Hin : In r (records source results))
      by (rewrite Hrecs; apply in_or_app; right; now left).
    rewrite (analyze_sources_unlisted source results topics r Hin Hr).
    split; [|split].
    + split; [intros _; eauto|reflexivity].
    + split; [intros (breakdown & Hb); discriminate|].
      intros Hall. elim Hr. now apply Hall.
    + now intros e [= <-].
Qed.

(** X6.  No record is lost or counted twice: when every record's query is
    listed, the totals of the breakdown [analyze_sources] returns add up to
    the number of records in the result mapping. *)
Theorem analyze_sources_totals_add_up {Page K : Type} `{Hashable K}
  (source : Page -> K) (results : dict pystr (list Page)) (topics : list pystr) :
  (forall r, In r (records source results) -> In (fst r) topics) ->
  exists breakdown,
    analyze_sources source results topics = Ok breakdown
    /\ fold_right Z.add 0 (List.map total_of breakdown)
       = len (records source results)
    /\ len (records source results)
       = fold_right Z.add 0 (List.map (fun item => len (snd item)) results).
Proof.
  intros Hall.
  destruct (analyze_sources_sum source results topics Hall)
    as (breakdown & Hrun & Hsum).
  exists breakdown. split; [exact Hrun|]. split; [exact Hsum|].
  apply records_length.
Qed.

Lemma analyze_sources_totals_add_up_witness :
  (forall r,
      In r (records (fun page : pystr => page)
              [(lit "q1", [lit "X"; lit "Y"; lit "X"]); (lit "q2", [lit "Y"])]) ->
      In (fst r) [lit "q1"; lit "q2"])
  /\ exists breakdown,
       analyze_sources (fun page : pystr => page)
         [(lit "q1", [lit "X"; lit "Y"; lit "X"]); (lit "q2", [lit "Y"])]
         [lit "q1"; lit "q2"]
       = Ok breakdown
       /\ fold_right Z.add 0 (List.map total_of breakdown) = 4.
Proof.
  assert (Hall : forall r,
             In r (records (fun page : pystr => page)
                     [(lit "q1", [lit "X"; lit "Y"; lit "X"]);
                      (lit "q2", [lit "Y"])]) ->
             In (fst r) [lit "q1"; lit "q2"]).
  { intros r Hr. cbn in Hr.
    repeat (destruct Hr as [<-|Hr]; [cbn; tauto|]). destruct Hr. }
  split; [exact Hall|].
  destruct (analyze_sources_totals_add_up (fun page : pystr => page)
              [(lit "q1", [lit "X"; lit "Y"; lit "X"]); (lit "q2", [lit "Y"])]
              [lit "q1"; lit "q2"] Hall)
    as (breakdown & Hrun & Hsum & _).
  exists breakdown. split; [exact Hrun|exact Hsum].
Defined.

(* ================================================================== *)
(** * More on [search] *)
(* ================================================================== *)

(** A loop that raises stopped at the first element whose body raised. *)
Lemma for_each_raise_inv {S X : Type} (body : S -> X -> result S)
  (xs : list X) (s : S) (e : exn) :
  for_each body xs s = Raise e ->
  exists pre x rest s',
    xs = pre ++ x :: rest
    /\ for_each body pre s = Ok s' /\ body s' x = Raise e.
Proof.
  revert s. induction xs as [|x xs IH]; intros s; cbn [for_each];
    [discriminate|].
  destruct (body s x) as [s1|e1] eqn:Hx; cbn [bind].
  - intros Hrun. destruct (IH _ Hrun) as (pre & y & rest & s' & -> & Hpre & Hy).
    exists (x :: pre), y, rest, s'. split; [reflexivity|].
    split; [|assumption]. cbn [for_each]. now rewrite Hx.
  - intros [= ->]. exists [], x, xs, s. now repeat split.
Qed.

Section SearchMore.
Context {U : Interpreter}.

Lemma search_step_raises (now : Z) (st : list result_record * YTScraper)
  (candidate : json) (e : exn) :
  search_step now st candidate = Raise e <-> video_result now candidate = Raise e.
Proof.
  unfold search_step. destruct st as [results self].
  destruct (video_result now candidate) as [[record|]|e']; cbn [bind];
    split; congruence.
Qed.

(** What the body of the loop puts into a record. *)
Lemma video_result_record (now : Z) (video_renderer : json) (record : result_record) :
  video_result now video_renderer = Ok (Some record) ->
  page record = 1 /\ age_to_seconds now (age record) = Ok (age_sec record)
  /\ getitem video_renderer (lit "videoId") = Ok (url record).
Proof.
  unfold video_result. intros Hrun.
  destruct (py_in (lit "publishedTimeText") video_renderer) as [[|]|];
    cbn [bind] in Hrun; try discriminate.
  destruct (first_overlay video_renderer) as [overlay|];
    cbn [bind] in Hrun; [|discriminate].
  destruct (py_in (lit "thumbnailOverlayTimeStatusRenderer") overlay) as [timed|];
    cbn [bind] in Hrun; [|discriminate].
  assert (Hrest :
            (length0 <- (if timed
                         then overlay_text overlay
                         else Ok (JStr (lit "LIVE"))) ;;
             time_text <- getitem video_renderer (lit "publishedTimeText") ;;
             age_str <- getitem time_text (lit "simpleText") ;;
             aged <- age_of now age_str ;;
             owner <- first_run_text video_renderer (lit "ownerText") ;;
             title0 <- first_run_text video_renderer (lit "title") ;;
             video_id <- getitem video_renderer (lit "videoId") ;;
             Ok (Some (ResultRecord now 1 (fst aged) (snd aged) owner title0
                         video_id length0)))
            = Ok (Some record))
    by (destruct timed; exact Hrun).
  clear Hrun.
  destruct (if timed then overlay_text overlay else Ok (JStr (lit "LIVE")))
    as [length0|]; cbn [bind] in Hrest; [|discriminate].
  destruct (getitem video_renderer (lit "publishedTimeText")) as [time_text|];
    cbn [bind] in Hrest; [|discriminate].
  destruct (getitem time_text (lit "simpleText")) as [age_str|];
    cbn [bind] in Hrest; [|discriminate].
  destruct (age_of now age_str) as [aged|] eqn:Hage;
    cbn [bind] in Hrest; [|discriminate].
  destruct (first_run_text video_renderer (lit "ownerText")) as [owner|];
    cbn [bind] in Hrest; [|discriminate].
  destruct (first_run_text video_renderer (lit "title")) as [title0|];
    cbn [bind] in Hrest; [|discriminate].
  destruct (getitem video_renderer (lit "videoId")) as [video_id|];
    cbn [bind] in Hrest; [|discriminate].
  injection Hrest as <-. cbn [page age age_sec url].
  split; [reflexivity|]. split; [|reflexivity].
  unfold age_of in Hage. destruct age_str; try discriminate.
  destruct (age_to_seconds now s) as [n|] eqn:Hn; cbn [bind] in Hage;
    [|discriminate].
  injection Hage as <-. exact Hn.
Qed.

Lemma emitted_length (now : Z) (candidates : list json) :
  len (emitted now candidates) <= len candidates.
Proof.
  unfold len. apply inj_le.
  induction candidates as [|c tl IH]; cbn [emitted flat_map]; [constructor|].
  fold (emitted now tl). rewrite length_app.
  destruct (video_result now c) as [[record|]|e]; cbn [List.length]; lia.
Qed.

Lemma emitted_In (now : Z) (candidates : list json) (record : result_record) :
  In record (emitted now candidates) <->
  exists candidate,
    In candidate candidates /\ video_result now candidate = Ok (Some record).
Proof.
  unfold emitted. rewrite in_flat_map. split.
  - intros (c & Hin & Hrec). exists c. split; [assumption|].
    destruct (video_result now c) as [[r|]|e]; try destruct Hrec.
    + congruence.
    + contradiction.
  - intros (c & Hin & Hrec). exists c. split; [assumption|].
    rewrite Hrec. now left.
Qed.

End SearchMore.

(** The loop of [search] raises exactly when its body raises on some
    candidate, and with the exception of the first such candidate. *)
Lemma search_loop_first_error {U : Interpreter}
  (now : Z) (self : YTScraper) (initial_data : json) (e : exn) :
  search now self initial_data = Raise e
  <-> exists before candidate rest,
        gen_dict_extract (lit "videoRenderer") initial_data
        = before ++ candidate :: rest
        /\ Forall (fun c => exists found, video_result now c = Ok found) before
        /\ video_result now candidate = Raise e.
Proof.
  unfold search. split.
  - intros Hrun. apply for_each_raise_inv in Hrun.
    destruct Hrun as (before & candidate & rest & [out self'] & Hsplit & Hpre & Hc).
    exists before, candidate, rest. split; [assumption|].
    split; [|now apply search_step_raises in Hc].
    now apply search_loop_inv in Hpre.
  - intros (before & candidate & rest & -> & Hpre & Hc).
    rewrite for_each_app, (search_loop_emits now _ _ Hpre). cbn [bind for_each].
    match goal with
    | |- bind (search_step now ?st candidate) _ = _ =>
        rewrite (proj2 (search_step_raises now st candidate e) Hc)
    end.
    reflexivity.
Qed.

(** X8.  When [search] returns, it has counted one more page and as many
    more results as it returns records, which are at most as many as the
    traversal yields candidates; and every record it returns was made from
    one of the candidates, is on page 1, carries that candidate's
    ["videoId"] as its url, and holds in [age_sec] what [age_to_seconds]
    gives for its [age]. *)
Theorem search_records_consistent {U : Interpreter}
  (now : Z) (self self' : YTScraper) (initial_data : json)
  (out : list result_record) :
  search now self initial_data = Ok (out, self') ->
  pages_total self' = pages_total self + 1
  /\ results_total self' = results_total self + len out
  /\ len out <= len (gen_dict_extract (lit "videoRenderer") initial_data)
  /\ forall record,
       In record out ->
       page record = 1
       /\ age_to_seconds now (age record) = Ok (age_sec record)
       /\ exists candidate,
            In candidate (gen_dict_extract (lit "videoRenderer") initial_data)
            /\ video_result now candidate = Ok (Some record)
            /\ getitem candidate (lit "videoId") = Ok (url record).
Proof.
  unfold search. intros Hrun.
  destruct (search_loop_inv now _ [] _ Hrun) as [Hout Hall].
  rewrite (search_loop_emits now _ _ Hall) in Hrun.
  cbn [app] in Hout, Hrun. injection Hrun as _ <-. subst out.
  cbn [pages_total results_total].
  split; [reflexivity|]. split; [reflexivity|].
  split; [apply emitted_length|].
  intros record Hin. apply emitted_In in Hin.
  destruct Hin as (candidate & Hin & Hrec).
  destruct (video_result_record _ _ Hrec) as (Hpage & Hage & Hurl).
  split; [assumption|]. split; [assumption|].
  exists candidate. now repeat split.
Qed.

Lemma search_records_consistent_witness :
  exists out self',
    @search ascii_interpreter 0 (Scraper 4 10) example_page = Ok (out, self')
    /\ pages_total self' = 5
    /\ results_total self' = 10 + len out.
Proof.
  eexists. eexists. split; [reflexivity|].
  destruct (@search_records_consistent ascii_interpreter 0 (Scraper 4 10) _
              example_page _ eq_refl)
    as (Hpages & Hresults & _).
  split; [exact Hpages|exact Hresults].
Defined.

(* ================================================================== *)
(** * The embedded data of a page *)
(* ================================================================== *)

Lemma starts_with_app (p t : pystr) : starts_with p (p ++ t) = true.
Proof.
  induction p as [|c p IH]; cbn [app starts_with]; [reflexivity|].
  now rewrite N.eqb_refl, IH.
Qed.

Lemma starts_with_extend (p b s : pystr) :
  starts_with p b = true -> starts_with p (b ++ s) = true.
Proof.
  revert b. induction p as [|c p IH]; intros b; [reflexivity|].
  destruct b as [|x b]; cbn [app starts_with]; [discriminate|].
  intros Hb. apply andb_prop in Hb. destruct Hb as [Hx Hb].
  now rewrite Hx, IH.
Qed.

Lemma starts_with_inv (p s : pystr) :
  starts_with p s = true -> s = p ++ skipn (List.length p) s.
Proof.
  revert s. induction p as [|c p IH]; intros s; [reflexivity|].
  destruct s as [|x s]; cbn [starts_with List.length skipn app]; [discriminate|].
  intros Hs. apply andb_prop in Hs. destruct Hs as [Hx Hs].
  apply N.eqb_eq in Hx. subst x. f_equal. now apply IH.
Qed.

(** A prefix that is not longer than the text before [s] lies in it. *)
Lemma starts_with_short (p b s : pystr) :
  starts_with p (b ++ s) = true -> (List.length p <= List.length b)%nat ->
  starts_with p b = true.
Proof.
  revert b. induction p as [|c p IH]; intros b; [reflexivity|].
  destruct b as [|x b]; cbn [app starts_with List.length]; [lia|].
  intros Hb Hlen. apply andb_prop in Hb. destruct Hb as [Hx Hb].
  rewrite Hx, (IH b); [reflexivity|assumption|lia].
Qed.

(** A prefix that reaches beyond [b] holds, at that place, the character
    that follows [b]. *)
Lemma starts_with_nth (p b : pystr) (c : N) (s : pystr) :
  starts_with p (b ++ c :: s) = true -> (List.length b < List.length p)%nat ->
  nth_error p (List.length b) = Some c.
Proof.
  revert b. induction p as [|x p IH]; intros b; cbn [List.length]; [lia|].
  destruct b as [|y b]; cbn [app starts_with List.length nth_error].
  - intros Hb _. apply andb_prop in Hb. destruct Hb as [Hx _].
    apply N.eqb_eq in Hx. now subst.
  - intros Hb Hlen. apply andb_prop in Hb. destruct Hb as [_ Hb].
    apply IH; [assumption|lia].
Qed.

Lemma str_contains_here (p a : pystr) :
  starts_with p a = true -> str_contains p a = true.
Proof. intros Hp. destruct a; cbn [str_contains]; now rewrite Hp. Qed.

Lemma str_contains_suffix (p a b : pystr) :
  str_contains p b = true -> str_contains p (a ++ b) = true.
Proof.
  intros Hb. induction a as [|c a IH]; [assumption|].
  cbn [app str_contains]. rewrite IH. apply orb_true_r.
Qed.

(** The text up to the first occurrence of a non-empty string. *)
Lemma str_contains_first (p a : pystr) :
  p <> [] -> str_contains p a = true ->
  exists pre t, a = pre ++ p ++ t /\ str_contains p pre = false.
Proof.
  intros Hp. induction a as [|c a IH]; intros Ha.
  - destruct p; [congruence|discriminate].
  - destruct (starts_with p (c :: a)) eqn:Hhere.
    + exists [], (skipn (List.length p) (c :: a)). split.
      * now apply starts_with_inv.
      * destruct p; [congruence|reflexivity].
    + cbn [str_contains] in Ha. rewrite Hhere in Ha. cbn [orb] in Ha.
      destruct (IH Ha) as (pre & t & -> & Hpre).
      exists (c :: pre), t. split; [reflexivity|].
      cbn [str_contains]. rewrite Hpre, orb_false_r.
      destruct (starts_with p (c :: pre)) eqn:Hc; [|reflexivity].
      apply (starts_with_extend _ _ (p ++ t)) in Hc.
      cbn [app] in Hc. congruence.
Qed.

(** ** [re.search] *)

Lemma re_run_Str (p s : pystr) (caps : list pystr)
  (k : pystr -> list pystr -> option match_object) :
  re_run (Str p) s caps k
  = if starts_with p s then k (skipn (List.length p) s) caps else None.
Proof.
  revert s. induction p as [|c p IH]; intros s; [reflexivity|].
  cbn [Str]. rewrite re_run_Seq.
  destruct s as [|x s]; cbn [re_run starts_with List.length skipn]; [reflexivity|].
  rewrite (N.eqb_sym c x). destruct (N.eqb x c); cbn [andb]; [apply IH|reflexivity].
Qed.

Lemma span_exists (p : N -> bool) (t : pystr) :
  exists data rest_of, t = data ++ rest_of /\ forallb p data = true /\ stops p rest_of.
Proof.
  induction t as [|c t IH].
  - now exists [], [].
  - destruct IH as (data & rest_of & -> & Hdata & Hrest).
    destruct (p c) eqn:Hc.
    + exists (c :: data), rest_of. cbn [forallb app]. now rewrite Hc, Hdata.
    + exists [], (c :: data ++ rest_of). now repeat split.
Qed.

(** The group of the pattern: the longest run of characters other than
    [<], which may be empty. *)
Lemma group_star_longest (p : N -> bool) (data rest_of : pystr) (caps : list pystr)
  (k : pystr -> list pystr -> option match_object) (m : match_object) :
  forallb p data = true -> stops p rest_of ->
  k rest_of (caps ++ [data]) = Some m ->
  re_run (Group (Alt (Plus p) Eps)) (data ++ rest_of) caps k = Some m.
Proof.
  intros Hdata Hrest Hk. destruct data as [|c data].
  - cbn [app re_run].
    assert (Hplus : forall k', match rest_of with
                               | [] => None
                               | x :: t => if p x then star_class p t k' else None
                               end = @None match_object).
    { intros k'. destruct rest_of as [|x t]; [reflexivity|].
      cbn [stops] in Hrest. now rewrite Hrest. }
    rewrite Hplus, Nat.sub_diag. exact Hk.
  - assert (Hne : c :: data <> []) by discriminate.
    pose proof (@group_plus_longest p (c :: data) rest_of caps k m
                  Hne Hdata Hrest Hk) as Hrun.
    cbn [re_run] in Hrun |- *. now rewrite Hrun.
Qed.

Lemma re_match_initial_data (data rest_of : pystr) :
  forallb (fun c => negb (N.eqb c 60)) data = true ->
  stops (fun c => negb (N.eqb c 60)) rest_of ->
  re_match initial_data_pattern (lit "var ytInitialData = " ++ data ++ rest_of)
  = Some (MatchObject [data] rest_of).
Proof.
  intros Hdata Hrest. unfold re_match, initial_data_pattern.
  rewrite re_run_Seq, re_run_Str, starts_with_app.
  rewrite skipn_app, skipn_all, Nat.sub_diag. cbn [app skipn].
  now apply group_star_longest.
Qed.

Lemma re_match_initial_data_none (s : pystr) :
  starts_with (lit "var ytInitialData = ") s = false ->
  re_match initial_data_pattern s = None.
Proof.
  intros Hs. unfold re_match, initial_data_pattern.
  now rewrite re_run_Seq, re_run_Str, Hs.
Qed.

Lemma re_search_here (r : regex) (s : pystr) (m : match_object) :
  re_match r s = Some m -> re_search r s = Some m.
Proof. intros Hm. destruct s; cbn [re_search]; now rewrite Hm. Qed.

Lemma re_search_skip (r : regex) (pre s : pystr) :
  (forall a b, pre = a ++ b -> b <> [] -> re_match r (b ++ s) = None) ->
  re_search r (pre ++ s) = re_search r s.
Proof.
  induction pre as [|c pre IH]; intros Hnone; [reflexivity|].
  assert (Hhere : re_match r (c :: pre ++ s) = None)
    by (apply (Hnone [] (c :: pre) eq_refl); discriminate).
  cbn [app re_search]. rewrite Hhere.
  apply IH. intros a b -> Hb. now apply (Hnone (c :: a) b).
Qed.

Lemma re_search_initial_data_none (html : pystr) :
  str_contains (lit "var ytInitialData = ") html = false ->
  re_search initial_data_pattern html = None.
Proof.
  induction html as [|c html IH]; intros Hno.
  - reflexivity.
  - cbn [str_contains] in Hno. apply orb_false_elim in Hno.
    destruct Hno as [Hhere Htl]. cbn [re_search].
    rewrite (re_match_initial_data_none _ Hhere). now apply IH.
Qed.

(** The first character of the marker occurs in it once. *)
Lemma marker_first_character (n : nat) :
  nth_error (lit "var ytInitialData = ") n = Some 118%N -> n = 0%nat.
Proof.
  do 21 (destruct n as [|n]; [first [reflexivity|discriminate]|]).
  discriminate.
Qed.

(** No occurrence of the marker starts before an occurrence of it without
    lying before it. *)
Lemma marker_no_overlap (a b t : pystr) :
  str_contains (lit "var ytInitialData = ") (a ++ b) = false -> b <> [] ->
  starts_with (lit "var ytInitialData = ") (b ++ lit "var ytInitialData = " ++ t)
  = false.
Proof.
  intros Hno Hb.
  destruct (starts_with (lit "var ytInitialData = ")
              (b ++ lit "var ytInitialData = " ++ t)) eqn:Hstart; [|reflexivity].
  destruct (Nat.le_gt_cases (List.length (lit "var ytInitialData = "))
              (List.length b)) as [Hlen|Hlen].
  - apply starts_with_short in Hstart; [|assumption].
    apply str_contains_here in Hstart.
    apply (str_contains_suffix _ a) in Hstart. congruence.
  - change (lit "var ytInitialData = " ++ t)
      with (118%N :: lit "ar ytInitialData = " ++ t) in Hstart.
    apply starts_with_nth in Hstart; [|assumption].
    apply marker_first_character in Hstart.
    destruct b; [congruence|discriminate].
Qed.

(** ** [str.replace] *)

Lemma str_replace_from_In (c : N) (old : pystr) (s : pystr) :
  forall skip, In c (str_replace_from old [] skip s) -> In c s.
Proof.
  induction s as [|x s IH]; intros skip; cbn [str_replace_from]; [tauto|].
  destruct skip as [|skip].
  - destruct (starts_with old (x :: s)); cbn [app In].
    + intros Hin. right. eapply IH, Hin.
    + intros [->|Hin]; [now left|right; eapply IH, Hin].
  - intros Hin. right. eapply IH, Hin.
Qed.

Lemma str_replace_from_length (old : pystr) (s : pystr) :
  forall skip,
    (List.length (str_replace_from old [] skip s) <= List.length s)%nat.
Proof.
  induction s as [|x s IH]; intros skip; cbn [str_replace_from List.length];
    [lia|].
  destruct skip as [|skip].
  - destruct (starts_with old (x :: s)); cbn [app List.length].
    + specialize (IH (List.length old - 1)%nat). lia.
    + specialize (IH 0%nat). lia.
  - specialize (IH skip). lia.
Qed.

Lemma str_replace_single (c : N) (s : pystr) :
  str_replace [c] [] s = filter (fun x => negb (N.eqb c x)) s.
Proof.
  unfold str_replace. induction s as [|x s IH]; [reflexivity|].
  cbn [str_replace_from starts_with filter List.length Nat.sub app].
  rewrite andb_true_r. destruct (N.eqb c x); cbn [negb]; now rewrite IH.
Qed.

Lemma str_replace_absent (c : N) (old new s : pystr) :
  ~ In c s -> str_replace (c :: old) new s = s.
Proof.
  unfold str_replace. induction s as [|x s IH]; intros Hno; [reflexivity|].
  cbn [str_replace_from starts_with].
  apply not_in_cons in Hno. destruct Hno as [Hx Hno].
  destruct (N.eqb_spec c x) as [Heq|_]; [congruence|].
  cbn [andb]. now rewrite IH.
Qed.

(** What [search] extracts from a page whose first marker is followed by
    [data]. *)
Lemma extract_initial_data_at (pre data rest_of : pystr) :
  str_contains (lit "var ytInitialData = ") pre = false ->
  forallb (fun c => negb (N.eqb c 60)) data = true ->
  stops (fun c => negb (N.eqb c 60)) rest_of ->
  extract_initial_data (pre ++ lit "var ytInitialData = " ++ data ++ rest_of)
  = Ok (str_replace (lit "\u") [] (str_replace (lit ";") [] data)).
Proof.
  intros Hpre Hdata Hrest. unfold extract_initial_data.
  rewrite re_search_skip.
  - now rewrite (re_search_here _ _ (re_match_initial_data _ _ Hdata Hrest)).
  - intros a b -> Hb. apply re_match_initial_data_none.
    now apply (marker_no_overlap a).
Qed.

Lemma extract_initial_data_raises (html : pystr) (e : exn) :
  extract_initial_data html = Raise e
  <-> str_contains (lit "var ytInitialData = ") html = false /\ e = TypeError.
Proof.
  destruct (str_contains (lit "var ytInitialData = ") html) eqn:Hin.
  - apply str_contains_first in Hin; [|discriminate].
    destruct Hin as (pre & t & -> & Hpre).
    destruct (span_exists (fun c => negb (N.eqb c 60)) t)
      as (data & rest_of & -> & Hdata & Hrest).
    rewrite (extract_initial_data_at _ _ _ Hpre Hdata Hrest).
    split; [discriminate|]. now intros [? _].
  - unfold extract_initial_data. rewrite (re_search_initial_data_none _ Hin).
    split; [now intros [= <-]|]. now intros [_ ->].
Qed.

(** X9.  The extraction of the embedded data fails in one way only: on a
    page that does not contain the text [var ytInitialData = ] the subscript
    of the failed search raises [TypeError]; on every page that contains it,
    a text is extracted. *)
Theorem extract_initial_data_marker (html : pystr) :
  (extract_initial_data html = Raise TypeError
   <-> str_contains (lit "var ytInitialData = ") html = false)
  /\ ((exists text, extract_initial_data html = Ok text)
      <-> str_contains (lit "var ytInitialData = ") html = true)
  /\ (forall e, extract_initial_data html = Raise e -> e = TypeError).
Proof.
  destruct (str_contains (lit "var ytInitialData = ") html) eqn:Hin.
  - apply str_contains_first in Hin; [|discriminate].
    destruct Hin as (pre & t & -> & Hpre).
    destruct (span_exists (fun c => negb (N.eqb c 60)) t)
      as (data & rest_of & -> & Hdata & Hrest).
    rewrite (extract_initial_data_at _ _ _ Hpre Hdata Hrest).
    split; [split; discriminate|].
    split; [split; eauto|discriminate].
  - unfold extract_initial_data. rewrite (re_search_initial_data_none _ Hin).
    split; [split; reflexivity|].
    split; [split; [intros [text Ht]|]; discriminate|].
    now intros e [= <-].
Qed.

(** X10.  On a page whose first [var ytInitialData = ] is followed by the
    text [data], which runs up to the next [<] or the end of the page,
    [search] hands to the JSON parser [data] without its semicolons and then
    without the occurrences of a backslash followed by [u], wherever in the
    data they stand.  A [data] with neither semicolon nor backslash is handed
    over as it is. *)
Theorem extract_initial_data_text (pre data rest_of : pystr) :
  str_contains (lit "var ytInitialData = ") pre = false ->
  forallb (fun c => negb (N.eqb c 60)) data = true ->
  stops (fun c => negb (N.eqb c 60)) rest_of ->
  extract_initial_data (pre ++ lit "var ytInitialData = " ++ data ++ rest_of)
  = Ok (str_replace (lit "\u") []
          (filter (fun c => negb (N.eqb 59 c)) data))
  /\ (~ In 59%N data -> ~ In 92%N data ->
      extract_initial_data (pre ++ lit "var ytInitialData = " ++ data ++ rest_of)
      = Ok data).
Proof.
  intros Hpre Hdata Hrest.
  rewrite (extract_initial_data_at _ _ _ Hpre Hdata Hrest).
  change (lit ";") with [59%N]. rewrite str_replace_single.
  split; [reflexivity|]. intros Hsemi Hback. f_equal.
  assert (Hsame : filter (fun c => negb (N.eqb 59 c)) data = data).
  { clear -Hsemi. induction data as [|c data IH]; [reflexivity|].
    apply not_in_cons in Hsemi. destruct Hsemi as [Hc Hsemi].
    cbn [filter]. destruct (N.eqb_spec 59 c) as [Heq|_]; [congruence|].
    cbn [negb]. now rewrite IH. }
  rewrite Hsame. change (lit "\u") with (92%N :: [117%N]).
  now apply str_replace_absent.
Qed.

Lemma extract_initial_data_text_witness :
  str_contains (lit "var ytInitialData = ") (lit "<script>") = false
  /\ extract_initial_data
       (lit "<script>" ++ lit "var ytInitialData = "
          ++ lit "{'a': 'x;y', 'b': '\u0026'};" ++ lit "</script>")
     = Ok (lit "{'a': 'xy', 'b': '0026'}").
Proof.
  split; [reflexivity|].
  assert (Hdata : forallb (fun c => negb (N.eqb c 60))
                    (lit "{'a': 'x;y', 'b': '\u0026'};") = true) by reflexivity.
  assert (Hrest : stops (fun c => negb (N.eqb c 60)) (lit "</script>"))
    by reflexivity.
  assert (Hpre : str_contains (lit "var ytInitialData = ") (lit "<script>") = false)
    by reflexivity.
  rewrite (proj1 (extract_initial_data_text _ _ _ Hpre Hdata Hrest)).
  reflexivity.
Defined.

(** X11.  The text that [search] hands to the JSON parser never holds a
    semicolon or a [<], and is not longer than the page. *)
Theorem extract_initial_data_strips (html text : pystr) :
  extract_initial_data html = Ok text ->
  ~ In 59%N text /\ ~ In 60%N text
  /\ (List.length text <= List.length html)%nat.
Proof.
  intros Hrun.
  destruct (str_contains (lit "var ytInitialData = ") html) eqn:Hin.
  - apply str_contains_first in Hin; [|discriminate].
    destruct Hin as (pre & t & -> & Hpre).
    destruct (span_exists (fun c => negb (N.eqb c 60)) t)
      as (data & rest_of & -> & Hdata & Hrest).
    rewrite (extract_initial_data_at _ _ _ Hpre Hdata Hrest) in Hrun.
    injection Hrun as <-.
    change (lit ";") with [59%N]. rewrite str_replace_single.
    unfold str_replace. split; [|split].
    + intros Hsemi. apply str_replace_from_In in Hsemi.
      apply filter_In in Hsemi. destruct Hsemi as [_ Hsemi]. discriminate.
    + intros Hlt. apply str_replace_from_In in Hlt.
      apply filter_In in Hlt. destruct Hlt as [Hlt _].
      rewrite forallb_forall in Hdata. specialize (Hdata _ Hlt). discriminate.
    + etransitivity; [apply str_replace_from_length|].
      etransitivity; [apply filter_length_le|].
      rewrite !length_app. lia.
  - unfold extract_initial_data in Hrun.
    rewrite (re_search_initial_data_none _ Hin) in Hrun. discriminate.
Qed.

Lemma extract_initial_data_strips_witness :
  ~ In 59%N (lit "[1,2]") /\ ~ In 60%N (lit "[1,2]")
  /\ (List.length (lit "[1,2]")
      <= List.length (lit "x var ytInitialData = [1;,2];<"))%nat.
Proof.
  apply (extract_initial_data_strips (lit "x var ytInitialData = [1;,2];<")).
  reflexivity.
Defined.

(* ================================================================== *)
(** * The loop of [search_topics] and the main program *)
(* ================================================================== *)

Lemma dict_set_keys {K V : Type} `{Hashable K} (k : K) (v : V) (d : dict K V) :
  dict_keys (dict_set k v d)
  = if existsb (fun y => key_eqb y k) (dict_keys d)
    then dict_keys d
    else dict_keys d ++ [k].
Proof.
  induction d as [|[k' v'] d IH]; cbn [dict_set dict_keys List.map fst existsb];
    [reflexivity|].
  destruct (key_eqb k' k); cbn [orb List.map fst]; [reflexivity|].
  fold (dict_keys (dict_set k v d)). fold (dict_keys d). rewrite IH.
  now destruct (existsb (fun y => key_eqb y k) (dict_keys d)).
Qed.

Lemma first_seen_distinct {X : Type} `{Hashable X} (l : list X) :
  NoDup l -> first_seen l = l.
Proof.
  induction l as [|x l IH] using rev_ind; intros Hnd; [reflexivity|].
  apply NoDup_remove in Hnd. rewrite app_nil_r in Hnd. destruct Hnd as [Hnd Hx].
  rewrite first_seen_snoc, (IH Hnd).
  apply existsb_key_not_In in Hx. now rewrite Hx.
Qed.

Lemma record_count_snoc {A : Type} (results : dict pystr (list A))
  (topic : pystr) (res : list A) :
  record_count (results ++ [(topic, res)]) = record_count results + len res.
Proof.
  induction results as [|item tl IH]; cbn [app record_count fold_right snd].
  - lia.
  - fold (record_count (tl ++ [(topic, res)])). fold (record_count tl).
    rewrite IH. lia.
Qed.

Lemma record_count_sum {A : Type} (results : dict pystr (list A)) :
  fold_right Z.add 0 (List.map (fun item => len (snd item)) results)
  = record_count results.
Proof.
  induction results as [|item tl IH]; cbn [List.map fold_right record_count];
    [reflexivity|].
  fold (record_count tl). now rewrite IH.
Qed.

Section RequestsMore.
Context {U : Interpreter}.
Variable response : Z -> pystr -> pystr.
Variable json_loads : pystr -> result json.
Variable clock : Z -> Z.

Lemma search_counts (now : Z) (self self' : YTScraper) (initial_data : json)
  (out : list result_record) :
  search now self initial_data = Ok (out, self') ->
  pages_total self' = pages_total self + 1
  /\ results_total self' = results_total self + len out.
Proof.
  unfold search. intros Hrun.
  destruct (search_loop_inv now _ [] _ Hrun) as [Hout Hall].
  rewrite (search_loop_emits now _ _ Hall) in Hrun.
  cbn [app] in Hout, Hrun. injection Hrun as _ <-. subst out.
  now split.
Qed.

Lemma search_query_counts (self self' : YTScraper) (query : pystr)
  (out : list result_record) :
  search_query response json_loads clock self query = Ok (out, self') ->
  pages_total self' = pages_total self + 1
  /\ results_total self' = results_total self + len out.
Proof.
  unfold search_query. intros Hrun.
  destruct (extract_initial_data (response (pages_total self + 1) query));
    cbn [bind] in Hrun; [|discriminate].
  destruct (json_loads a); cbn [bind] in Hrun; [|discriminate].
  now apply search_counts in Hrun.
Qed.

(** The loop of [search_topics], from any state. *)
Lemma search_topics_loop (topics : list pystr) :
  forall results self out self',
    for_each
      (fun (st : dict pystr (list result_record) * YTScraper) topic =>
         let (results, self) := st in
         found <- search_query response json_loads clock self topic ;;
         Ok (dict_set topic (fst found) results, snd found))
      topics (results, self)
    = Ok (out, self') ->
    dict_keys out
    = fold_left
        (fun seen x =>
           if existsb (fun y => key_eqb y x) seen then seen else seen ++ [x])
        topics (dict_keys results)
    /\ pages_total self' = pages_total self + len topics
    /\ (NoDup topics ->
        (forall topic, In topic topics -> ~ In topic (dict_keys results)) ->
        results_total self' + record_count results
        = results_total self + record_count out).
Proof.
  induction topics as [|topic topics IH]; intros results self out self';
    cbn [for_each fold_left].
  - intros [= <- <-]. unfold len. cbn [List.length Z.of_nat].
    repeat split; lia.
  - destruct (search_query response json_loads clock self topic)
      as [[found self1]|e] eqn:Hq; cbn [bind fst snd]; [|discriminate].
    intros Hrun. apply IH in Hrun. destruct Hrun as (Hkeys & Hpages & Htotal).
    apply search_query_counts in Hq. destruct Hq as [Hp1 Hr1].
    split; [now rewrite Hkeys, dict_set_keys|].
    split; [unfold len in *; cbn [List.length]; lia|].
    intros Hnd Hfresh. inversion Hnd as [|? ? Hnew Hnd']; subst.
    assert (Htopic : ~ In topic (dict_keys results))
      by (apply Hfresh; now left).
    assert (Hrest : forall t, In t topics ->
                              ~ In t (dict_keys (dict_set topic found results))).
    { intros t Ht. rewrite dict_set_fresh by exact Htopic.
      unfold dict_keys. rewrite map_app, in_app_iff.
      cbn [List.map fst In]. intros [Hin|[<-|[]]].
      - apply (Hfresh t); [now right|assumption].
      - contradiction. }
    specialize (Htotal Hnd' Hrest).
    rewrite dict_set_fresh in Htotal by exact Htopic.
    rewrite record_count_snoc in Htotal. lia.
Qed.

End RequestsMore.

(** X7.  On the markup that the request returns, [search] raises in three
    cases and in no other: the markup lacks the text [var ytInitialData = ],
    and the subscript of the failed search raises [TypeError]; or
    [json.loads] raises on the extracted text, with its exception; or the
    body of the loop raises on some candidate, and then with the exception
    of the first such candidate in the order of the traversal: the
    candidates before it were handled without error, and their records are
    lost with the call, which returns none. *)
Theorem search_first_error {U : Interpreter}
  (response : Z -> pystr -> pystr) (json_loads : pystr -> result json)
  (clock : Z -> Z) (self : YTScraper) (query : pystr) (e : exn) :
  search_query response json_loads clock self query = Raise e
  <-> (str_contains (lit "var ytInitialData = ")
         (response (pages_total self + 1) query) = false
       /\ e = TypeError)
      \/ (exists text,
            extract_initial_data (response (pages_total self + 1) query) = Ok text
            /\ json_loads text = Raise e)
      \/ (exists text initial_data before candidate rest,
            extract_initial_data (response (pages_total self + 1) query) = Ok text
            /\ json_loads text = Ok initial_data
            /\ gen_dict_extract (lit "videoRenderer") initial_data
               = before ++ candidate :: rest
            /\ Forall (fun c =>
                         exists found,
                           video_result (clock (pages_total self + 1)) c = Ok found)
                 before
            /\ video_result (clock (pages_total self + 1)) candidate = Raise e).
Proof.
  unfold search_query.
  destruct (extract_initial_data (response (pages_total self + 1) query))
    as [text|e0] eqn:Hextract; cbn [bind].
  - destruct (json_loads text) as [initial_data|e1] eqn:Hloads; cbn [bind].
    + rewrite search_loop_first_error. split.
      * intros (before & candidate & rest & Hsplit & Hpre & Hc).
        right. right. exists text, initial_data, before, candidate, rest.
        now repeat split.
      * intros [[Hno _]|[(text' & Htext & Hraise)
                        |(text' & data' & before & candidate & rest
                          & Htext & Hdata & Hsplit & Hpre & Hc)]].
        -- assert (Hfail : extract_initial_data
                             (response (pages_total self + 1) query)
                           = Raise TypeError)
             by now apply extract_initial_data_raises.
           congruence.
        -- injection Htext as <-. congruence.
        -- injection Htext as <-. rewrite Hloads in Hdata.
           injection Hdata as <-. now exists before, candidate, rest.
    + split.
      * intros [= <-]. right. left. now exists text.
      * intros [[Hno _]|[(text' & Htext & Hraise)
                        |(text' & data' & before & candidate & rest
                          & Htext & Hdata & _)]].
        -- assert (Hfail : extract_initial_data
                             (response (pages_total self + 1) query)
                           = Raise TypeError)
             by now apply extract_initial_data_raises.
           congruence.
        -- injection Htext as <-. congruence.
        -- injection Htext as <-. congruence.
  - apply extract_initial_data_raises in Hextract. destruct Hextract as [Hno ->].
    split.
    + intros [= <-]. now left.
    + intros [[_ ->]|[(text' & Htext & _)|(text' & data' & before & candidate
                                          & rest & Htext & _)]];
        [reflexivity|discriminate|discriminate].
Qed.

(** X12.  When [search_topics] returns, the mapping has one entry per
    topic, in the order in which the topics first occur in the topic list;
    one page was requested per element of the list.  For distinct topics the
    entries stand in the order of the list, and the results counted in
    [results_total] are the records of the mapping.  (A topic that occurs
    twice is searched twice; the later result replaces the earlier one, which
    stays counted.) *)
Theorem search_topics_results {U : Interpreter}
  (response : Z -> pystr -> pystr) (json_loads : pystr -> result json)
  (clock : Z -> Z) (self self' : YTScraper) (topics : list pystr)
  (results : dict pystr (list result_record)) :
  search_topics response json_loads clock self topics = Ok (results, self') ->
  dict_keys results = first_seen topics
  /\ NoDup (dict_keys results)
  /\ pages_total self' = pages_total self + len topics
  /\ (NoDup topics ->
      dict_keys results = topics
      /\ results_total self' = results_total self + record_count results).
Proof.
  unfold search_topics. intros Hrun.
  apply search_topics_loop in Hrun. destruct Hrun as (Hkeys & Hpages & Htotal).
  cbn [dict_keys List.map] in Hkeys. fold (first_seen topics) in Hkeys.
  split; [exact Hkeys|].
  split; [unfold dict_keys in *; rewrite Hkeys; apply first_seen_NoDup|].
  split; [exact Hpages|].
  intros Hnd. split; [now rewrite Hkeys, first_seen_distinct|].
  specialize (Htotal Hnd (fun _ _ Hin => Hin)).
  cbn [record_count fold_right] in Htotal. lia.
Qed.

Lemma search_topics_results_witness :
  exists results self',
    @search_topics ascii_interpreter
      (fun _ _ => lit "<script>var ytInitialData = {};</script>")
      (fun _ => Ok example_page) (fun _ => 0)
      (Scraper 0 0) [lit "b"; lit "a"; lit "b"]
    = Ok (results, self')
    /\ dict_keys results = [lit "b"; lit "a"]
    /\ pages_total self' = 3
    /\ results_total self' = 6.
Proof.
  eexists. eexists. split; [reflexivity|].
  destruct (@search_topics_results ascii_interpreter
              (fun _ _ => lit "<script>var ytInitialData = {};</script>")
              (fun _ => Ok example_page) (fun _ => 0)
              (Scraper 0 0) _ [lit "b"; lit "a"; lit "b"] _ eq_refl)
    as (Hkeys & _ & Hpages & _).
  split; [exact Hkeys|]. split; [exact Hpages|reflexivity].
Defined.

(** X13.  The analyses of the main program cannot fail on a missing query:
    for two result mappings of distinct topics, each topic in the topic list
    later passed to [analyze_sources] (as [search_topics] returns them), and
    sources that can be dictionary keys, both calls of [analyze_sources] on
    the trimmed mappings return a breakdown, and the totals of each
    breakdown add up to the common length times the number of topics of its
    mapping. *)
Theorem main_analyses_succeed {Page K : Type} `{Hashable K}
  (source : Page -> K) (results1 results2 : dict pystr (list Page))
  (topics1 topics2 : list pystr) :
  NoDup (dict_keys results1) -> NoDup (dict_keys results2) ->
  incl (dict_keys results1) topics1 -> incl (dict_keys results2) topics2 ->
  exists analysis1 analysis2,
    analyze_sources source (fst (fst (main_trims results1 results2))) topics1
    = Ok analysis1
    /\ analyze_sources source (snd (fst (main_trims results1 results2))) topics2
       = Ok analysis2
    /\ fold_right Z.add 0 (List.map total_of analysis1)
       = snd (main_trims results1 results2) * len results1
    /\ fold_right Z.add 0 (List.map total_of analysis2)
       = snd (main_trims results1 results2) * len results2.
Proof.
  intros Hnd1 Hnd2 Hin1 Hin2.
  destruct (@main_trims_cut Page results1 results2 Hnd1 Hnd2)
    as (Hrun & Hpos & Hall).
  rewrite Hrun. cbn [fst snd].
  set (l := running_min results2 (running_min results1 default_max_length)) in *.
  assert (Hcount : forall results : dict pystr (list Page),
             (forall item, In item results -> l <= len (snd item)) ->
             len (records source (List.map (cut l) results)) = l * len results).
  { intros results Hlen. rewrite records_length.
    rewrite record_count_sum.
    rewrite (@record_count_level Page l) by now apply cut_lengths.
    unfold len. now rewrite length_map. }
  assert (Hlisted : forall (results : dict pystr (list Page)) topics,
             incl (dict_keys results) topics ->
             forall r, In r (records source (List.map (cut l) results)) ->
                       In (fst r) topics).
  { intros results topics Hincl r Hr. apply records_topics in Hr.
    rewrite cut_keys in Hr. now apply Hincl. }
  destruct (analyze_sources_sum source _ topics1 (Hlisted _ _ Hin1))
    as (analysis1 & Hrun1 & Hsum1).
  destruct (analyze_sources_sum source _ topics2 (Hlisted _ _ Hin2))
    as (analysis2 & Hrun2 & Hsum2).
  exists analysis1, analysis2.
  split; [exact Hrun1|]. split; [exact Hrun2|].
  rewrite Hsum1, Hsum2. split; apply Hcount; intros item Hin; apply Hall;
    apply in_or_app; [now left|now right].
Qed.

Lemma main_analyses_succeed_witness :
  exists analysis1 analysis2,
    analyze_sources (fun page : pystr => page)
      (fst (fst (main_trims
                   [(lit "a", [lit "X"; lit "Y"; lit "X"]); (lit "b", [lit "Y"; lit "Z"])]
                   [(lit "c", [lit "X"; lit "X"; lit "X"; lit "Z"])])))
      [lit "a"; lit "b"]
    = Ok analysis1
    /\ analyze_sources (fun page : pystr => page)
         (snd (fst (main_trims
                      [(lit "a", [lit "X"; lit "Y"; lit "X"]);
                       (lit "b", [lit "Y"; lit "Z"])]
                      [(lit "c", [lit "X"; lit "X"; lit "X"; lit "Z"])])))
         [lit "c"; lit "unused"]
       = Ok analysis2
    /\ fold_right Z.add 0 (List.map total_of analysis1) = 4
    /\ fold_right Z.add 0 (List.map total_of analysis2) = 2.
Proof.
  assert (Hnd1 : NoDup (dict_keys [(lit "a", [lit "X"; lit "Y"; lit "X"]);
                                   (lit "b", [lit "Y"; lit "Z"])])).
  { repeat constructor; cbn; intuition discriminate. }
  assert (Hnd2 : NoDup (dict_keys [(lit "c", [lit "X"; lit "X"; lit "X"; lit "Z"])])).
  { repeat constructor; cbn; intuition discriminate. }
  assert (Hin1 : incl (dict_keys [(lit "a", [lit "X"; lit "Y"; lit "X"]);
                                  (lit "b", [lit "Y"; lit "Z"])])
                   [lit "a"; lit "b"])
    by apply incl_refl.
  assert (Hin2 : incl (dict_keys [(lit "c", [lit "X"; lit "X"; lit "X"; lit "Z"])])
                   [lit "c"; lit "unused"]).
  { intros t [<-|[]]. now left. }
  destruct (@main_analyses_succeed pystr pystr _ (fun page : pystr => page)
              _ _ _ _ Hnd1 Hnd2 Hin1 Hin2)
    as (analysis1 & analysis2 & Hrun1 & Hrun2 & Hsum1 & Hsum2).
  exists analysis1, analysis2.
  split; [exact Hrun1|]. split; [exact Hrun2|].
  split; [exact Hsum1|exact Hsum2].
Defined.

(* ================================================================== *)
(** * The files *)
(* ================================================================== *)

Section CsvFacts.
Context {V : Type}.
Variable strftime : Z -> pystr.

(** A loop of [writerow] appends one row per element. *)
Lemma writerow_loop {X : Type} (f : X -> list (cell V)) (l : list X)
  (writer : csv_file V) :
  fold_left (fun writer x => writerow writer (f x)) l writer
  = CsvFile (file_name writer) (rows writer ++ List.map f l).
Proof.
  revert writer. induction l as [|x l IH]; intros writer; cbn [fold_left List.map].
  - rewrite app_nil_r. now destruct writer.
  - rewrite IH. unfold writerow. cbn [file_name rows].
    now rewrite <- app_assoc.
Qed.

Lemma write_results_loop {Page : Type} (values : Page -> list (cell V))
  (results : dict pystr (list Page)) (writer : csv_file V) :
  fold_left
    (fun writer (item : pystr * list Page) =>
       let (topic, pages) := item in
       fold_left
         (fun writer page => writerow writer ([Text topic] ++ values page))
         pages writer)
    results writer
  = CsvFile (file_name writer)
      (rows writer
         ++ flat_map (fun item : pystr * list Page =>
                        List.map (fun page => Text (fst item) :: values page)
                          (snd item))
              results).
Proof.
  revert writer. induction results as [|[topic pages] tl IH]; intros writer;
    cbn [fold_left flat_map fst snd].
  - rewrite app_nil_r. now destruct writer.
  - rewrite IH, (writerow_loop (fun page => [Text topic] ++ values page)).
    cbn [file_name rows app]. now rewrite <- app_assoc.
Qed.

Lemma write_analysis_loop (results : dict V (dict pystr Z)) (writer : csv_file V) :
  fold_left
    (fun writer (item : V * dict pystr Z) =>
       let (source, topics) := item in
       writerow writer ([Other source] ++ List.map Number (dict_values topics)))
    results writer
  = CsvFile (file_name writer)
      (rows writer
         ++ List.map
              (fun item : V * dict pystr Z =>
                 [Other (fst item)] ++ List.map Number (dict_values (snd item)))
              results).
Proof.
  revert writer. induction results as [|[src counts] tl IH]; intros writer;
    cbn [fold_left List.map fst snd].
  - rewrite app_nil_r. now destruct writer.
  - rewrite IH. unfold writerow. cbn [file_name rows].
    now rewrite <- app_assoc.
Qed.

End CsvFacts.

(** X14.  The results file: [write_results_to_csv] returns [True] and
    writes, into the file named after the time and [name], the header and
    then one row per record, topic by topic in the order of the mapping and
    record by record in the order of each sequence; a row holds the topic and
    the values of the record, nine fields like the header. *)
Theorem write_results_to_csv_rows (strftime : Z -> pystr) (now : Z)
  (results : dict pystr (list result_record)) (name : pystr) :
  write_results_to_csv strftime (record_values strftime) now results name
  = (true,
     CsvFile (strftime now ++ lit "-" ++ name ++ lit ".csv")
       (results_header
          :: flat_map (fun item : pystr * list result_record =>
                         List.map (fun r => Text (fst item) :: record_values strftime r)
                           (snd item))
               results))
  /\ Forall (fun row => List.length row = 9%nat)
       (rows (snd (write_results_to_csv strftime (record_values strftime)
                     now results name)))
  /\ len (rows (snd (write_results_to_csv strftime (record_values strftime)
                       now results name)))
     = 1 + record_count results.
Proof.
  assert (Hfile :
            write_results_to_csv strftime (record_values strftime) now results name
            = (true,
               CsvFile (strftime now ++ lit "-" ++ name ++ lit ".csv")
                 (results_header
                    :: flat_map
                         (fun item : pystr * list result_record =>
                            List.map
                              (fun r => Text (fst item) :: record_values strftime r)
                              (snd item))
                         results))).
  { unfold write_results_to_csv. now rewrite write_results_loop. }
  rewrite Hfile. cbn [snd rows]. split; [reflexivity|]. split.
  - constructor; [reflexivity|]. apply Forall_forall. intros row Hrow.
    apply in_flat_map in Hrow. destruct Hrow as (item & _ & Hrow).
    apply in_map_iff in Hrow. now destruct Hrow as (r & <- & _).
  - unfold len. cbn [List.length]. rewrite Nat2Z.inj_succ.
    enough (Hcount : Z.of_nat
                       (List.length
                          (flat_map
                             (fun item : pystr * list result_record =>
                                List.map
                                  (fun r => Text (fst item) :: record_values strftime r)
                                  (snd item))
                             results))
                     = record_count results) by lia.
    induction results as [|[topic res] tl IH];
      cbn [flat_map record_count fold_right fst snd]; [reflexivity|].
    fold (record_count tl).
    rewrite length_app, length_map, Nat2Z.inj_add, IH; [reflexivity|].
    unfold write_results_to_csv. now rewrite write_results_loop.
Qed.

(** X15.  The analysis file of a breakdown: when the topics are distinct,
    none of them is ["total"], and every record stands under a listed topic,
    [write_analysis_to_csv] on what [analyze_sources] returns writes the
    header [source], the topics, [total], and one row per source, in the
    order of the breakdown, that holds the source, under every topic the
    number of the source's records for it, and under [total] the number of
    the source's records. *)
Theorem write_analysis_to_csv_aligned {Page K : Type} `{Hashable K}
  (strftime : Z -> pystr) (source : Page -> K) (now : Z)
  (results : dict pystr (list Page)) (topics : list pystr) (name : pystr) :
  NoDup topics -> ~ In total_key topics ->
  (forall r, In r (records source results) -> In (fst r) topics) ->
  exists breakdown,
    analyze_sources source results topics = Ok breakdown
    /\ write_analysis_to_csv strftime now breakdown topics name
       = (true,
          CsvFile (strftime now ++ lit "-" ++ name ++ lit ".csv")
            (([Text (lit "source")] ++ List.map Text topics ++ [Text (lit "total")])
               :: List.map
                    (fun entry : K * dict pystr Z =>
                       [Other (fst entry)]
                         ++ List.map
                              (fun topic =>
                                 Number (appearances (records source results)
                                           topic (fst entry)))
                              topics
                         ++ [Number (results_of (records source results)
                                       (fst entry))])
                    breakdown)).
Proof.
  intros Hnd Htotal Hall. set (recs := records source results) in *.
  exists (sorted_by total_of (entries topics recs)).
  split; [now apply analyze_sources_sorted_entries|].
  unfold write_analysis_to_csv.
  rewrite write_analysis_loop.
  cbn [create_csv writerow file_name rows app]. do 3 f_equal.
  apply map_ext_in. intros entry Hentry.
  apply (Permutation_in _ (sorted_by_perm total_of _)) in Hentry.
  unfold entries, tabulate in Hentry. apply in_map_iff in Hentry.
  destruct Hentry as (src & <- & _). cbn [fst snd]. do 2 f_equal.
  unfold with_total, row. rewrite (first_seen_distinct Hnd).
  rewrite dict_set_fresh by now rewrite tabulate_keys.
  unfold dict_values. rewrite !map_app. cbn [List.map snd]. f_equal.
  - unfold tabulate. now rewrite !map_map.
  - do 2 f_equal. rewrite fold_left_add.
    unfold tabulate. rewrite map_map. cbn [snd].
    rewrite <- (first_seen_distinct Hnd) at 1. now apply row_sum.
Qed.

Lemma write_analysis_to_csv_aligned_witness :
  exists breakdown,
    analyze_sources (fun page : pystr => page)
      [(lit "q1", [lit "X"; lit "Y"; lit "Y"]); (lit "q2", [lit "Y"])]
      [lit "q1"; lit "q2"]
    = Ok breakdown
    /\ rows (snd (write_analysis_to_csv (fun _ => lit "t") 0 breakdown
                    [lit "q1"; lit "q2"] (lit "analysis")))
       = [ [Text (lit "source"); Text (lit "q1"); Text (lit "q2");
            Text (lit "total")];
           [Other (lit "Y"); Number 2; Number 1; Number 3];
           [Other (lit "X"); Number 1; Number 0; Number 1] ].
Proof.
  assert (Hnd : NoDup [lit "q1"; lit "q2"]).
  { repeat constructor; cbn; intuition discriminate. }
  assert (Htotal : ~ In total_key [lit "q1"; lit "q2"]).
  { cbn. intuition discriminate. }
  assert (Hall : forall r,
             In r (records (fun page : pystr => page)
                     [(lit "q1", [lit "X"; lit "Y"; lit "Y"]);
                      (lit "q2", [lit "Y"])]) ->
             In (fst r) [lit "q1"; lit "q2"]).
  { intros r Hr. cbn in Hr.
    repeat (destruct Hr as [<-|Hr]; [cbn; tauto|]). destruct Hr. }
  destruct (@write_analysis_to_csv_aligned pystr pystr _ (fun _ => lit "t")
              (fun page : pystr => page) 0 _ _ (lit "analysis") Hnd Htotal Hall)
    as (breakdown & Hrun & Hfile).
  exists breakdown. split; [exact Hrun|].
  rewrite Hfile. cbn [snd rows].
  assert (Hb : Ok breakdown
               = Ok [(lit "Y", [(lit "q1", 2); (lit "q2", 1); (lit "total", 3)]);
                     (lit "X", [(lit "q1", 1); (lit "q2", 0); (lit "total", 1)])])
    by (rewrite <- Hrun; reflexivity).
  injection Hb as ->. reflexivity.
Defined.

(* ================================================================== *)
(** * The cookies *)
(* ================================================================== *)

Section Assignments.
Context {K V : Type} `{Hashable K}.

Lemma dict_get_app (k : K) (a b : dict K V) :
  dict_get k (a ++ b)
  = match dict_get k a with
    | Some v => Some v
    | None => dict_get k b
    end.
Proof.
  induction a as [|[k' v'] a IH]; cbn [app dict_get]; [reflexivity|].
  now destruct (key_eqb k' k).
Qed.

Lemma dict_get_absent (k : K) (d : dict K V) :
  ~ In k (dict_keys d) -> dict_get k d = None.
Proof.
  induction d as [|[k' v'] d IH]; cbn [dict_keys List.map fst In dict_get];
    [reflexivity|].
  intros Hno. rewrite key_eqb_neq by tauto. apply IH. tauto.
Qed.

Lemma dict_get_set (k k0 : K) (v : V) (d : dict K V) :
  dict_get k (dict_set k0 v d) = if key_eqb k0 k then Some v else dict_get k d.
Proof.
  destruct (key_eqb_spec k0 k) as [->|Hne].
  - apply dict_get_set_same.
  - apply dict_get_set_other. congruence.
Qed.

(** After a run of assignments a key holds the value of the last
    assignment to it. *)
Lemma dict_get_assign_all (items : list (K * V)) (k : K) :
  forall acc,
    dict_get k
      (fold_left (fun d (kv : K * V) => dict_set (fst kv) (snd kv) d) items acc)
    = match dict_get k (rev items) with
      | Some v => Some v
      | None => dict_get k acc
      end.
Proof.
  induction items as [|[k0 v0] items IH]; intros acc; cbn [fold_left rev fst snd];
    [reflexivity|].
  rewrite IH, dict_get_app, dict_get_set. cbn [dict_get].
  now destruct (dict_get k (rev items)), (key_eqb k0 k).
Qed.

(** In a dictionary, where a key stands once, the order does not matter. *)
Lemma dict_get_rev (k : K) (d : dict K V) :
  NoDup (dict_keys d) -> dict_get k (rev d) = dict_get k d.
Proof.
  induction d as [|[k0 v0] d IH]; cbn [dict_keys List.map fst rev dict_get];
    [reflexivity|].
  intros Hnd. inversion Hnd as [|? ? Hfresh Hnd']; subst.
  rewrite dict_get_app, (IH Hnd'). cbn [dict_get].
  destruct (key_eqb_spec k0 k) as [->|_]; [|now destruct (dict_get k d)].
  now rewrite (dict_get_absent _ _ Hfresh).
Qed.

End Assignments.

(** X16.  The cookies a scraper keeps: under a name stands the value that
    [overwrite] gives it, when [overwrite] is given and holds the name, and
    otherwise the value of the last cookie of that name in the page's list;
    a name that is in neither is absent.  With the defaults of a scraper,
    [PREF] always has the default value, whatever the page sent. *)
Theorem save_valid_cookie_lookup (page_cookies : list (pystr * pystr))
  (overwrite : option (dict pystr pystr)) (name : pystr) :
  (forall pairs, overwrite = Some pairs -> NoDup (dict_keys pairs)) ->
  dict_get name (save_valid_cookie page_cookies overwrite)
  = match match overwrite with
          | Some pairs => dict_get name pairs
          | None => None
          end
    with
    | Some v => Some v
    | None => dict_get name (rev page_cookies)
    end
  /\ dict_get (lit "PREF") (save_valid_cookie page_cookies (Some cookie_defaults))
     = Some (lit "f6=40000000&tz=Europe.Berlin&hl=de&gl=DE").
Proof.
  intros Hdict. split.
  - unfold save_valid_cookie. destruct overwrite as [[|pair pairs]|].
    + rewrite dict_get_assign_all. cbn [dict_get].
      now destruct (dict_get name (rev page_cookies)).
    + rewrite !dict_get_assign_all.
      rewrite (@dict_get_rev pystr pystr _ name (pair :: pairs) (Hdict _ eq_refl)).
      destruct (dict_get name (pair :: pairs)); [reflexivity|].
      now destruct (dict_get name (rev page_cookies)).
    + rewrite dict_get_assign_all. cbn [dict_get].
      now destruct (dict_get name (rev page_cookies)).
  - unfold save_valid_cookie, cookie_defaults. cbn [fold_left fst snd].
    apply dict_get_set_same.
Qed.

Lemma save_valid_cookie_lookup_witness :
  dict_get (lit "SID")
    (save_valid_cookie
       [(lit "SID", lit "1"); (lit "PREF", lit "hl=en"); (lit "SID", lit "2")]
       (Some cookie_defaults))
  = Some (lit "2")
  /\ dict_get (lit "PREF")
       (save_valid_cookie
          [(lit "SID", lit "1"); (lit "PREF", lit "hl=en"); (lit "SID", lit "2")]
          (Some cookie_defaults))
     = Some (lit "f6=40000000&tz=Europe.Berlin&hl=de&gl=DE").
Proof.
  assert (Hdict : forall pairs,
             Some cookie_defaults = Some pairs -> NoDup (dict_keys pairs)).
  { intros pairs [= <-]. repeat constructor. intros []. }
  split.
  - rewrite (proj1 (@save_valid_cookie_lookup
                      [(lit "SID", lit "1"); (lit "PREF", lit "hl=en");
                       (lit "SID", lit "2")]
                      (Some cookie_defaults) (lit "SID") Hdict)).
    reflexivity.
  - reflexivity.
Defined.

(* ================================================================== *)
(** * More on [gen_dict_extract] *)
(* ================================================================== *)

Lemma list_sum_In {X : Type} (f : X -> nat) (x : X) (l : list X) :
  In x l -> (f x <= list_sum (List.map f l))%nat.
Proof.
  induction l as [|y l IH]; cbn [In List.map list_sum fold_right]; [tauto|].
  intros [->|Hin]; [lia|]. specialize (IH Hin). fold (list_sum (List.map f l)). lia.
Qed.

Lemma Found_smaller (key : pystr) (tree v : json) :
  Found key tree v -> (json_size v < json_size tree)%nat.
Proof.
  induction 1 as [items v Hin|items k sub v Hin _ IH
                 |items k elems sub v Hin Hel _ IH]; cbn [json_size].
  - apply (list_sum_In (fun kv : pystr * json => let (_, v) := kv in json_size v))
      in Hin. lia.
  - apply (list_sum_In (fun kv : pystr * json => let (_, v) := kv in json_size v))
      in Hin. cbn [json_size] in Hin, IH. lia.
  - apply (list_sum_In (fun kv : pystr * json => let (_, v) := kv in json_size v))
      in Hin.
    apply (list_sum_In json_size) in Hel. cbn [json_size] in Hin, Hel, IH. lia.
Qed.

Lemma Found_nested (key : pystr) (tree v w : json) :
  Found key tree v -> Found key v w -> Found key tree w.
Proof.
  induction 1 as [items v Hin|items k sub v Hin _ IH
                 |items k elems sub v Hin Hel _ IH]; intros Hw.
  - inversion Hw; subst; eapply Found_in_mapping; eauto.
  - eapply Found_in_mapping; eauto.
  - eapply Found_in_sequence; eauto.
Qed.

(** X17.  What the traversal yields lies properly inside the tree, and the
    traversal goes on inside what it yields: a value that is yielded is
    smaller than the tree, and everything that the traversal of a yielded
    value yields is yielded by the traversal of the tree as well. *)
Theorem gen_dict_extract_nested (key : pystr) (tree v : json) :
  In v (gen_dict_extract key tree) ->
  (json_size v < json_size tree)%nat
  /\ forall w, In w (gen_dict_extract key v) -> In w (gen_dict_extract key tree).
Proof.
  intros Hv. apply gen_dict_extract_sound in Hv. split.
  - now apply Found_smaller in Hv.
  - intros w Hw. apply gen_dict_extract_sound in Hw.
    apply gen_dict_extract_complete. now apply (Found_nested Hv).
Qed.

Lemma gen_dict_extract_nested_witness :
  In (JDict [(lit "k", JInt 7)])
    (gen_dict_extract (lit "k")
       (JDict [(lit "a", JList [JDict [(lit "k", JDict [(lit "k", JInt 7)])]])]))
  /\ In (JInt 7)
       (gen_dict_extract (lit "k")
          (JDict [(lit "a", JList [JDict [(lit "k", JDict [(lit "k", JInt 7)])]])])).
Proof.
  assert (Hv : In (JDict [(lit "k", JInt 7)])
                 (gen_dict_extract (lit "k")
                    (JDict [(lit "a",
                              JList [JDict [(lit "k", JDict [(lit "k", JInt 7)])]])])))
    by (left; reflexivity).
  split; [exact Hv|].
  apply (proj2 (gen_dict_extract_nested _ _ _ Hv)). left. reflexivity.
Defined.

(* ================================================================== *)
(** * More on [age_to_seconds] *)
(* ================================================================== *)

(** X18.  [age_to_seconds] reads the start of the text only: whatever
    follows the unit word without continuing it (a blank, a comma, any
    character that is no letter, digit or underscore) is ignored, and the
    result is that of the text without it, value or exception: the number
    times the seconds of the unit, when [int] converts the digits (they are
    at most 640, or no limit is set, or they are within the limit). *)
Theorem age_to_seconds_trailing_text {U : Interpreter}
  (now : Z) (ds unit tail : pystr) (mult : Z) :
  ds <> [] -> forallb is_digit ds = true ->
  unit_seconds unit = Some mult -> stops is_word tail ->
  age_to_seconds now (lit "vor " ++ ds ++ 32%N :: unit ++ tail)
  = age_to_seconds now (lit "vor " ++ ds ++ 32%N :: unit)
  /\ (len ds <= 640 \/ int_max_str_digits <= 0 \/ len ds <= int_max_str_digits ->
      exists n,
        py_int ds = Ok n
        /\ age_to_seconds now (lit "vor " ++ ds ++ 32%N :: unit ++ tail)
           = Ok (mult * n)).
Proof.
  intros Hne Hds Hunit Htail.
  destruct (unit_seconds_word _ Hunit) as (Hu1 & Hu2 & _).
  assert (Hm := @age_pattern_intro U ds unit tail Hne Hds Hu1 Hu2 Htail).
  assert (Hm0 := @age_pattern_intro U ds unit [] Hne Hds Hu1 Hu2 I).
  rewrite app_nil_r in Hm0.
  rewrite (age_to_seconds_relative now _ Hm), (age_to_seconds_relative now _ Hm0).
  unfold group. cbn [groups nth Nat.sub]. rewrite Hunit.
  split; [reflexivity|]. intros Hlimit.
  destruct (py_int_digits Hne Hds Hlimit) as (n & Hn & _).
  exists n. now rewrite Hn.
Qed.

Lemma age_to_seconds_trailing_text_witness :
  @age_to_seconds ascii_interpreter 0
    (lit "vor " ++ lit "3" ++ 32%N :: lit "Tagen" ++ lit " gestreamt")
  = @age_to_seconds ascii_interpreter 0 (lit "vor " ++ lit "3" ++ 32%N :: lit "Tagen")
  /\ exists n,
       @py_int ascii_interpreter (lit "3") = Ok n
       /\ @age_to_seconds ascii_interpreter 0
            (lit "vor " ++ lit "3" ++ 32%N :: lit "Tagen" ++ lit " gestreamt")
          = Ok (86400 * n).
Proof.
  assert (Hne : lit "3" <> []) by discriminate.
  assert (Hds : forallb (@is_digit ascii_interpreter) (lit "3") = true)
    by reflexivity.
  assert (Hunit : unit_seconds (lit "Tagen") = Some 86400) by reflexivity.
  assert (Htail : @stops (@is_word ascii_interpreter) (lit " gestreamt"))
    by reflexivity.
  destruct (@age_to_seconds_trailing_text ascii_interpreter 0
              (lit "3") (lit "Tagen") (lit " gestreamt") 86400
              Hne Hds Hunit Htail) as [Hsame Hvalue].
  split; [exact Hsame|]. apply Hvalue. left. vm_compute. discriminate.
Defined.

(** ** The order of dates *)

(** What the matcher accepts: [Matches r pre caps caps1] when [r] can
    consume [pre], turning the captures [caps] into [caps1]. *)
Inductive Matches : regex -> pystr -> list pystr -> list pystr -> Prop :=
| Matches_Eps caps : Matches Eps [] caps caps
| Matches_Chr c caps : Matches (Chr c) [c] caps caps
| Matches_Cls (p : N -> bool) c caps : p c = true -> Matches (Cls p) [c] caps caps
| Matches_Seq r1 r2 pre1 pre2 caps caps1 caps2 :
    Matches r1 pre1 caps caps1 -> Matches r2 pre2 caps1 caps2 ->
    Matches (Seq r1 r2) (pre1 ++ pre2) caps caps2
| Matches_Alt_l r1 r2 pre caps caps1 :
    Matches r1 pre caps caps1 -> Matches (Alt r1 r2) pre caps caps1
| Matches_Alt_r r1 r2 pre caps caps1 :
    Matches r2 pre caps caps1 -> Matches (Alt r1 r2) pre caps caps1
| Matches_Plus (p : N -> bool) pre caps :
    pre <> [] -> forallb p pre = true -> Matches (Plus p) pre caps caps
| Matches_Group r pre caps caps1 :
    Matches r pre caps caps1 -> Matches (Group r) pre caps (caps1 ++ [pre]).

Section DateOrder.
Context {U : Interpreter}.

(** Every result of the matcher is a match. *)
Lemma re_run_Matches (r : regex) :
  forall s caps k m,
    re_run r s caps k = Some m ->
    exists pre s1 caps1,
      s = pre ++ s1 /\ Matches r pre caps caps1 /\ k s1 caps1 = Some m.
Proof.
  induction r as [|x|p|r1 IH1 r2 IH2|r1 IH1 r2 IH2|p|r1 IH1];
    intros s caps k m Hrun; cbn [re_run] in Hrun.
  - exists [], s, caps. repeat split; [constructor|assumption].
  - destruct s as [|c t]; [discriminate|].
    destruct (N.eqb_spec c x) as [->|]; [|discriminate].
    exists [x], t, caps. repeat split; [constructor|assumption].
  - destruct s as [|c t]; [discriminate|].
    destruct (p c) eqn:Hc; [|discriminate].
    exists [c], t, caps. repeat split; [now constructor|assumption].
  - apply IH1 in Hrun. destruct Hrun as (pre1 & s1 & caps1 & -> & Hpre1 & Hrun).
    apply IH2 in Hrun. destruct Hrun as (pre2 & s2 & caps2 & -> & Hpre2 & Hk).
    exists (pre1 ++ pre2), s2, caps2. rewrite app_assoc.
    repeat split; [econstructor; eassumption|assumption].
  - destruct (re_run r1 s caps k) as [m1|] eqn:H1.
    + injection Hrun as <-. apply IH1 in H1.
      destruct H1 as (pre & s1 & caps1 & -> & Hpre & Hk).
      exists pre, s1, caps1. repeat split; [now apply Matches_Alt_l|assumption].
    + apply IH2 in Hrun. destruct Hrun as (pre & s1 & caps1 & -> & Hpre & Hk).
      exists pre, s1, caps1. repeat split; [now apply Matches_Alt_r|assumption].
  - destruct s as [|c t]; [discriminate|].
    destruct (p c) eqn:Hc; [|discriminate].
    apply star_class_inv in Hrun. destruct Hrun as (pre & s1 & -> & Hpre & Hk).
    exists (c :: pre), s1, caps. repeat split; [|assumption].
    constructor; [discriminate|]. cbn [forallb]. now rewrite Hc, Hpre.
  - apply IH1 in Hrun. destruct Hrun as (pre & s1 & caps1 & -> & Hpre & Hk).
    rewrite firstn_consumed in Hk.
    exists pre, s1, (caps1 ++ [pre]). repeat split; [now constructor|assumption].
Qed.

(** ** The numbers [int] reads from the day and month fields *)

Lemma decimal_value_ascii (c : N) :
  (48 <= c <= 57)%N -> decimal_value c = Some (Z.of_N c - 48).
Proof.
  intros Hc. unfold decimal_value, in_range.
  destruct (N.ltb_spec c 128); [|lia].
  destruct (N.leb_spec 48 c), (N.leb_spec c 57); cbn [andb]; try lia.
  reflexivity.
Qed.

Lemma in_range_bounds (lo hi c : N) :
  in_range lo hi c = true -> (lo <= c <= hi)%N.
Proof.
  unfold in_range. intros Hc. apply andb_prop in Hc.
  destruct Hc as [Hlo Hhi]. apply N.leb_le in Hlo, Hhi. lia.
Qed.

Lemma is_digit_value (c : N) :
  is_digit c = true -> exists d, decimal_value c = Some d /\ 0 <= d <= 9.
Proof.
  unfold is_digit. destruct (decimal_value c) as [d|] eqn:Hd; [|discriminate].
  intros _. exists d. split; [reflexivity|]. now apply decimal_value_range in Hd.
Qed.

Lemma py_int_one (a : N) (da : Z) :
  decimal_value a = Some da -> py_int [a] = Ok da.
Proof.
  intros Ha. unfold py_int. cbn [lstrip_blank].
  destruct (N.eqb_spec a 32) as [->|_]; [discriminate|].
  cbn [leading_digits digits_value]. rewrite Ha.
  rewrite (proj2 (exceeds_digit_limit_false _)) by (left; lia).
  reflexivity.
Qed.

Lemma py_int_two (a b : N) (da db : Z) :
  decimal_value a = Some da -> decimal_value b = Some db ->
  py_int [a; b] = Ok (10 * da + db).
Proof.
  intros Ha Hb. unfold py_int. cbn [lstrip_blank].
  destruct (N.eqb_spec a 32) as [->|_]; [discriminate|].
  cbn [leading_digits digits_value]. rewrite Ha, Hb.
  rewrite (proj2 (exceeds_digit_limit_false _)) by (left; lia).
  reflexivity.
Qed.

Lemma py_int_blank_one (b : N) (db : Z) :
  decimal_value b = Some db -> py_int [32%N; b] = Ok db.
Proof.
  intros Hb. unfold py_int. cbn [lstrip_blank N.eqb Pos.eqb].
  destruct (N.eqb_spec b 32) as [->|_]; [discriminate|].
  cbn [leading_digits digits_value]. rewrite Hb.
  rewrite (proj2 (exceeds_digit_limit_false _)) by (left; lia).
  reflexivity.
Qed.

Ltac invert_matches :=
  repeat match goal with
         | H : Matches (Seq _ _) _ _ _ |- _ => inversion H; subst; clear H
         | H : Matches (Alt _ _) _ _ _ |- _ => inversion H; subst; clear H
         | H : Matches (Group _) _ _ _ |- _ => inversion H; subst; clear H
         | H : Matches (Chr _) _ _ _ |- _ => inversion H; subst; clear H
         | H : Matches (Cls _) _ _ _ |- _ => inversion H; subst; clear H
         | H : Matches Eps _ _ _ |- _ => inversion H; subst; clear H
         end.

Ltac digit_facts :=
  repeat match goal with
         | H : in_range _ _ _ = true |- _ => apply in_range_bounds in H
         | H : is_digit _ = true |- _ =>
             apply is_digit_value in H; destruct H as (? & ? & ?)
         end.

Ltac digit_goal := first [eassumption|apply decimal_value_ascii; lia].

Ltac field_value :=
  eexists; split;
  [first [solve [eapply py_int_two; digit_goal]
         |solve [eapply py_int_blank_one; digit_goal]
         |solve [eapply py_int_one; digit_goal]]
  |lia].

(** The day field holds a number from 1 to 31. *)
Lemma directive_d_value (pre : pystr) (caps caps1 : list pystr) :
  Matches directive_d pre caps caps1 ->
  caps1 = caps ++ [pre] /\ exists d, py_int pre = Ok d /\ 1 <= d <= 31.
Proof.
  unfold directive_d. intros Hm. invert_matches; (split; [reflexivity|]);
    cbn [app]; digit_facts; field_value.
Qed.

(** The month field holds a number from 1 to 12. *)
Lemma directive_m_value (pre : pystr) (caps caps1 : list pystr) :
  Matches directive_m pre caps caps1 ->
  caps1 = caps ++ [pre] /\ exists n, py_int pre = Ok n /\ 1 <= n <= 12.
Proof.
  unfold directive_m. intros Hm. invert_matches; (split; [reflexivity|]);
    cbn [app]; digit_facts; field_value.
Qed.

Lemma directive_Y_caps (pre : pystr) (caps caps1 : list pystr) :
  Matches directive_Y pre caps caps1 -> caps1 = caps ++ [pre].
Proof. unfold directive_Y. intros Hm. now invert_matches. Qed.

(** A date that [strptime] returns exists in the calendar. *)
Lemma strptime_dmY_valid (s : pystr) (year month day : Z) :
  strptime_dmY s = Ok (year, month, day) ->
  1 <= year /\ 1 <= month <= 12 /\ 1 <= day <= days_in_month year month.
Proof.
  unfold strptime_dmY. intros Hparse.
  destruct (re_match format_dmY s) as [m|] eqn:Hm; [|discriminate].
  destruct (rest m); [|discriminate].
  unfold re_match in Hm. apply re_run_Matches in Hm.
  destruct Hm as (pre & s1 & caps1 & _ & Hm & [= <-]).
  unfold format_dmY in Hm.
  repeat match goal with
         | H : Matches (Seq _ _) _ _ _ |- _ => inversion H; subst; clear H
         | H : Matches (Chr _) _ _ _ |- _ => inversion H; subst; clear H
         end.
  repeat match goal with
         | H : Matches directive_d _ _ _ |- _ =>
             apply directive_d_value in H; destruct H as (-> & d & Hd & Hdr)
         | H : Matches directive_m _ _ _ |- _ =>
             apply directive_m_value in H; destruct H as (-> & n & Hn & Hnr)
         | H : Matches directive_Y _ _ _ |- _ =>
             apply directive_Y_caps in H; subst
         end.
  unfold group in Hparse. cbn [groups nth Nat.sub app] in Hparse.
  rewrite Hd, Hn in Hparse. cbn [bind] in Hparse.
  match type of Hparse with
  | context [py_int ?yy] => destruct (py_int yy) as [y|]; cbn [bind] in Hparse;
                            [|discriminate]
  end.
  destruct ((1 <=? y) && (d <=? days_in_month y n)) eqn:Hok; [|discriminate].
  injection Hparse as <- <- <-.
  apply andb_prop in Hok. destruct Hok as [Hy1 Hd1].
  apply Z.leb_le in Hy1, Hd1. lia.
Qed.

(** ** The calendar *)

Lemma days_before_year_step (year : Z) :
  days_before_year (year + 1)
  = days_before_year year + (if is_leap year then 366 else 365).
Proof.
  unfold days_before_year, is_leap.
  replace (year + 1 - 1) with year by lia.
  destruct (Z.eqb_spec (year mod 4) 0), (Z.eqb_spec (year mod 100) 0),
    (Z.eqb_spec (year mod 400) 0); cbn [negb andb orb];
    Z.to_euclidean_division_equations; lia.
Qed.

Lemma days_before_year_mono (y1 y2 : Z) :
  y1 <= y2 -> days_before_year y1 <= days_before_year y2.
Proof.
  unfold days_before_year. intros Hy.
  Z.to_euclidean_division_equations. lia.
Qed.

Lemma month_cases (month : Z) :
  1 <= month <= 12 ->
  month = 1 \/ month = 2 \/ month = 3 \/ month = 4 \/ month = 5 \/ month = 6
  \/ month = 7 \/ month = 8 \/ month = 9 \/ month = 10 \/ month = 11
  \/ month = 12.
Proof. lia. Qed.

Ltac each_month H :=
  apply month_cases in H;
  repeat (destruct H as [H|H]; [subst|]); subst.

(** The days of a month end before the next month starts. *)
Lemma days_before_month_step (year m1 m2 day : Z) :
  1 <= m1 <= 12 -> 1 <= m2 <= 12 -> m1 < m2 -> day <= days_in_month year m1 ->
  days_before_month year m1 + day <= days_before_month year m2.
Proof.
  intros H1 H2 Hlt Hday. unfold days_before_month, days_in_month in *.
  each_month H1; each_month H2; try lia;
    cbn [Z.ltb Z.compare Pos.compare Pos.compare_cont andb] in *;
    destruct (is_leap year); lia.
Qed.

Lemma days_before_month_end (year month day : Z) :
  1 <= month <= 12 -> day <= days_in_month year month ->
  days_before_month year month + day <= if is_leap year then 366 else 365.
Proof.
  intros H1 Hday. unfold days_before_month, days_in_month in *.
  each_month H1;
    cbn [Z.ltb Z.compare Pos.compare Pos.compare_cont andb] in *;
    destruct (is_leap year); lia.
Qed.

Lemma days_before_month_nonneg (year month : Z) :
  0 <= days_before_month year month.
Proof.
  unfold days_before_month.
  destruct ((2 <? month) && is_leap year);
    repeat match goal with
           | |- context [match ?m with _ => _ end] => destruct m
           end; lia.
Qed.

(** A later date has a greater ordinal. *)
Lemma ymd2ord_lt (y1 m1 d1 y2 m2 d2 : Z) :
  1 <= m1 <= 12 -> d1 <= days_in_month y1 m1 ->
  1 <= m2 <= 12 -> 1 <= d2 ->
  y1 < y2 \/ (y1 = y2 /\ (m1 < m2 \/ (m1 = m2 /\ d1 < d2))) ->
  ymd2ord (y1, m1, d1) < ymd2ord (y2, m2, d2).
Proof.
  intros Hm1 Hd1 Hm2 Hd2 Horder. unfold ymd2ord.
  destruct Horder as [Hy|[-> [Hm|[-> Hd]]]].
  - pose proof (days_before_month_end y1 Hm1 Hd1) as Hend.
    pose proof (days_before_year_step y1) as Hstep.
    assert (Hmono : days_before_year (y1 + 1) <= days_before_year y2)
      by (apply days_before_year_mono; lia).
    pose proof (days_before_month_nonneg y2 m2). lia.
  - pose proof (days_before_month_step y2 Hm1 Hm2 Hm Hd1). lia.
  - lia.
Qed.

End DateOrder.

(** X19.  Ages follow the calendar: of two texts that [strptime] reads as
    dates, the one with the earlier date gets the greater age, by at least
    one day (86400 seconds), at whatever moment both are taken. *)
Theorem age_to_seconds_date_order {U : Interpreter}
  (now : Z) (s1 s2 : pystr) (y1 m1 d1 y2 m2 d2 : Z) :
  strptime_dmY s1 = Ok (y1, m1, d1) -> strptime_dmY s2 = Ok (y2, m2, d2) ->
  y1 < y2 \/ (y1 = y2 /\ (m1 < m2 \/ (m1 = m2 /\ d1 < d2))) ->
  exists a1 a2,
    age_to_seconds now s1 = Ok a1 /\ age_to_seconds now s2 = Ok a2
    /\ a2 + 86400 <= a1.
Proof.
  intros Hs1 Hs2 Horder.
  destruct (strptime_dmY_valid _ Hs1) as (_ & Hm1 & _ & Hd1).
  destruct (strptime_dmY_valid _ Hs2) as (_ & Hm2 & Hd2 & _).
  pose proof (ymd2ord_lt Hm1 Hd1 Hm2 Hd2 Horder) as Hlt.
  exists (86400 * (today_ordinal now - ymd2ord (y1, m1, d1))),
    (86400 * (today_ordinal now - ymd2ord (y2, m2, d2))).
  rewrite !age_to_seconds_absolute by (eapply strptime_dmY_no_vor; eassumption).
  rewrite Hs1, Hs2. cbn [bind]. repeat split. lia.
Qed.

Lemma age_to_seconds_date_order_witness :
  exists a1 a2,
    @age_to_seconds ascii_interpreter (datetime_us (2023, 3, 5)) (lit "28.02.2023")
    = Ok a1
    /\ @age_to_seconds ascii_interpreter (datetime_us (2023, 3, 5)) (lit "1.3.2023")
       = Ok a2
    /\ a2 + 86400 <= a1.
Proof.
  apply (@age_to_seconds_date_order ascii_interpreter (datetime_us (2023, 3, 5))
           (lit "28.02.2023") (lit "1.3.2023") 2023 2 28 2023 3 1);
    [reflexivity|reflexivity|right; split; [reflexivity|left; reflexivity]].
Defined.

(* ================================================================== *)
(** * The width of the analysis file *)
(* ================================================================== *)

Lemma with_total_width (counts : dict pystr Z) :
  List.length (dict_values (with_total counts))
  = if existsb (fun t => key_eqb t total_key) (dict_keys counts)
    then List.length counts
    else S (List.length counts).
Proof.
  unfold dict_values. rewrite length_map.
  rewrite <- (length_map fst (with_total counts)).
  fold (dict_keys (with_total counts)). unfold with_total.
  rewrite dict_set_keys.
  destruct (existsb (fun t => key_eqb t total_key) (dict_keys counts)).
  - unfold dict_keys. now rewrite length_map.
  - unfold dict_keys. rewrite length_app, length_map. cbn [List.length]. lia.
Qed.

(** X20.  The rows of the analysis file hold one count per distinct topic
    and, unless a topic is called ["total"], the total after them, while the
    header names every element of the topic list and [total]: when every
    record stands under a listed topic, a row has as many fields as the
    header exactly when the topics are distinct and none is ["total"], and
    fewer otherwise. *)
Theorem write_analysis_to_csv_widths {Page K : Type} `{Hashable K}
  (strftime : Z -> pystr) (source : Page -> K) (now : Z)
  (results : dict pystr (list Page)) (topics : list pystr) (name : pystr) :
  (forall r, In r (records source results) -> In (fst r) topics) ->
  exists breakdown header body,
    analyze_sources source results topics = Ok breakdown
    /\ rows (snd (write_analysis_to_csv strftime now breakdown topics name))
       = header :: body
    /\ List.length body = List.length breakdown
    /\ List.length header = (List.length topics + 2)%nat
    /\ Forall
         (fun row =>
            List.length row
            = (List.length (first_seen topics)
               + if existsb (fun t => key_eqb t total_key) topics then 1 else 2)%nat
            /\ (List.length row <= List.length header)%nat
            /\ (List.length row = List.length header
                <-> NoDup topics /\ ~ In total_key topics))
         body.
Proof.
  intros Hall. set (recs := records source results) in *.
  exists (sorted_by total_of (entries topics recs)).
  exists ([Text (lit "source")] ++ List.map Text topics ++ [Text (lit "total")]).
  exists (List.map
            (fun item : K * dict pystr Z =>
               [Other (fst item)] ++ List.map Number (dict_values (snd item)))
            (sorted_by total_of (entries topics recs))).
  split; [now apply analyze_sources_sorted_entries|].
  split; [unfold write_analysis_to_csv; now rewrite write_analysis_loop|].
  split; [apply length_map|].
  assert (Hheader :
            List.length ([@Text K (lit "source")] ++ List.map Text topics
                           ++ [Text (lit "total")])
            = (List.length topics + 2)%nat).
  { cbn [app List.length]. rewrite length_app, length_map. cbn [List.length]. lia. }
  split; [exact Hheader|]. rewrite Hheader.
  assert (Hseen : (List.length (first_seen topics) <= List.length topics)%nat).
  { apply NoDup_incl_length; [apply first_seen_NoDup|].
    intros t Ht. now apply first_seen_In. }
  assert (Hsame : List.length (first_seen topics) = List.length topics
                  <-> NoDup topics).
  { split.
    - intros Hlen. apply NoDup_incl_NoDup with (l := first_seen topics).
      + apply first_seen_NoDup.
      + lia.
      + intros t Ht. now apply first_seen_In.
    - intros Hnd. now rewrite first_seen_distinct. }
  apply Forall_forall. intros row Hrow. apply in_map_iff in Hrow.
  destruct Hrow as (entry & <- & Hentry).
  apply (Permutation_in _ (sorted_by_perm total_of _)) in Hentry.
  unfold entries, tabulate in Hentry. apply in_map_iff in Hentry.
  destruct Hentry as (src & <- & _). cbn [fst snd app List.length].
  rewrite length_map, with_total_width. unfold row.
  rewrite tabulate_keys. unfold tabulate. rewrite length_map.
  assert (Hmem : existsb (fun t => key_eqb t total_key) (first_seen topics)
                 = existsb (fun t => key_eqb t total_key) topics).
  { destruct (existsb (fun t => key_eqb t total_key) topics) eqn:Ht.
    - apply existsb_key_In. apply first_seen_In. now apply existsb_key_In.
    - apply existsb_key_not_In. rewrite first_seen_In.
      now apply existsb_key_not_In. }
  rewrite Hmem.
  destruct (existsb (fun t => key_eqb t total_key) topics) eqn:Ht.
  - apply existsb_key_In in Ht. split; [lia|]. split; [lia|].
    split; [lia|tauto].
  - apply existsb_key_not_In in Ht. split; [lia|]. split; [lia|].
    split; [intros Hlen; split; [apply Hsame; lia|exact Ht]|].
    intros [Hnd _]. apply Hsame in Hnd. lia.
Qed.

Lemma write_analysis_to_csv_widths_witness :
  exists breakdown header body,
    analyze_sources (fun page : pystr => page)
      [(lit "q", [lit "X"; lit "Y"])] [lit "q"; lit "q"]
    = Ok breakdown
    /\ rows (snd (write_analysis_to_csv (fun _ => lit "t") 0 breakdown
                    [lit "q"; lit "q"] (lit "analysis")))
       = header :: body
    /\ List.length header = 4%nat
    /\ Forall (fun row => List.length row = 3%nat) body.
Proof.
  assert (Hall : forall r,
             In r (records (fun page : pystr => page)
                     [(lit "q", [lit "X"; lit "Y"])]) ->
             In (fst r) [lit "q"; lit "q"]).
  { intros r Hr. cbn in Hr.
    repeat (destruct Hr as [<-|Hr]; [cbn; tauto|]). destruct Hr. }
  destruct (@write_analysis_to_csv_widths pystr pystr _ (fun _ => lit "t")
              (fun page : pystr => page) 0 _ _ (lit "analysis") Hall)
    as (breakdown & header & body & Hrun & Hrows & _ & Hheader & Hbody).
  exists breakdown, header, body.
  split; [exact Hrun|]. split; [exact Hrows|]. split; [exact Hheader|].
  apply (Forall_impl _ (fun row Hrow => proj1 Hrow) Hbody).
Defined.
